(** * Ambulance logistics: routing and road-damage engine

    A shallow embedding of [pathfinding.py] (route metrics and
    [find_routes]) and of the damage loop of [AmbulanceApp.block_roads]
    in [main.py], together with the properties of the routing
    specification that concern them.

    Conventions of the embedding.
    - Node identifiers and parallel-edge keys are integers ([Z]), as in
      the OSM data the program loads.
    - Edge lengths, coordinates, distances and times are Python floats in
      the program.  They are modelled by exact rationals ([Q]); equalities
      between computed quantities are stated with [==].
    - A networkx [MultiDiGraph] is used by the program only through its
      interface ([copy], [has_edge], [remove_edge], [graph[u][v]],
      [nodes[u]]).  It is modelled by its node table and its edge table in
      insertion order; [graph[u][v]] is the sub-table of the edges from
      [u] to [v], in that order.
    - Graph objects are mutable and are passed by reference: they live in
      a store, [graph.copy()] allocates a new object and [remove_edge]
      updates the object it is called on.
    - Python exceptions are an error result. *)

From Stdlib Require Import ZArith QArith Lia Lqa Sorted.
From stdpp Require Import base list strings gmap.

Local Open Scope Z_scope.

(** ** Data model *)

Definition node := Z.
Definition edge_key := Z.

(** An edge identifier [(u, v, key)]. *)
Definition edge_id : Type := node * node * edge_key.

(** The value of the OSM [highway] attribute: one tag, or a list of tags. *)
Inductive highway_tag : Type :=
  | HwStr (s : string)
  | HwList (l : list string).

(** The attribute dictionary of an edge; an absent attribute is [None]. *)
Record EdgeData : Type := mkEdgeData {
  attr_length : option Q;
  attr_highway : option highway_tag;
  attr_geometry : option (list (Q * Q))
}.

Record Edge : Type := mkEdge {
  e_u : node;
  e_v : node;
  e_key : edge_key;
  e_data : EdgeData
}.

(** The attribute dictionary of a node: latitude [y], longitude [x]. *)
Record NodeData : Type := mkNodeData {
  node_y : Q;
  node_x : Q
}.

Record MultiDiGraph : Type := mkGraph {
  nodes : list (node * NodeData);
  edges : list Edge
}.

Definition id_of (e : Edge) : edge_id := (e_u e, e_v e, e_key e).

(** The reverse identifier [(v, u, key)]. *)
Definition reverse_id (i : edge_id) : edge_id :=
  let '(u, v, key) := i in (v, u, key).

(** ** Exceptions

    The Python and networkx exceptions that the modelled code can raise.
    [InvalidReference] is the outcome of reading a reference that names no
    object of the store; no call of the program does. *)

Inductive exn : Type :=
  | KeyError
  | IndexError
  | ValueError
  | NetworkXError
  | NetworkXNoPath
  | NodeNotFound
  | InvalidReference.

#[global] Instance exn_eq_dec : EqDecision exn.
Proof. solve_decision. Defined.

(** ** The graph interface, on graph values *)

Module Graph.

Definition has_node (G : MultiDiGraph) (n : node) : bool :=
  bool_decide (n ∈ (nodes G).*1).

(** [G.has_edge(u, v, key)] *)
Definition has_edge (G : MultiDiGraph) (u v : node) (key : edge_key) : bool :=
  bool_decide ((u, v, key) ∈ id_of <$> edges G).

(** [graph[u][v]]: the parallel edges from [u] to [v], in insertion order. *)
Definition between (G : MultiDiGraph) (u v : node) : list Edge :=
  filter (λ e, e_u e = u ∧ e_v e = v) (edges G).

(** [G.has_edge(u, v)] *)
Definition has_edge_uv (G : MultiDiGraph) (u v : node) : bool :=
  bool_decide (between G u v ≠ []).

(** [graph[u][v]] raises [KeyError] when no edge joins [u] to [v]. *)
Definition adj (G : MultiDiGraph) (u v : node) : result (list Edge) exn :=
  match between G u v with
  | [] => Error KeyError
  | es => Ok es
  end.

(** [G.remove_edge(u, v, key)]; networkx raises [NetworkXError] when the
    edge is absent. *)
Definition remove_edge (G : MultiDiGraph) (u v : node) (key : edge_key)
  : result MultiDiGraph exn :=
  if has_edge G u v key
  then Ok {| nodes := nodes G;
             edges := filter (λ e, id_of e ≠ (u, v, key)) (edges G) |}
  else Error NetworkXError.

(** [G.nodes[n]] *)
Definition node_data (G : MultiDiGraph) (n : node) : result NodeData exn :=
  match list_find (λ p, p.1 = n) (nodes G) with
  | Some (_, p) => Ok p.2
  | None => Error KeyError
  end.

End Graph.

(** ** Route metrics ([calculate_route_metrics]) *)

(** The selection key [x.get('length', float('inf'))]: [None] is infinity. *)
Definition length_key (d : EdgeData) : option Q := attr_length d.

Definition Qltb (a b : Q) : bool := negb (Qle_bool b a).

(** [a < b] on keys, with [None] as positive infinity. *)
Definition key_lt (a b : option Q) : bool :=
  match a, b with
  | Some p, Some q => Qltb p q
  | Some _, None => true
  | None, _ => false
  end.

(** Python's [min(xs, key=f)]: the first element whose key is minimal;
    [ValueError] on an empty sequence. *)
Definition py_min {A : Type} (f : A → option Q) (xs : list A) : result A exn :=
  match xs with
  | [] => Error ValueError
  | x0 :: rest =>
      Ok (fold_left (λ best c, if key_lt (f c) (f best) then c else best) rest x0)
  end.

(** [highway in ['motorway', 'trunk', 'primary']], for
    [highway = edge_data.get('highway', '')]. *)
Definition is_fast_class (d : EdgeData) : bool :=
  match attr_highway d with
  | Some (HwStr s) => bool_decide (s ∈ ["motorway"; "trunk"; "primary"]%string)
  | Some (HwList _) => false
  | None => false
  end.

Definition speed (d : EdgeData) : Q := if is_fast_class d then 80%Q else 60%Q.

(** [edge_data.get('length', 0)] *)
Definition length_or_zero (d : EdgeData) : Q := default 0%Q (attr_length d).

(** The edge selected for the pair [(u, v)]. *)
Definition select_edge (G : MultiDiGraph) (u v : node) : result Edge exn :=
  match Graph.adj G u v with
  | Error e => Error e
  | Ok es => py_min (λ e, length_key (e_data e)) es
  end.

(** One iteration of the loop: the accumulators are [(distance_m, time_hours)]. *)
Definition metrics_step (G : MultiDiGraph) (acc : Q * Q) (u v : node)
  : result (Q * Q) exn :=
  match select_edge G u v with
  | Error e => Error e
  | Ok ed =>
      let length := length_or_zero (e_data ed) in
      Ok ((acc.1 + length)%Q, (acc.2 + (length / 1000) / speed (e_data ed))%Q)
  end.

(** [for i in range(len(route) - 1)], on [route[i], route[i + 1]]. *)
Fixpoint metrics_loop (G : MultiDiGraph) (route : list node) (acc : Q * Q)
  : result (Q * Q) exn :=
  match route with
  | u :: ((v :: _) as tl) =>
      match metrics_step G acc u v with
      | Error e => Error e
      | Ok acc' => metrics_loop G tl acc'
      end
  | _ => Ok acc
  end.

Definition calculate_route_metrics (G : MultiDiGraph) (route : list node)
  : result (Q * Q) exn :=
  match metrics_loop G route (0%Q, 0%Q) with
  | Error e => Error e
  | Ok (distance_m, time_hours) => Ok ((distance_m / 1000)%Q, (time_hours * 60)%Q)
  end.

(** [a <= b] on selection keys, with [None] as positive infinity. *)
Definition key_le (a b : option Q) : Prop :=
  match a, b with
  | Some p, Some q => (p <= q)%Q
  | _, None => True
  | None, Some _ => False
  end.

(** [e] is an edge of [G] from [u] to [v] whose selection key is minimal among
    the parallel edges from [u] to [v]. *)
Definition min_length_edge (G : MultiDiGraph) (u v : node) (e : Edge) : Prop :=
  e ∈ edges G ∧ e_u e = u ∧ e_v e = v ∧
  ∀ e', e' ∈ edges G → e_u e' = u → e_v e' = v →
        key_le (length_key (e_data e)) (length_key (e_data e')).

(** The metres and the hours that an edge adds to the accumulators. *)
Definition edge_metres (e : Edge) : Q := length_or_zero (e_data e).

Definition edge_hours (e : Edge) : Q :=
  ((length_or_zero (e_data e) / 1000) / speed (e_data e))%Q.

Definition Qsum (l : list Q) : Q := foldr Qplus 0%Q l.

(** The road classes driven at 80 km/h. *)
Definition fast_class (d : EdgeData) : Prop :=
  attr_highway d = Some (HwStr "motorway") ∨
  attr_highway d = Some (HwStr "trunk") ∨
  attr_highway d = Some (HwStr "primary").

(** ** The object store *)

(** Graph objects live in a store and are named by references.  A computation
    takes the store, may update it, and returns a value or raises. *)
Abbreviation store := (list MultiDiGraph).
Abbreviation ref := nat.

Definition M (A : Type) : Type := store → store * result A exn.

Definition ret {A : Type} (a : A) : M A := λ h, (h, Ok a).

Definition raise {A : Type} (e : exn) : M A := λ h, (h, Error e).

Definition bind {A B : Type} (m : M A) (k : A → M B) : M B :=
  λ h, match m h with
       | (h', Ok a) => k a h'
       | (h', Error e) => (h', Error e)
       end.

Notation "'let*' x ':=' m 'in' k" := (bind m (λ x, k))
  (at level 10, x pattern, m at level 200, k at level 200,
   format "'[v' 'let*'  x  ':='  m  'in' '/' k ']'").

(** A pure computation that may raise. *)
Definition lift {A : Type} (r : result A exn) : M A := λ h, (h, r).

(** [try: m except handled: handler]; updates made by [m] before it raised
    are kept. *)
Definition try_except {A : Type} (m : M A) (handled : exn) (handler : M A) : M A :=
  λ h, match m h with
       | (h', Error e) => if decide (e = handled) then handler h' else (h', Error e)
       | r => r
       end.

(** [for a in l: body a] *)
Fixpoint for_each {A : Type} (l : list A) (body : A → M unit) : M unit :=
  match l with
  | [] => ret tt
  | a :: l' => let* _ := body a in for_each l' body
  end.

Definition deref (g : ref) : M MultiDiGraph :=
  λ h, match h !! g with
       | Some G => (h, Ok G)
       | None => (h, Error InvalidReference)
       end.

Definition assign (g : ref) (G : MultiDiGraph) : M unit :=
  λ h, (<[g := G]> h, Ok tt).

(** A new object, named by the next free reference. *)
Definition alloc (G : MultiDiGraph) : M ref :=
  λ h, (h ++ [G], Ok (length h)).

(** [g.copy()]: a new object with the same nodes and edges. *)
Definition copy (g : ref) : M ref :=
  let* G := deref g in alloc G.

Definition has_edge (g : ref) (u v : node) (key : edge_key) : M bool :=
  let* G := deref g in ret (Graph.has_edge G u v key).

Definition has_edge_uv (g : ref) (u v : node) : M bool :=
  let* G := deref g in ret (Graph.has_edge_uv G u v).

(** [g.remove_edge(u, v, key)]: updates the object [g] in place. *)
Definition remove_edge (g : ref) (u v : node) (key : edge_key) : M unit :=
  let* G := deref g in let* G' := lift (Graph.remove_edge G u v key) in assign g G'.

(** [list(g[u][v].keys())] *)
Definition adj_keys (g : ref) (u v : node) : M (list edge_key) :=
  let* G := deref g in let* es := lift (Graph.adj G u v) in ret (e_key <$> es).

(** [path[i]] *)
Definition index (path : list node) (i : nat) : M node :=
  match path !! i with
  | Some n => ret n
  | None => raise IndexError
  end.

(** ** Routes *)

Record Route : Type := mkRoute {
  route_name : string;
  route_path : list node;
  route_distance_km : Q;
  route_time_min : Q;
  route_color : string;
  route_type : string
}.

Definition fastest_route (path : list node) (distance time : Q) : Route :=
  {| route_name := "Fastest Route"; route_path := path;
     route_distance_km := distance; route_time_min := time;
     route_color := "#00c853"; route_type := "fastest" |}.

Definition alternative_route (path : list node) (distance time : Q) : Route :=
  {| route_name := "Alternative Route"; route_path := path;
     route_distance_km := distance; route_time_min := time;
     route_color := "#ffa726"; route_type := "alternative" |}.

(** ** [find_routes] *)

Section FindRoutes.

(** The two library searches the program calls.  They read the graph and do
    not update it.
    - [nearest_nodes G X Y] is [ox.distance.nearest_nodes(G, X, Y)].
    - [shortest_path G s t] is
      [nx.shortest_path(G, s, t, weight='length')], which raises
      [NetworkXNoPath] or [NodeNotFound]. *)
Variable nearest_nodes : MultiDiGraph → Q → Q → result node exn.
Variable shortest_path : MultiDiGraph → node → node → result (list node) exn.

Definition find_nearest_node (graph : ref) (lat lon : Q) : M node :=
  let* G := deref graph in lift (nearest_nodes G lon lat).

Definition shortest_path_in (graph : ref) (s t : node) : M (list node) :=
  let* G := deref graph in lift (shortest_path G s t).

Definition route_metrics (graph : ref) (route : list node) : M (Q * Q) :=
  let* G := deref graph in lift (calculate_route_metrics G route).

(** Lines 38-44: the removal of the blocked edges from [graph_clean], each in
    both directions.  The program also counts the removed directions, only
    to print the count; the count is left out. *)
Definition remove_blocked (graph_clean : ref) (blocked_edges : list edge_id)
  : M unit :=
  for_each blocked_edges (λ '(u, v, key),
    let* b := has_edge graph_clean u v key in
    let* _ := (if b then remove_edge graph_clean u v key else ret tt) in
    let* b' := has_edge graph_clean v u key in
    if b' then remove_edge graph_clean v u key else ret tt).

(** Lines 66-73: the copy of the working graph and the removal of every
    parallel edge along the middle of the fastest path. *)
Definition remove_middle (graph_alt : ref) (path : list node) : M unit :=
  let mid_start := (length path / 3)%nat in
  let mid_end := (2 * length path / 3)%nat in
  for_each (seq mid_start (Nat.min mid_end (length path - 1) - mid_start))
    (λ i,
      let* u := index path i in
      let* v := index path (i + 1) in
      let* b := has_edge_uv graph_alt u v in
      if b
      then let* keys := adj_keys graph_alt u v in
           for_each keys (λ key, remove_edge graph_alt u v key)
      else ret tt).

(** Lines 48-62: the fastest route, or [None] when the search raised
    [NetworkXNoPath] ([find_routes] then returns the empty list). *)
Definition fastest_phase (graph_clean : ref) (start_node end_node : node)
  : M (option (list node * list Route)) :=
  try_except
    (let* path := shortest_path_in graph_clean start_node end_node in
     let* (distance, time) := route_metrics graph_clean path in
     ret (Some (path, [fastest_route path distance time])))
    NetworkXNoPath
    (ret None).

(** Lines 64-90: the alternative route. *)
Definition alternative_phase (graph_clean : ref) (start_node end_node : node)
    (path : list node) (routes : list Route) : M (list Route) :=
  if bool_decide (10 < length path)%nat
  then
    let* graph_alt := copy graph_clean in
    let* _ := remove_middle graph_alt path in
    try_except
      (let* alt_path := shortest_path_in graph_alt start_node end_node in
       if bool_decide (alt_path ≠ path)
       then
         let* (distance, time) := route_metrics graph_clean alt_path in
         ret (routes ++ [alternative_route alt_path distance time])
       else ret routes)
      NetworkXNoPath
      (ret routes)
  else ret routes.

Definition find_routes (graph : ref) (start_lat start_lon end_lat end_lon : Q)
    (blocked_edges : list edge_id) : M (list Route) :=
  let* start_node := find_nearest_node graph start_lat start_lon in
  let* end_node := find_nearest_node graph end_lat end_lon in
  let* graph_clean := copy graph in
  let* _ := remove_blocked graph_clean blocked_edges in
  let* fastest := fastest_phase graph_clean start_node end_node in
  match fastest with
  | None => ret []
  | Some (path, routes) =>
      alternative_phase graph_clean start_node end_node path routes
  end.

End FindRoutes.

(** ** The working graph, as a graph value *)

(** What the loop of lines 38-44 leaves in [graph_clean]: the network without
    the edges whose identifier, or whose reverse identifier, is blocked. *)
Definition working_graph (G : MultiDiGraph) (blocked : list edge_id) : MultiDiGraph :=
  {| nodes := nodes G;
     edges := filter (λ e, (id_of e ∉ blocked) ∧ (reverse_id (id_of e) ∉ blocked))
                     (edges G) |}.

(** The network without exactly the edges whose identifier is blocked. *)
Definition minus_blocked (G : MultiDiGraph) (blocked : list edge_id) : MultiDiGraph :=
  {| nodes := nodes G;
     edges := filter (λ e, id_of e ∉ blocked) (edges G) |}.

(** The graph without the edge of identifier [i]. *)
Definition drop_id (G : MultiDiGraph) (i : edge_id) : MultiDiGraph :=
  {| nodes := nodes G; edges := filter (λ e, id_of e ≠ i) (edges G) |}.

(** [W'] has the nodes of [W] and some of its edges. *)
Definition subgraph (W' W : MultiDiGraph) : Prop :=
  nodes W' = nodes W ∧ edges W' ⊆ edges W.

(** A computation that leaves every object but [g] as it is, and replaces
    [g] by a subgraph of itself. *)
Definition edits {A : Type} (g : ref) (m : M A) : Prop :=
  ∀ (h : store) (W : MultiDiGraph), h !! g = Some W →
    ∃ W' r, m h = (<[g := W']> h, r) ∧ subgraph W' W.

(** [try: ... except NetworkXNoPath: fallback], on a result. *)
Definition on_no_path {A : Type} (r : result A exn) (fallback : A) : result A exn :=
  match r with
  | Error NetworkXNoPath => Ok fallback
  | _ => r
  end.

(** ** Walks *)

(** Every consecutive pair of [p] is joined by an edge of [G]. *)
Fixpoint linked (G : MultiDiGraph) (p : list node) : bool :=
  match p with
  | u :: ((v :: _) as tl) => Graph.has_edge_uv G u v && linked G tl
  | _ => true
  end.

(** [p] is a walk of [G] from [s] to [t]. *)
Definition is_walk (G : MultiDiGraph) (s t : node) (p : list node) : bool :=
  bool_decide (head p = Some s) && bool_decide (last p = Some t) && linked G p.

(** The consecutive pairs [(route[i], route[i + 1])] of a node sequence. *)
Fixpoint consecutive (p : list node) : list (node * node) :=
  match p with
  | u :: ((v :: _) as tl) => (u, v) :: consecutive tl
  | _ => []
  end.

(** The data model's invariant on lengths: every recorded length is [>= 0]. *)
Definition nonneg_lengths (G : MultiDiGraph) : Prop :=
  ∀ e l, e ∈ edges G → attr_length (e_data e) = Some l → (0 <= l)%Q.

(** ** The two phases of [find_routes], as results

    What the two [try] blocks of [find_routes] return, given the working graph
    [W] held by [graph_clean] and the graph [A] held by [graph_alt]. *)

Notation "'let?' x ':=' r 'in' k" :=
  (match r with Ok x => k | Error e => Error e end)
  (at level 10, x pattern, r at level 200, k at level 200,
   format "'[v' 'let?'  x  ':='  r  'in' '/' k ']'").

Section PhaseResults.

Variable shortest_path : MultiDiGraph → node → node → result (list node) exn.

Definition fastest_result (W : MultiDiGraph) (s t : node)
  : result (option (list node * list Route)) exn :=
  on_no_path
    (let? path := shortest_path W s t in
     let? (distance, time) := calculate_route_metrics W path in
     Ok (Some (path, [fastest_route path distance time])))
    None.

Definition alternative_result (W A : MultiDiGraph) (s t : node)
    (path : list node) (routes : list Route) : result (list Route) exn :=
  on_no_path
    (let? alt_path := shortest_path A s t in
     if bool_decide (alt_path ≠ path)
     then let? (distance, time) := calculate_route_metrics W alt_path in
          Ok (routes ++ [alternative_route alt_path distance time])
     else Ok routes)
    routes.

End PhaseResults.

(** A check of [nonneg_lengths] that computes. *)
Definition nonneg_lengths_b (G : MultiDiGraph) : bool :=
  forallb (λ e, match attr_length (e_data e) with
                | Some l => Qle_bool 0 l
                | None => true
                end) (edges G).

(** ** Damage simulation (the impact loop of [AmbulanceApp.block_roads]) *)

Record ImpactZone : Type := mkImpactZone {
  zone_lat : Q;
  zone_lon : Q;
  roads_damaged : nat
}.

(** The fields of the application that the damage loop updates. *)
Record DamageState : Type := mkDamageState {
  blocked_edges : list edge_id;
  blocked_edges_coords : list (list (Q * Q));
  impact_zones : list ImpactZone
}.

Definition no_damage : DamageState :=
  {| blocked_edges := []; blocked_edges_coords := []; impact_zones := [] |}.

(** [graph.edges[u, v, key]] *)
Definition edge_data (G : MultiDiGraph) (edge : edge_id) : result EdgeData exn :=
  match list_find (λ e, id_of e = edge) (edges G) with
  | Some (_, e) => Ok (e_data e)
  | None => Error KeyError
  end.

(** [get_edge_geometry] of [road_network.py]. *)
Definition get_edge_geometry (G : MultiDiGraph) (edge : edge_id)
  : result (list (Q * Q)) exn :=
  let '(u, v, key) := edge in
  let? d := edge_data G edge in
  match attr_geometry d with
  | Some coords => Ok ((λ p, (p.2, p.1)) <$> coords)
  | None =>
      let? nu := Graph.node_data G u in
      let? nv := Graph.node_data G v in
      Ok [(node_y nu, node_x nu); (node_y nv, node_x nv)]
  end.

(** [(mid_lat, mid_lon)] of an edge. *)
Definition midpoint (G : MultiDiGraph) (edge : edge_id) : result (Q * Q) exn :=
  let '(u, v, key) := edge in
  let? nu := Graph.node_data G u in
  let? nv := Graph.node_data G v in
  Ok (((node_y nu + node_y nv) / 2)%Q, ((node_x nu + node_x nv) / 2)%Q).

(** The program compares and sorts the Euclidean distance
    [((dy)**2 + (dx)**2)**0.5]; the embedding compares and sorts its square,
    which orders the candidates in the same way. *)
Definition dist_sq (p q : Q * Q) : Q :=
  ((p.1 - q.1) * (p.1 - q.1) + (p.2 - q.2) * (p.2 - q.2))%Q.

(** The damage radius [0.008], squared. *)
Definition damage_radius_sq : Q := ((8 # 1000) * (8 # 1000))%Q.

(** The candidates of one impact: the major edges not yet blocked whose
    midpoint lies within the damage radius, in the order of
    [major_road_edges]. *)
Fixpoint nearby_edges (G : MultiDiGraph) (major_road_edges blocked : list edge_id)
    (impact : Q * Q) : result (list (edge_id * Q)) exn :=
  match major_road_edges with
  | [] => Ok []
  | edge :: rest =>
      if bool_decide (edge ∈ blocked)
      then nearby_edges G rest blocked impact
      else
        let? mid := midpoint G edge in
        let dist := dist_sq mid impact in
        let? tl := nearby_edges G rest blocked impact in
        Ok (if Qle_bool dist damage_radius_sq then (edge, dist) :: tl else tl)
  end.

(** [nearby.sort(key=lambda x: x[1])]: a stable sort. *)
Fixpoint insert_by_dist (x : edge_id * Q) (l : list (edge_id * Q))
  : list (edge_id * Q) :=
  match l with
  | [] => [x]
  | y :: l' => if Qltb y.2 x.2 then y :: insert_by_dist x l' else x :: l
  end.

Definition sort_by_dist (l : list (edge_id * Q)) : list (edge_id * Q) :=
  foldr insert_by_dist [] l.

(** The body of the loop over the selected edges; the state is
    [(blocked_edges, blocked_edges_coords, blocked_count)]. *)
Definition block_edge (G : MultiDiGraph)
    (st : list edge_id * list (list (Q * Q)) * nat) (edge : edge_id)
  : result (list edge_id * list (list (Q * Q)) * nat) exn :=
  let '(blocked, coords, blocked_count) := st in
  let '(u, v, key) := edge in
  let? st1 :=
    if bool_decide (edge ∉ blocked)
    then let? geometry := get_edge_geometry G edge in
         Ok (blocked ++ [edge], coords ++ [geometry], S blocked_count)
    else Ok st in
  let '(blocked1, coords1, blocked_count1) := st1 in
  let reverse_edge := (v, u, key) in
  if Graph.has_edge G v u key && bool_decide (reverse_edge ∉ blocked1)
  then Ok (blocked1 ++ [reverse_edge], coords1, S blocked_count1)
  else Ok st1.

Fixpoint block_selected (G : MultiDiGraph) (selected : list edge_id)
    (st : list edge_id * list (list (Q * Q)) * nat)
  : result (list edge_id * list (list (Q * Q)) * nat) exn :=
  match selected with
  | [] => Ok st
  | edge :: rest => let? st' := block_edge G st edge in block_selected G rest st'
  end.

(** The edges selected by an impact: [nearby[:n]] after sorting. *)
Definition selected_edges (G : MultiDiGraph) (major_road_edges blocked : list edge_id)
    (impact : Q * Q) (n : nat) : result (list edge_id) exn :=
  let? nearby := nearby_edges G major_road_edges blocked impact in
  Ok ((take n (sort_by_dist nearby)).*1).

(** One impact.  [n] is the value of [random.randint(2, 4)] drawn for it. *)
Definition impact_step (G : MultiDiGraph) (major_road_edges : list edge_id)
    (st : DamageState) (impact : Q * Q * nat) : result DamageState exn :=
  let '(impact_lat, impact_lon, n) := impact in
  let? selected :=
    selected_edges G major_road_edges (blocked_edges st) (impact_lat, impact_lon) n in
  let? (blocked, coords, blocked_count) :=
    block_selected G selected (blocked_edges st, blocked_edges_coords st, 0%nat) in
  Ok {| blocked_edges := blocked;
        blocked_edges_coords := coords;
        impact_zones := impact_zones st ++
          [{| zone_lat := impact_lat; zone_lon := impact_lon;
              roads_damaged := blocked_count |}] |}.

Fixpoint impact_loop (G : MultiDiGraph) (major_road_edges : list edge_id)
    (impacts : list (Q * Q * nat)) (st : DamageState) : result DamageState exn :=
  match impacts with
  | [] => Ok st
  | impact :: rest =>
      let? st' := impact_step G major_road_edges st impact in
      impact_loop G major_road_edges rest st'
  end.

(** [block_roads], up to the end of the impact loop.  The impact points and
    the number drawn for each of them come from the random source and are
    given in [impacts].  With no major road the method returns at once and
    leaves the fields as they are. *)
Definition block_roads (G : MultiDiGraph) (major_road_edges : list edge_id)
    (impacts : list (Q * Q * nat)) (before : DamageState) : result DamageState exn :=
  match major_road_edges with
  | [] => Ok before
  | _ => impact_loop G major_road_edges impacts no_damage
  end.

(** ** The directions newly blocked by an impact *)

Definition has_edge_id (G : MultiDiGraph) (i : edge_id) : bool :=
  Graph.has_edge G i.1.1 i.1.2 i.2.

(** The directions that the loop body adds to the blocked list for one
    selected edge: the edge itself unless it is already blocked, then its
    reverse when the network has it and it is not blocked yet. *)
Definition newly_blocked (G : MultiDiGraph) (blocked : list edge_id)
    (edge : edge_id) : list edge_id :=
  let forward := if bool_decide (edge ∈ blocked) then [] else [edge] in
  forward ++
  (if has_edge_id G (reverse_id edge)
      && bool_decide (reverse_id edge ∉ blocked ++ forward)
   then [reverse_id edge] else []).

Fixpoint newly_blocked_all (G : MultiDiGraph) (blocked : list edge_id)
    (selected : list edge_id) : list edge_id :=
  match selected with
  | [] => []
  | edge :: rest =>
      let new := newly_blocked G blocked edge in
      new ++ newly_blocked_all G (blocked ++ new) rest
  end.

(** The precondition under which the damage loop raises nothing: every major
    road has its two end nodes and its attributes in the network. *)
Definition major_roads_known (G : MultiDiGraph) (major_road_edges : list edge_id)
  : Prop :=
  ∀ edge, edge ∈ major_road_edges →
    (∃ mid, midpoint G edge = Ok mid) ∧ (∃ geometry, get_edge_geometry G edge = Ok geometry).

(** The routes of a result; none when it is an exception. *)
Definition routes_of (r : store * result (list Route) exn) : list Route :=
  match r.2 with
  | Ok routes => routes
  | Error _ => []
  end.

(** ** Reference searches

    Two searches that meet what the proofs ask of the library calls: a
    nearest-node scan in the plane and a Bellman-Ford search by length that
    carries the path found so far. They serve to run [find_routes] on
    concrete networks. *)

Definition nearest_nodes_scan (G : MultiDiGraph) (X Y : Q) : result node exn :=
  let? best := py_min (λ p : node * NodeData,
                         Some (dist_sq (node_y p.2, node_x p.2) (Y, X))) (nodes G) in
  Ok best.1.

(** The weight networkx gives an edge for [weight='length']: the attribute,
    or 1 when it is absent. *)
Definition edge_weight (e : Edge) : Q := default 1%Q (attr_length (e_data e)).

Definition relax (tbl : gmap node (Q * list node)) (e : Edge)
  : gmap node (Q * list node) :=
  match tbl !! e_u e with
  | None => tbl
  | Some (du, pu) =>
      let c := Qred (du + edge_weight e) in
      match tbl !! e_v e with
      | Some (dv, _) =>
          if Qltb c dv then <[e_v e := (c, pu ++ [e_v e])]> tbl else tbl
      | None => <[e_v e := (c, pu ++ [e_v e])]> tbl
      end
  end.

Definition bf_round (G : MultiDiGraph) (tbl : gmap node (Q * list node))
  : gmap node (Q * list node) :=
  fold_left relax (edges G) tbl.

Definition bellman_ford (G : MultiDiGraph) (s : node) : gmap node (Q * list node) :=
  Nat.iter (length (nodes G)) (bf_round G) {[ s := (0%Q, [s]) ]}.

Definition shortest_path_bf (G : MultiDiGraph) (s t : node)
  : result (list node) exn :=
  if Graph.has_node G s && Graph.has_node G t
  then match bellman_ford G s !! t with
       | Some (_, p) => Ok p
       | None => Error NetworkXNoPath
       end
  else Error NodeNotFound.

(** Every entry of a Bellman-Ford table holds a walk from the source. *)
Definition table_sound (G : MultiDiGraph) (s : node)
    (tbl : gmap node (Q * list node)) : Prop :=
  ∀ n d p, tbl !! n = Some (d, p) → is_walk G s n p = true.

(** ** Example networks *)

Definition plain_edge (u v : node) (key : edge_key) (len : Q) (hw : string) : Edge :=
  {| e_u := u; e_v := v; e_key := key;
     e_data := {| attr_length := Some len; attr_highway := Some (HwStr hw);
                  attr_geometry := None |} |}.

Definition at_point (n : node) (lat lon : Q) : node * NodeData :=
  (n, {| node_y := lat; node_x := lon |}).

(** The square N1-N2-N3-N4-N1 of the specification: every side is a two-way
    street of 1000 m of class secondary. *)
Definition square : MultiDiGraph :=
  {| nodes := [at_point 1 0 0; at_point 2 0 1; at_point 3 1 1; at_point 4 1 0];
     edges := [plain_edge 1 2 0 1000 "secondary"; plain_edge 2 1 0 1000 "secondary";
               plain_edge 2 3 0 1000 "secondary"; plain_edge 3 2 0 1000 "secondary";
               plain_edge 3 4 0 1000 "secondary"; plain_edge 4 3 0 1000 "secondary";
               plain_edge 4 1 0 1000 "secondary"; plain_edge 1 4 0 1000 "secondary"] |}.

(** A network with edges that record no length: one from 1 to 2, and two
    parallel edges from 2 to 1 of which only the second is measured. *)
Definition unmeasured_edge : Edge :=
  {| e_u := 1; e_v := 2; e_key := 0;
     e_data := {| attr_length := None;
                  attr_highway := Some (HwStr "residential");
                  attr_geometry := None |} |}.

Definition unmeasured : MultiDiGraph :=
  {| nodes := [at_point 1 0 0; at_point 2 0 1];
     edges := [unmeasured_edge;
               {| e_u := 2; e_v := 1; e_key := 0;
                  e_data := {| attr_length := None;
                               attr_highway := Some (HwStr "residential");
                               attr_geometry := None |} |};
               plain_edge 2 1 1 30 "residential"] |}.

(** A one-way road of eleven nodes 1, ..., 11 with a detour around its middle:
    from node 4 through node 20 to node 8. *)
Definition long_road : MultiDiGraph :=
  {| nodes := ((λ i, at_point i 0 (inject_Z i)) <$> [1; 2; 3; 4; 5; 6; 7; 8; 9; 10; 11])
              ++ [at_point 20 1 6];
     edges := ((λ i, plain_edge i (i + 1) 0 100 "primary")
                 <$> [1; 2; 3; 4; 5; 6; 7; 8; 9; 10])
              ++ [plain_edge 4 20 0 300 "residential";
                  plain_edge 20 8 0 300 "residential"] |}.

(** A two-way street between two nodes. *)
Definition street : MultiDiGraph :=
  {| nodes := [at_point 1 0 0; at_point 2 0 1];
     edges := [plain_edge 1 2 0 500 "primary"; plain_edge 2 1 0 500 "primary"] |}.

(** [find_routes] along the long road, with nothing blocked, and the second
    route it returns. *)
Definition long_road_run : store * result (list Route) exn :=
  find_routes nearest_nodes_scan shortest_path_bf 0%nat 0 1 0 11 [] [long_road].

Definition long_road_alternative : Route :=
  default (alternative_route [] 0 0) (routes_of long_road_run !! 1%nat).

(** ** Major roads ([get_major_road_edges] of [road_network.py])

    The edge table of a graph lists the edges in the order in which
    [graph.edges(keys=True, data=True)] yields them. *)

Definition major_types : list string :=
  ["motorway"; "motorway_link"; "trunk"; "trunk_link";
   "primary"; "primary_link"; "secondary"; "secondary_link"]%string.

(** [highway = data.get('highway', '')] followed by
    [highway = highway[0] if isinstance(highway, list) else highway]. *)
Definition first_tag (d : EdgeData) : result string exn :=
  match attr_highway d with
  | None => Ok ""%string
  | Some (HwStr s) => Ok s
  | Some (HwList []) => Error IndexError
  | Some (HwList (s :: _)) => Ok s
  end.

(** [dist <= max_dist] for a distance given by its square.  A distance is
    not negative, so the test fails for a negative [max_dist]. *)
Definition within_dist (dist2 max_dist : Q) : bool :=
  Qle_bool 0 max_dist && Qle_bool dist2 (max_dist * max_dist).

(** The loop over the edges; [center] is [(center_lat, center_lon)]. *)
Fixpoint major_edges_loop (G : MultiDiGraph) (es : list Edge) (center : Q * Q)
    (max_dist : Q) : result (list edge_id) exn :=
  match es with
  | [] => Ok []
  | e :: rest =>
      let? highway := first_tag (e_data e) in
      let? near :=
        if bool_decide (highway ∈ major_types)
        then let? mid := midpoint G (id_of e) in
             Ok (within_dist (dist_sq mid center) max_dist)
        else Ok false in
      let? major_edges := major_edges_loop G rest center max_dist in
      Ok (if near then id_of e :: major_edges else major_edges)
  end.

Definition get_major_road_edges (G : MultiDiGraph) (center_lat center_lon max_dist : Q)
  : result (list edge_id) exn :=
  major_edges_loop G (edges G) (center_lat, center_lon) max_dist.

(** The default arguments: the centre of Kharkiv and [max_dist=0.015]. *)
Definition KHARKIV_CENTER : Q * Q := ((499808 # 10000)%Q, (362527 # 10000)%Q).
Definition default_max_dist : Q := (15 # 1000)%Q.

(** ** The polyline of a route ([add_route_to_map] of [map_generator.py])

    Lines 84-101: the coordinates collected along the path, and whether a
    line is drawn.  A point taken from an edge geometry is a Python tuple, a
    point taken from a node is a Python list; a tuple never equals a list. *)

Inductive point : Type :=
  | PTuple (y x : Q)
  | PList (y x : Q).

(** [not coords or coords[-1] != [y, x]] *)
Definition needs_point (coords : list point) (y x : Q) : bool :=
  match last coords with
  | None => true
  | Some (PTuple _ _) => true
  | Some (PList y' x') => negb (Qeq_bool y' y && Qeq_bool x' x)
  end.

(** The body of the loop, for [u, v = route_path[i], route_path[i + 1]]. *)
Definition route_coords_step (G : MultiDiGraph) (coords : list point) (u v : node)
  : result (list point) exn :=
  if Graph.has_edge_uv G u v
  then
    let? edge_data := Graph.adj G u v in
    match edge_data with
    | [] => Error IndexError
    | edge_info :: _ =>
        match attr_geometry (e_data edge_info) with
        | Some geometry => Ok (coords ++ ((λ p, PTuple p.2 p.1) <$> geometry))
        | None =>
            let? nu := Graph.node_data G u in
            let coords1 :=
              if needs_point coords (node_y nu) (node_x nu)
              then coords ++ [PList (node_y nu) (node_x nu)]
              else coords in
            let? nv := Graph.node_data G v in
            Ok (coords1 ++ [PList (node_y nv) (node_x nv)])
        end
    end
  else Ok coords.

Fixpoint route_coords_loop (G : MultiDiGraph) (route_path : list node)
    (coords : list point) : result (list point) exn :=
  match route_path with
  | u :: ((v :: _) as tl) =>
      let? coords' := route_coords_step G coords u v in
      route_coords_loop G tl coords'
  | _ => Ok coords
  end.

Definition route_coords (G : MultiDiGraph) (route_path : list node)
  : result (list point) exn :=
  route_coords_loop G route_path [].

(** The line that [add_route_to_map] adds to the map: none when [coords] is
    empty.  Its tooltip and popup texts are left out. *)
Definition route_polyline (G : MultiDiGraph) (route_path : list node)
  : result (option (list point)) exn :=
  let? coords := route_coords G route_path in
  Ok (match coords with [] => None | _ => Some coords end).

(** The position of a node, as the point that the loop appends for it. *)
Definition node_point (G : MultiDiGraph) (n : node) : option point :=
  match Graph.node_data G n with
  | Ok d => Some (PList (node_y d) (node_x d))
  | Error _ => None
  end.

(** ** The middle of the fastest path *)

(** [(path[i], path[i + 1])] *)
Definition pair_at (path : list node) (i : nat) : option (node * node) :=
  match path !! i, path !! (i + 1)%nat with
  | Some u, Some v => Some (u, v)
  | _, _ => None
  end.

(** The pairs visited by the loop of lines 69-73. *)
Definition middle_pairs (path : list node) : list (node * node) :=
  omap (pair_at path)
       (seq (length path / 3)
            (Nat.min (2 * length path / 3) (length path - 1) - length path / 3)).

(** The graph without any edge from [uv.1] to [uv.2]. *)
Definition drop_pair (G : MultiDiGraph) (uv : node * node) : MultiDiGraph :=
  {| nodes := nodes G;
     edges := filter (λ e, (e_u e, e_v e) ≠ uv) (edges G) |}.

(** The graph without any edge along the middle of [path]. *)
Definition cut_middle (W : MultiDiGraph) (path : list node) : MultiDiGraph :=
  {| nodes := nodes W;
     edges := filter (λ e, (e_u e, e_v e) ∉ middle_pairs path) (edges W) |}.

(** ** Blocked lists of the damage loop *)

(** With a blocked direction, its reverse is blocked too whenever the network
    has it. *)
Definition closed_under_reverse (G : MultiDiGraph) (blocked : list edge_id) : Prop :=
  ∀ e, e ∈ blocked → has_edge_id G (reverse_id e) = true → reverse_id e ∈ blocked.


(** Three parallel roads from node 1 to node 2: one of 500 m, then two of
    400 m of which the first is a primary road and the second is not. *)
Definition parallel_roads : MultiDiGraph :=
  {| nodes := [at_point 1 0 0; at_point 2 0 1];
     edges := [plain_edge 1 2 0 500 "residential"; plain_edge 1 2 1 400 "primary";
               plain_edge 1 2 2 400 "residential"] |}.

(** The first route of the run along the long road, and the run with the
    detour blocked. *)
Definition long_road_fastest : Route :=
  default (fastest_route [] 0 0) (routes_of long_road_run !! 0%nat).

Definition blocked_detour_run : store * result (list Route) exn :=
  find_routes nearest_nodes_scan shortest_path_bf 0%nat 0 1 0 11 [(4, 20, 0)]
              [long_road].

Definition blocked_detour_fastest : Route :=
  default (fastest_route [] 0 0) (routes_of blocked_detour_run !! 0%nat).



(** The blocked roads that the map shows.  [drawn] lists the edges whose
    geometry the damage loop has stored in [blocked_edges_coords], in order:
    they are blocked major roads, and every blocked direction is drawn itself
    or through its reverse. *)
Definition drawn_as (G : MultiDiGraph) (major blocked : list edge_id)
    (coords : list (list (Q * Q))) (drawn : list edge_id) : Prop :=
  Forall2 (λ e c, get_edge_geometry G e = Ok c) drawn coords ∧
  drawn `sublist_of` blocked ∧
  (∀ e, e ∈ drawn → e ∈ major) ∧
  (∀ e, e ∈ blocked → e ∈ drawn ∨ reverse_id e ∈ drawn).

(** * Properties *)

(** ** The graph interface *)

Lemma graph_eq (G G' : MultiDiGraph) :
  nodes G = nodes G' → edges G = edges G' → G = G'.
Proof. destruct G, G'; simpl; congruence. Qed.

Lemma filter_all {A : Type} (P : A → Prop) `{∀ x, Decision (P x)} (l : list A) :
  (∀ x, x ∈ l → P x) → filter P l = l.
Proof.
  induction l as [|a l IH]; intros Hall; [done|].
  rewrite filter_cons_True by (apply Hall; left).
  f_equal. apply IH. intros x Hx. apply Hall. by right.
Qed.

Lemma has_edge_spec (G : MultiDiGraph) (u v : node) (key : edge_key) :
  Graph.has_edge G u v key = true ↔ ∃ e, e ∈ edges G ∧ id_of e = (u, v, key).
Proof.
  unfold Graph.has_edge. rewrite bool_decide_eq_true, list_elem_of_fmap.
  split; intros (e & ? & ?); exists e; done.
Qed.

Lemma has_edge_false (G : MultiDiGraph) (u v : node) (key : edge_key) :
  Graph.has_edge G u v key = false ↔ ∀ e, e ∈ edges G → id_of e ≠ (u, v, key).
Proof.
  rewrite <- not_true_iff_false, has_edge_spec. split.
  - intros Hno e He Hid. apply Hno. by exists e.
  - intros Hall (e & He & Hid). by apply (Hall e).
Qed.

Lemma has_edge_uv_spec (G : MultiDiGraph) (u v : node) :
  Graph.has_edge_uv G u v = true ↔ ∃ e, e ∈ edges G ∧ e_u e = u ∧ e_v e = v.
Proof.
  unfold Graph.has_edge_uv, Graph.between. rewrite bool_decide_eq_true. split.
  - intros Hne. destruct (filter _ (edges G)) as [|e l] eqn:E; [done|].
    assert (Hin : e ∈ filter (λ e, e_u e = u ∧ e_v e = v) (edges G))
      by (rewrite E; left).
    apply list_elem_of_filter in Hin as [? ?]. by exists e.
  - intros (e & He & Hu & Hv) E.
    assert (Hin : e ∈ filter (λ e, e_u e = u ∧ e_v e = v) (edges G))
      by (apply list_elem_of_filter; done).
    rewrite E in Hin. by apply not_elem_of_nil in Hin.
Qed.

(** A guarded removal always yields the graph without that identifier. *)
Lemma remove_edge_guarded (G : MultiDiGraph) (u v : node) (key : edge_key) :
  (if Graph.has_edge G u v key then Graph.remove_edge G u v key else Ok G)
  = Ok (drop_id G (u, v, key)).
Proof.
  unfold Graph.remove_edge.
  destruct (Graph.has_edge G u v key) eqn:E; [done|].
  f_equal. apply graph_eq; [done|]. simpl. symmetry. apply filter_all.
  by apply has_edge_false.
Qed.

Lemma remove_edge_present (G : MultiDiGraph) (u v : node) (key : edge_key) :
  Graph.has_edge G u v key = true →
  Graph.remove_edge G u v key = Ok (drop_id G (u, v, key)).
Proof. intros E. unfold Graph.remove_edge. by rewrite E. Qed.

Lemma subgraph_refl (G : MultiDiGraph) : subgraph G G.
Proof. by split. Qed.

Lemma subgraph_trans (A B C : MultiDiGraph) :
  subgraph A B → subgraph B C → subgraph A C.
Proof. intros [? ?] [? ?]. split; [congruence | set_solver]. Qed.

Lemma subgraph_drop_id (G : MultiDiGraph) (i : edge_id) : subgraph (drop_id G i) G.
Proof.
  split; [done|]. simpl. intros e He.
  by apply (list_elem_of_filter (λ e, id_of e ≠ i)) in He as [_ ?].
Qed.

Lemma subgraph_has_edge_uv (W' W : MultiDiGraph) (u v : node) :
  subgraph W' W → Graph.has_edge_uv W' u v = true → Graph.has_edge_uv W u v = true.
Proof.
  intros [_ Hsub]. rewrite !has_edge_uv_spec. intros (e & He & ?). eauto.
Qed.

Lemma subgraph_linked (W' W : MultiDiGraph) (p : list node) :
  subgraph W' W → linked W' p = true → linked W p = true.
Proof.
  intros Hsub. induction p as [|u [|v tl] IH]; simpl; try done.
  rewrite !andb_true_iff. intros [Huv Htl]. split.
  - by apply (subgraph_has_edge_uv W' W).
  - by apply IH.
Qed.

Lemma subgraph_is_walk (W' W : MultiDiGraph) (s t : node) (p : list node) :
  subgraph W' W → is_walk W' s t p = true → is_walk W s t p = true.
Proof.
  intros Hsub. unfold is_walk. rewrite !andb_true_iff.
  intros [[? ?] ?]. repeat split; try done. by apply (subgraph_linked W' W).
Qed.

(** The working graph is the network after dropping, for each blocked
    identifier in turn, that identifier and its reverse. *)
Lemma working_graph_nil (G : MultiDiGraph) : working_graph G [] = G.
Proof.
  apply graph_eq; [done|]. simpl. apply filter_all.
  intros e _. split; apply not_elem_of_nil.
Qed.

Lemma working_graph_cons (G : MultiDiGraph) (i : edge_id) (blocked : list edge_id) :
  working_graph (drop_id (drop_id G i) (reverse_id i)) blocked
  = working_graph G (i :: blocked).
Proof.
  apply graph_eq; [done|]. simpl. rewrite !list_filter_filter.
  apply list_filter_iff. intros e. rewrite !not_elem_of_cons.
  destruct i as [[u v] k]. destruct e as [a b c d].
  unfold id_of, reverse_id. simpl.
  split.
  - intros (((? & ?) & ?) & ?). repeat split; try done. congruence.
  - intros ((? & ?) & ? & ?). repeat split; try done. congruence.
Qed.

Lemma working_graph_subgraph (G : MultiDiGraph) (blocked : list edge_id) :
  subgraph (working_graph G blocked) G.
Proof.
  split; [done|]. simpl. intros e He.
  by apply (list_elem_of_filter
              (λ e, (id_of e ∉ blocked) ∧ (reverse_id (id_of e) ∉ blocked))) in He
    as [_ ?].
Qed.

(** The working graph lies within the network without the blocked edges. *)
Lemma working_graph_in_minus_blocked (G : MultiDiGraph) (blocked : list edge_id) :
  subgraph (working_graph G blocked) (minus_blocked G blocked).
Proof.
  split; [done|]. simpl. intros e He.
  apply (list_elem_of_filter
           (λ e, (id_of e ∉ blocked) ∧ (reverse_id (id_of e) ∉ blocked))) in He
    as [[? _] ?].
  by apply (list_elem_of_filter (λ e, id_of e ∉ blocked)).
Qed.

Lemma working_graph_edge (G : MultiDiGraph) (blocked : list edge_id) (e : Edge) :
  e ∈ edges (working_graph G blocked) ↔
  e ∈ edges G ∧ (id_of e ∉ blocked) ∧ (reverse_id (id_of e) ∉ blocked).
Proof.
  simpl.
  rewrite (list_elem_of_filter
             (λ e, (id_of e ∉ blocked) ∧ (reverse_id (id_of e) ∉ blocked))).
  tauto.
Qed.

(** ** Running store computations *)

Lemma run_deref (h : store) (g : ref) (W : MultiDiGraph) {A : Type}
    (k : MultiDiGraph → M A) :
  h !! g = Some W → (let* G := deref g in k G) h = k W h.
Proof. intros Hg. unfold bind, deref. by rewrite Hg. Qed.

Lemma run_has_edge (h : store) (g : ref) (W : MultiDiGraph)
    (u v : node) (key : edge_key) :
  h !! g = Some W → has_edge g u v key h = (h, Ok (Graph.has_edge W u v key)).
Proof. intros Hg. unfold has_edge. by rewrite (run_deref h g W). Qed.

Lemma run_remove_edge (h : store) (g : ref) (W : MultiDiGraph)
    (u v : node) (key : edge_key) :
  h !! g = Some W → Graph.has_edge W u v key = true →
  remove_edge g u v key h = (<[g := drop_id W (u, v, key)]> h, Ok tt).
Proof.
  intros Hg E. unfold remove_edge. rewrite (run_deref h g W) by done.
  unfold bind, lift, assign. by rewrite remove_edge_present.
Qed.

(** A guarded [remove_edge] on the object [g] replaces it by the graph without
    that identifier, whether the edge was there or not. *)
Lemma run_guarded_remove_last (h : store) (g : ref) (W : MultiDiGraph)
    (u v : node) (key : edge_key) :
  h !! g = Some W →
  (let* b := has_edge g u v key in
   if b then remove_edge g u v key else ret tt) h
  = (<[g := drop_id W (u, v, key)]> h, Ok tt).
Proof.
  intros Hg. unfold bind. rewrite (run_has_edge h g W) by done.
  destruct (Graph.has_edge W u v key) eqn:E.
  - by apply run_remove_edge.
  - pose proof (remove_edge_guarded W u v key) as Hrm. rewrite E in Hrm.
    injection Hrm as <-. unfold ret. by rewrite list_insert_id.
Qed.

Lemma run_guarded_remove (h : store) (g : ref) (W : MultiDiGraph)
    (u v : node) (key : edge_key) {A : Type} (k : M A) :
  h !! g = Some W →
  (let* b := has_edge g u v key in
   let* _ := (if b then remove_edge g u v key else ret tt) in k) h
  = k (<[g := drop_id W (u, v, key)]> h).
Proof.
  intros Hg.
  pose proof (run_guarded_remove_last h g W u v key Hg) as Hrun.
  unfold bind in *. rewrite (run_has_edge h g W) in * by done.
  by rewrite Hrun.
Qed.

(** The loop of lines 38-44 never raises and leaves the working graph in
    [graph_clean]. *)
Lemma remove_blocked_run (blocked : list edge_id) (h : store) (g : ref)
    (W : MultiDiGraph) :
  h !! g = Some W →
  remove_blocked g blocked h = (<[g := working_graph W blocked]> h, Ok tt).
Proof.
  revert h W. induction blocked as [|[[u v] key] blocked IH]; intros h W Hg.
  - simpl. unfold ret. by rewrite working_graph_nil, list_insert_id.
  - unfold remove_blocked. simpl. fold (remove_blocked g blocked).
    unfold bind at 1.
    rewrite (run_guarded_remove h g W u v key) by done.
    assert (Hlt : (g < length h)%nat) by (by eapply lookup_lt_Some).
    rewrite (run_guarded_remove_last _ g (drop_id W (u, v, key)) v u key)
      by (by apply list_lookup_insert_eq).
    rewrite list_insert_insert_eq.
    rewrite (IH _ (drop_id (drop_id W (u, v, key)) (v, u, key)))
      by (by apply list_lookup_insert_eq).
    rewrite list_insert_insert_eq.
    by rewrite <- (working_graph_cons W (u, v, key)).
Qed.

(** ** Computations that edit one object *)

Create HintDb edits discriminated.

Lemma edits_ret {A : Type} (g : ref) (a : A) : edits g (ret a).
Proof.
  intros h W Hg. exists W, (Ok a). split; [|apply subgraph_refl].
  unfold ret. by rewrite list_insert_id.
Qed.

Lemma edits_raise {A : Type} (g : ref) (e : exn) : edits g (raise (A := A) e).
Proof.
  intros h W Hg. exists W, (Error e). split; [|apply subgraph_refl].
  unfold raise. by rewrite list_insert_id.
Qed.

Lemma edits_lift {A : Type} (g : ref) (r : result A exn) : edits g (lift r).
Proof.
  intros h W Hg. exists W, r. split; [|apply subgraph_refl].
  unfold lift. by rewrite list_insert_id.
Qed.

Lemma edits_deref (g g' : ref) : edits g (deref g').
Proof.
  intros h W Hg. unfold deref.
  destruct (h !! g') as [G|]; eexists W, _;
    (split; [by rewrite list_insert_id | apply subgraph_refl]).
Qed.

Lemma edits_bind {A B : Type} (g : ref) (m : M A) (k : A → M B) :
  edits g m → (∀ a, edits g (k a)) → edits g (let* a := m in k a).
Proof.
  intros Hm Hk h W Hg. destruct (Hm h W Hg) as (W1 & r & Hrun & Hsub).
  assert (Hlt : (g < length h)%nat) by (by eapply lookup_lt_Some).
  unfold bind. rewrite Hrun. destruct r as [a|e].
  - destruct (Hk a (<[g := W1]> h) W1) as (W2 & r2 & Hrun2 & Hsub2).
    { by apply list_lookup_insert_eq. }
    exists W2, r2. rewrite Hrun2, list_insert_insert_eq.
    split; [done|]. by apply (subgraph_trans _ W1).
  - by exists W1, (Error e).
Qed.

Lemma edits_if {A : Type} (g : ref) (b : bool) (m1 m2 : M A) :
  edits g m1 → edits g m2 → edits g (if b then m1 else m2).
Proof. by destruct b. Qed.

Lemma edits_for_each {A : Type} (g : ref) (l : list A) (body : A → M unit) :
  (∀ a, edits g (body a)) → edits g (for_each l body).
Proof.
  intros Hbody. induction l as [|a l IH]; simpl.
  - apply edits_ret.
  - apply edits_bind; [apply Hbody | intros _; apply IH].
Qed.

Lemma edits_remove_edge (g : ref) (u v : node) (key : edge_key) :
  edits g (remove_edge g u v key).
Proof.
  intros h W Hg. unfold remove_edge. rewrite (run_deref h g W) by done.
  unfold bind, lift, assign, Graph.remove_edge.
  destruct (Graph.has_edge W u v key).
  - eexists _, _. split; [done|]. apply (subgraph_drop_id W (u, v, key)).
  - exists W, (Error NetworkXError). split; [|apply subgraph_refl].
    by rewrite list_insert_id.
Qed.

Lemma edits_has_edge_uv (g g' : ref) (u v : node) : edits g (has_edge_uv g' u v).
Proof.
  unfold has_edge_uv. apply edits_bind; [apply edits_deref|].
  intros G. apply edits_ret.
Qed.

Lemma edits_adj_keys (g g' : ref) (u v : node) : edits g (adj_keys g' u v).
Proof.
  unfold adj_keys. apply edits_bind; [apply edits_deref|]. intros G.
  apply edits_bind; [apply edits_lift|]. intros es. apply edits_ret.
Qed.

Lemma edits_index (g : ref) (path : list node) (i : nat) : edits g (index path i).
Proof.
  unfold index. destruct (path !! i); [apply edits_ret | apply edits_raise].
Qed.

#[global] Hint Resolve edits_ret edits_raise edits_lift edits_deref edits_if
  edits_for_each edits_remove_edge edits_has_edge_uv edits_adj_keys
  edits_index : edits.

(** The loop of lines 69-73 touches no object but [graph_alt], which it
    replaces by a subgraph of itself. *)
Lemma edits_remove_middle (g : ref) (path : list node) :
  edits g (remove_middle g path).
Proof.
  unfold remove_middle. apply edits_for_each. intros i.
  repeat (apply edits_bind; [auto with edits|]; intros ?).
  apply edits_if; [|auto with edits].
  apply edits_bind; [auto with edits|]. intros keys.
  apply edits_for_each. auto with edits.
Qed.

(** ** Running [find_routes] *)

Lemma run_bind {A B : Type} (m : M A) (k : A → M B) (h h' : store) (a : A) :
  m h = (h', Ok a) → (let* x := m in k x) h = k a h'.
Proof. intros Hm. unfold bind. by rewrite Hm. Qed.

Lemma run_bind_error {A B : Type} (m : M A) (k : A → M B) (h h' : store) (e : exn) :
  m h = (h', Error e) → (let* x := m in k x) h = (h', Error e).
Proof. intros Hm. unfold bind. by rewrite Hm. Qed.

Lemma run_try_except {A : Type} (m : M A) (h h' : store) (r : result A exn) (d : A) :
  m h = (h', r) → try_except m NetworkXNoPath (ret d) h = (h', on_no_path r d).
Proof.
  intros Hm. unfold try_except. rewrite Hm.
  destruct r as [a|e]; [done|]. by destruct e.
Qed.

Lemma run_copy (h : store) (g : ref) (W : MultiDiGraph) :
  h !! g = Some W → copy g h = (h ++ [W], Ok (length h)).
Proof. intros Hg. unfold copy. by rewrite (run_deref h g W). Qed.

Lemma run_route_metrics (h : store) (g : ref) (W : MultiDiGraph) (route : list node) :
  h !! g = Some W → route_metrics g route h = (h, calculate_route_metrics W route).
Proof. intros Hg. unfold route_metrics. by rewrite (run_deref h g W). Qed.

Section FindRoutesRun.

Variable nearest_nodes : MultiDiGraph → Q → Q → result node exn.
Variable shortest_path : MultiDiGraph → node → node → result (list node) exn.

Lemma run_find_nearest_node (h : store) (g : ref) (G : MultiDiGraph) (lat lon : Q) :
  h !! g = Some G →
  find_nearest_node nearest_nodes g lat lon h = (h, nearest_nodes G lon lat).
Proof. intros Hg. unfold find_nearest_node. by rewrite (run_deref h g G). Qed.

Lemma run_shortest_path_in (h : store) (g : ref) (W : MultiDiGraph) (s t : node) :
  h !! g = Some W →
  shortest_path_in shortest_path g s t h = (h, shortest_path W s t).
Proof. intros Hg. unfold shortest_path_in. by rewrite (run_deref h g W). Qed.

(** The first [try] block reads [graph_clean] and updates nothing. *)
Lemma fastest_phase_run (h : store) (g : ref) (W : MultiDiGraph) (s t : node) :
  h !! g = Some W →
  fastest_phase shortest_path g s t h = (h, fastest_result shortest_path W s t).
Proof.
  intros Hg. unfold fastest_phase, fastest_result.
  apply run_try_except. unfold bind.
  rewrite (run_shortest_path_in h g W) by done.
  destruct (shortest_path W s t) as [path|e]; [|done].
  rewrite (run_route_metrics h g W) by done.
  by destruct (calculate_route_metrics W path) as [[d tm]|e].
Qed.

Lemma alternative_phase_short (h : store) (g : ref) (s t : node)
    (path : list node) (routes : list Route) :
  (length path ≤ 10)%nat →
  alternative_phase shortest_path g s t path routes h = (h, Ok routes).
Proof.
  intros Hlen. unfold alternative_phase.
  rewrite bool_decide_eq_false_2 by lia. done.
Qed.

(** With a path of more than ten nodes, one object is allocated: the copy
    of the working graph, which the loop turns into a subgraph [A] of it.
    The working graph itself is left as it is, and the metrics of the
    alternative are read from it. *)
Lemma alternative_phase_long (h : store) (g : ref) (W : MultiDiGraph) (s t : node)
    (path : list node) (routes : list Route) :
  h !! g = Some W → (10 < length path)%nat →
  ∃ (A : MultiDiGraph) (rm : result unit exn), subgraph A W ∧
    alternative_phase shortest_path g s t path routes h
    = (h ++ [A],
       let? _ := rm in alternative_result shortest_path W A s t path routes).
Proof.
  intros Hg Hlen. unfold alternative_phase.
  rewrite bool_decide_eq_true_2 by lia.
  rewrite (run_bind _ _ h (h ++ [W]) (length h)) by (by apply run_copy).
  destruct (edits_remove_middle (length h) path (h ++ [W]) W)
    as (A & rm & Hrun & Hsub).
  { by rewrite lookup_app_r, Nat.sub_diag. }
  assert (Hins : <[length h := A]> (h ++ [W]) = h ++ [A]).
  { rewrite insert_app_r_alt, Nat.sub_diag by lia. done. }
  rewrite Hins in Hrun. exists A, rm. split; [done|].
  destruct rm as [[]|e].
  - rewrite (run_bind _ _ _ _ _ Hrun). unfold alternative_result.
    apply run_try_except. unfold bind.
    rewrite (run_shortest_path_in _ (length h) A)
      by (by rewrite lookup_app_r, Nat.sub_diag).
    destruct (shortest_path A s t) as [alt_path|e]; [|done].
    destruct (bool_decide (alt_path ≠ path)); [|done].
    rewrite (run_route_metrics _ g W) by (by apply lookup_app_l_Some).
    by destruct (calculate_route_metrics W alt_path) as [[d tm]|e].
  - by rewrite (run_bind_error _ _ _ _ _ Hrun).
Qed.

(** [find_routes] once both endpoints are resolved: the working graph is
    allocated after the objects of the store, then the two phases run. *)
Lemma find_routes_run (h : store) (g : ref) (G : MultiDiGraph)
    (start_lat start_lon end_lat end_lon : Q) (blocked : list edge_id) (s t : node) :
  h !! g = Some G →
  nearest_nodes G start_lon start_lat = Ok s →
  nearest_nodes G end_lon end_lat = Ok t →
  find_routes nearest_nodes shortest_path g start_lat start_lon end_lat end_lon
              blocked h
  = let W := working_graph G blocked in
    match fastest_result shortest_path W s t with
    | Error e => (h ++ [W], Error e)
    | Ok None => (h ++ [W], Ok [])
    | Ok (Some (path, routes)) =>
        alternative_phase shortest_path (length h) s t path routes (h ++ [W])
    end.
Proof.
  intros Hg Hs Ht. unfold find_routes.
  rewrite (run_bind _ _ h h s) by (by rewrite (run_find_nearest_node h g G), Hs).
  rewrite (run_bind _ _ h h t) by (by rewrite (run_find_nearest_node h g G), Ht).
  rewrite (run_bind _ _ h (h ++ [G]) (length h)) by (by apply run_copy).
  assert (Hlast : ∀ X : MultiDiGraph, (h ++ [X]) !! length h = Some X).
  { intros X. by rewrite lookup_app_r, Nat.sub_diag. }
  assert (Hins : <[length h := working_graph G blocked]> (h ++ [G])
                 = h ++ [working_graph G blocked]).
  { rewrite insert_app_r_alt, Nat.sub_diag by lia. done. }
  rewrite (run_bind _ _ _ (h ++ [working_graph G blocked]) tt)
    by (by rewrite (remove_blocked_run blocked _ _ G), Hins).
  simpl. unfold bind.
  rewrite (fastest_phase_run _ _ (working_graph G blocked)) by done.
  destruct (fastest_result shortest_path (working_graph G blocked) s t)
    as [[[path routes]|]|e]; done.
Qed.

(** When an endpoint cannot be resolved the exception propagates and no
    object is allocated. *)
Lemma find_routes_unresolved_start (h : store) (g : ref) (G : MultiDiGraph)
    (start_lat start_lon end_lat end_lon : Q) (blocked : list edge_id) (e : exn) :
  h !! g = Some G →
  nearest_nodes G start_lon start_lat = Error e →
  find_routes nearest_nodes shortest_path g start_lat start_lon end_lat end_lon
              blocked h = (h, Error e).
Proof.
  intros Hg Hs. unfold find_routes.
  apply run_bind_error. by rewrite (run_find_nearest_node h g G), Hs.
Qed.

Lemma find_routes_unresolved_end (h : store) (g : ref) (G : MultiDiGraph)
    (start_lat start_lon end_lat end_lon : Q) (blocked : list edge_id)
    (s : node) (e : exn) :
  h !! g = Some G →
  nearest_nodes G start_lon start_lat = Ok s →
  nearest_nodes G end_lon end_lat = Error e →
  find_routes nearest_nodes shortest_path g start_lat start_lon end_lat end_lon
              blocked h = (h, Error e).
Proof.
  intros Hg Hs Ht. unfold find_routes.
  rewrite (run_bind _ _ h h s) by (by rewrite (run_find_nearest_node h g G), Hs).
  apply run_bind_error. by rewrite (run_find_nearest_node h g G), Ht.
Qed.

Lemma find_routes_dangling (h : store) (g : ref)
    (start_lat start_lon end_lat end_lon : Q) (blocked : list edge_id) :
  h !! g = None →
  find_routes nearest_nodes shortest_path g start_lat start_lon end_lat end_lon
              blocked h = (h, Error InvalidReference).
Proof.
  intros Hg. unfold find_routes. apply run_bind_error.
  unfold find_nearest_node, bind, deref. by rewrite Hg.
Qed.

(** The objects [find_routes] allocates: the working graph, and after it the
    graph of the alternative search when there is one. *)
Lemma find_routes_store (h : store) (g : ref) (G : MultiDiGraph)
    (start_lat start_lon end_lat end_lon : Q) (blocked : list edge_id) (s t : node) :
  h !! g = Some G →
  nearest_nodes G start_lon start_lat = Ok s →
  nearest_nodes G end_lon end_lat = Ok t →
  let after := (find_routes nearest_nodes shortest_path g start_lat start_lon
                            end_lat end_lon blocked h).1 in
  after = h ++ [working_graph G blocked] ∨
  ∃ A, subgraph A (working_graph G blocked) ∧
       after = h ++ [working_graph G blocked; A].
Proof.
  intros Hg Hs Ht. simpl.
  rewrite (find_routes_run h g G _ _ _ _ blocked s t Hg Hs Ht). simpl.
  destruct (fastest_result _ _ s t) as [[[path routes]|]|e]; [|by left..].
  destruct (decide (10 < length path)%nat) as [Hlen|Hlen].
  - destruct (alternative_phase_long (h ++ [working_graph G blocked]) (length h)
                (working_graph G blocked) s t path routes)
      as (A & rm & Hsub & Hrun); [|done|].
    { by rewrite lookup_app_r, Nat.sub_diag. }
    right. exists A. split; [done|]. rewrite Hrun. simpl. by rewrite <- app_assoc.
  - left. rewrite alternative_phase_short by lia. done.
Qed.

End FindRoutesRun.

(** ** Walks and the reference searches *)

Lemma py_min_elem {A : Type} (f : A → option Q) (xs : list A) (x : A) :
  py_min f xs = Ok x → x ∈ xs.
Proof.
  destruct xs as [|x0 rest]; simpl; [done|]. intros [= <-].
  assert (Hgen : ∀ l b, fold_left (λ best c, if key_lt (f c) (f best) then c else best)
                                  l b ∈ b :: l).
  { induction l as [|c l IH]; intros b; simpl; [left|].
    destruct (key_lt (f c) (f b)).
    - right. apply IH.
    - pose proof (IH b) as Hin. apply elem_of_cons in Hin as [->|Hin]; [left|].
      right. by right. }
  apply Hgen.
Qed.

Lemma nearest_nodes_scan_member (G : MultiDiGraph) (X Y : Q) (n : node) :
  nearest_nodes_scan G X Y = Ok n → Graph.has_node G n = true.
Proof.
  unfold nearest_nodes_scan, Graph.has_node.
  destruct (py_min _ (nodes G)) as [best|e] eqn:E; [|done].
  intros [= <-]. apply bool_decide_eq_true.
  apply list_elem_of_fmap. exists best. split; [done|]. by apply py_min_elem in E.
Qed.

Lemma linked_snoc (G : MultiDiGraph) (p : list node) (u v : node) :
  linked G p = true → last p = Some u → Graph.has_edge_uv G u v = true →
  linked G (p ++ [v]) = true.
Proof.
  intros Hp Hlast Huv. induction p as [|a [|b tl] IH]; [done| |].
  - simpl in *. injection Hlast as ->. by rewrite Huv.
  - simpl in Hp. apply andb_true_iff in Hp as [Hab Htl].
    change (linked G (a :: (b :: tl) ++ [v]) = true).
    simpl. rewrite Hab. simpl. apply IH; [done|]. by rewrite last_cons_cons in Hlast.
Qed.

Lemma is_walk_snoc (G : MultiDiGraph) (s u v : node) (p : list node) :
  is_walk G s u p = true → Graph.has_edge_uv G u v = true →
  is_walk G s v (p ++ [v]) = true.
Proof.
  unfold is_walk. rewrite !andb_true_iff, !bool_decide_eq_true.
  intros [[Hhead Hlast] Hlink] Huv. repeat split.
  - destruct p; [done|]. done.
  - apply last_snoc.
  - by apply (linked_snoc G p u v).
Qed.

Lemma is_walk_single (G : MultiDiGraph) (s : node) : is_walk G s s [s] = true.
Proof. unfold is_walk. simpl. by rewrite !bool_decide_eq_true_2. Qed.

(** A walk between two different nodes ends with an edge into its target. *)
Lemma no_walk_into_isolated (W : MultiDiGraph) (s t : node) :
  s ≠ t → Forall (λ e, e_v e ≠ t) (edges W) →
  ∀ p, is_walk W s t p = false.
Proof.
  intros Hne Hnone p.
  assert (Hiso : ∀ u, Graph.has_edge_uv W u t = false).
  { intros u. apply not_true_iff_false. rewrite has_edge_uv_spec.
    intros (e & He & _ & Hv). rewrite Forall_forall in Hnone.
    by apply (Hnone e He). }
  apply not_true_iff_false. unfold is_walk.
  rewrite !andb_true_iff, !bool_decide_eq_true. intros [[Hhead Hlast] Hlink].
  revert s Hne Hhead. induction p as [|a [|b tl] IH]; intros s Hne Hhead; [done| |].
  - simpl in *. congruence.
  - simpl in Hlink. apply andb_true_iff in Hlink as [Hab Htl].
    rewrite last_cons_cons in Hlast.
    destruct (decide (b = t)) as [->|Hb].
    + by rewrite Hiso in Hab.
    + by apply (IH Hlast Htl b).
Qed.

Lemma relax_sound (G : MultiDiGraph) (s : node) (tbl : gmap node (Q * list node))
    (e : Edge) :
  e ∈ edges G → table_sound G s tbl → table_sound G s (relax tbl e).
Proof.
  intros He Htbl. unfold relax.
  destruct (tbl !! e_u e) as [[du pu]|] eqn:Eu; [|done].
  assert (Hnew : table_sound G s
            (<[e_v e := (Qred (du + edge_weight e), pu ++ [e_v e])]> tbl)).
  { intros n d p. rewrite lookup_insert. case_decide as Hn.
    - intros [= <- <-]. subst n. apply (is_walk_snoc G s (e_u e)).
      + by apply (Htbl _ du).
      + apply has_edge_uv_spec. by exists e.
    - apply Htbl. }
  destruct (tbl !! e_v e) as [[dv pv]|]; [|done].
  by destruct (Qltb _ dv).
Qed.

Lemma bf_round_sound (G : MultiDiGraph) (s : node) (tbl : gmap node (Q * list node)) :
  table_sound G s tbl → table_sound G s (bf_round G tbl).
Proof.
  unfold bf_round.
  assert (Hgen : ∀ es, es ⊆ edges G → ∀ tbl, table_sound G s tbl →
                       table_sound G s (fold_left relax es tbl)).
  { induction es as [|e es IH]; intros Hsub tbl0 H0; simpl; [done|].
    apply IH; [set_solver|]. apply relax_sound; [set_solver|done]. }
  by apply Hgen.
Qed.

Lemma bellman_ford_sound (G : MultiDiGraph) (s : node) :
  table_sound G s (bellman_ford G s).
Proof.
  unfold bellman_ford. induction (length (nodes G)) as [|k IH]; simpl.
  - intros n d p Hn. apply lookup_singleton_Some in Hn as [<- [= <- <-]].
    apply is_walk_single.
  - by apply bf_round_sound.
Qed.

Lemma shortest_path_bf_walk (G : MultiDiGraph) (s t : node) (p : list node) :
  shortest_path_bf G s t = Ok p → is_walk G s t p = true.
Proof.
  unfold shortest_path_bf. destruct (_ && _); [|done].
  destruct (bellman_ford G s !! t) as [[d q]|] eqn:E; [|done].
  intros [= <-]. by apply (bellman_ford_sound G s t d).
Qed.

Lemma shortest_path_bf_raises (G : MultiDiGraph) (s t : node) (e : exn) :
  nonneg_lengths G → Graph.has_node G s = true → Graph.has_node G t = true →
  shortest_path_bf G s t = Error e → e = NetworkXNoPath.
Proof.
  intros _ Hs Ht. unfold shortest_path_bf. rewrite Hs, Ht. simpl.
  destruct (bellman_ford G s !! t) as [[d q]|]; [done|]. by intros [= <-].
Qed.

(** ** Route metrics *)

Lemma key_lt_spec (a b : option Q) : key_lt a b = true ↔ ¬ key_le b a.
Proof.
  destruct a as [p|], b as [q|]; simpl; unfold Qltb.
  - rewrite negb_true_iff, <- not_true_iff_false, Qle_bool_iff. done.
  - split; [auto | done].
  - split; [done | intros H; by destruct H].
  - split; [done | intros H; by destruct H].
Qed.

Lemma key_le_refl (a : option Q) : key_le a a.
Proof. destruct a; simpl; [apply Qle_refl | done]. Qed.

Lemma key_le_trans (a b c : option Q) : key_le a b → key_le b c → key_le a c.
Proof.
  destruct a, b, c; simpl; try done. apply Qle_trans.
Qed.

Lemma key_le_total (a b : option Q) : key_le a b ∨ key_le b a.
Proof.
  destruct a as [p|], b as [q|]; simpl; auto.
  destruct (Qlt_le_dec p q); [left; by apply Qlt_le_weak | by right].
Qed.

Lemma key_le_dec (a b : option Q) : key_le a b ∨ ¬ key_le a b.
Proof.
  destruct a as [p|], b as [q|]; simpl; auto.
  destruct (Qlt_le_dec q p) as [Hlt|Hle]; [right; by apply Qlt_not_le | by left].
Qed.

(** [min] returns an element whose key is below every other key. *)
Lemma py_min_least {A : Type} (f : A → option Q) (xs : list A) (x : A) :
  py_min f xs = Ok x → ∀ y, y ∈ xs → key_le (f x) (f y).
Proof.
  destruct xs as [|x0 rest]; simpl; [done|]. intros [= <-].
  assert (Hgen : ∀ l b y,
            (y ∈ l ∨ key_le (f b) (f y)) →
            key_le (f (fold_left (λ best c, if key_lt (f c) (f best) then c else best)
                                 l b)) (f y)).
  { induction l as [|c l IH]; intros b y Hy; simpl.
    - destruct Hy as [Hy|Hy]; [by apply not_elem_of_nil in Hy | done].
    - destruct (key_lt (f c) (f b)) eqn:E.
      + apply IH. destruct Hy as [Hy|Hy].
        * apply elem_of_cons in Hy as [->|Hy]; [right; apply key_le_refl | by left].
        * right. apply key_lt_spec in E.
          destruct (key_le_total (f c) (f b)) as [Hcb|Hbc]; [|done].
          by apply (key_le_trans _ (f b)).
      + apply IH. destruct Hy as [Hy|Hy]; [|by right].
        apply elem_of_cons in Hy as [->|Hy]; [|by left].
        right. apply not_true_iff_false in E. rewrite key_lt_spec in E.
        destruct (key_le_dec (f b) (f c)) as [Hbc|Hbc]; [done | by destruct E]. }
  intros y Hy. apply Hgen.
  apply elem_of_cons in Hy as [->|Hy]; [right; apply key_le_refl | by left].
Qed.

Lemma between_elem (G : MultiDiGraph) (u v : node) (e : Edge) :
  e ∈ Graph.between G u v ↔ e ∈ edges G ∧ e_u e = u ∧ e_v e = v.
Proof.
  unfold Graph.between.
  rewrite (list_elem_of_filter (λ e, e_u e = u ∧ e_v e = v)). tauto.
Qed.

(** On a joined pair the selection succeeds and picks a minimum-length
    parallel edge. *)
Lemma select_edge_joined (G : MultiDiGraph) (u v : node) :
  Graph.has_edge_uv G u v = true →
  ∃ e, select_edge G u v = Ok e ∧ min_length_edge G u v e.
Proof.
  intros Huv. unfold Graph.has_edge_uv in Huv. apply bool_decide_eq_true in Huv.
  unfold select_edge, Graph.adj.
  destruct (Graph.between G u v) as [|e0 es] eqn:E; [done|].
  destruct (py_min (λ e, length_key (e_data e)) (e0 :: es)) as [e|err] eqn:Hmin;
    [|done].
  exists e. split; [done|].
  pose proof (py_min_elem _ _ _ Hmin) as Hin. rewrite <- E in Hin.
  apply between_elem in Hin as (? & ? & ?). repeat split; try done.
  intros e' He' Hu Hv. apply (py_min_least _ _ _ Hmin).
  rewrite <- E. by apply between_elem.
Qed.

Lemma select_edge_min (G : MultiDiGraph) (u v : node) (e : Edge) :
  select_edge G u v = Ok e → min_length_edge G u v e.
Proof.
  intros Hsel.
  assert (Huv : Graph.has_edge_uv G u v = true).
  { unfold Graph.has_edge_uv. apply bool_decide_eq_true.
    unfold select_edge, Graph.adj in Hsel.
    by destruct (Graph.between G u v). }
  destruct (select_edge_joined G u v Huv) as (e' & He' & Hmin). congruence.
Qed.

(** The selected edges of a route, one per consecutive pair. *)
Lemma selected_exist (G : MultiDiGraph) (route : list node) :
  linked G route = true →
  ∃ es, Forall2 (λ uv e, select_edge G uv.1 uv.2 = Ok e) (consecutive route) es.
Proof.
  induction route as [|u [|v tl] IH]; intros Hl.
  - exists []. constructor.
  - exists []. constructor.
  - simpl in Hl. apply andb_true_iff in Hl as [Huv Htl].
    destruct (IH Htl) as (es & Hes).
    destruct (select_edge_joined G u v Huv) as (e & He & _).
    exists (e :: es). simpl. by constructor.
Qed.

Lemma metrics_loop_sum (G : MultiDiGraph) (route : list node) (es : list Edge)
    (acc : Q * Q) :
  Forall2 (λ uv e, select_edge G uv.1 uv.2 = Ok e) (consecutive route) es →
  ∃ d tm, metrics_loop G route acc = Ok (d, tm) ∧
          d == acc.1 + Qsum (edge_metres <$> es) ∧
          tm == acc.2 + Qsum (edge_hours <$> es).
Proof.
  revert es acc. induction route as [|u [|v tl] IH]; intros es acc Hes.
  - inversion Hes; subst. exists acc.1, acc.2. simpl.
    destruct acc. unfold Qsum. repeat split; simpl; ring.
  - inversion Hes; subst. exists acc.1, acc.2. simpl.
    destruct acc. unfold Qsum. repeat split; simpl; ring.
  - simpl in Hes. inversion Hes as [|uv e l es' He Hrest]; subst. simpl in He.
    destruct (IH es' ((acc.1 + edge_metres e)%Q, (acc.2 + edge_hours e)%Q) Hrest)
      as (d & tm & Hrun & Hd & Htm).
    exists d, tm. split.
    + change (metrics_loop G (u :: v :: tl) acc)
        with (match metrics_step G acc u v with
              | Error e => Error e
              | Ok acc' => metrics_loop G (v :: tl) acc'
              end).
      unfold metrics_step. rewrite He. exact Hrun.
    + unfold Qsum in *. cbn [fmap list_fmap foldr fst snd] in *.
      split; [rewrite Hd | rewrite Htm]; ring.
Qed.

Lemma speed_cases (d : EdgeData) :
  (fast_class d → speed d = 80%Q) ∧ (¬ fast_class d → speed d = 60%Q).
Proof.
  unfold speed, is_fast_class, fast_class.
  destruct (attr_highway d) as [[s|l]|].
  - case_bool_decide as Hs.
    + split; [done|]. intros Hn. destruct Hn.
      rewrite !elem_of_cons in Hs.
      destruct Hs as [->|[->|[->|Hs]]]; auto. by apply not_elem_of_nil in Hs.
    + split; [|done]. intros Hf. destruct Hs.
      rewrite !elem_of_cons. destruct Hf as [[= ->]|[[= ->]|[= ->]]]; auto.
  - split; [|done]. by intros [|[|]].
  - split; [|done]. by intros [|[|]].
Qed.

Lemma speed_positive (d : EdgeData) : (0 < speed d)%Q.
Proof. unfold speed. by destruct (is_fast_class d). Qed.

Lemma edge_metres_nonneg (G : MultiDiGraph) (e : Edge) :
  nonneg_lengths G → e ∈ edges G → (0 <= edge_metres e)%Q.
Proof.
  intros Hnn He. unfold edge_metres, length_or_zero.
  destruct (attr_length (e_data e)) as [l|] eqn:E; simpl; [|done].
  by apply (Hnn e).
Qed.

Lemma edge_hours_nonneg (G : MultiDiGraph) (e : Edge) :
  nonneg_lengths G → e ∈ edges G → (0 <= edge_hours e)%Q.
Proof.
  intros Hnn He. unfold edge_hours, Qdiv.
  pose proof (edge_metres_nonneg G e Hnn He) as Hm. unfold edge_metres in Hm.
  apply Qmult_le_0_compat.
  - apply Qmult_le_0_compat; [done|]. by apply Qinv_le_0_compat.
  - apply Qinv_le_0_compat, Qlt_le_weak, speed_positive.
Qed.

Lemma Qsum_nonneg (l : list Q) : Forall (λ q, (0 <= q)%Q) l → (0 <= Qsum l)%Q.
Proof.
  unfold Qsum. induction 1 as [|q l Hq _ IH]; simpl; [done|]. lra.
Qed.

Lemma nonneg_lengths_check (G : MultiDiGraph) :
  nonneg_lengths_b G = true → nonneg_lengths G.
Proof.
  unfold nonneg_lengths_b, nonneg_lengths. rewrite forallb_forall.
  intros Hall e l He Hl. apply list_elem_of_In in He.
  specialize (Hall e He). rewrite Hl in Hall. by apply Qle_bool_iff.
Qed.

Lemma nonneg_lengths_subgraph (W' W : MultiDiGraph) :
  subgraph W' W → nonneg_lengths W → nonneg_lengths W'.
Proof. intros [_ Hsub] Hnn e l He. apply Hnn. by apply Hsub. Qed.

(** A route whose consecutive nodes are joined always has metrics. *)
Lemma metrics_total (G : MultiDiGraph) (route : list node) :
  linked G route = true → ∃ d tm, calculate_route_metrics G route = Ok (d, tm).
Proof.
  intros Hl. destruct (selected_exist G route Hl) as (es & Hes).
  destruct (metrics_loop_sum G route es (0%Q, 0%Q) Hes) as (d & tm & Hrun & _).
  unfold calculate_route_metrics. rewrite Hrun. eauto.
Qed.

(** C7. For a path whose consecutive nodes are joined in the graph, the
    metrics add, for every consecutive pair, the length of a minimum-length
    parallel edge joining the pair and the hours that this edge takes at
    80 km/h when its class is motorway, trunk or primary and at 60 km/h
    otherwise.  The distance is the sum of the lengths divided by 1000, the
    time is the sum of the hours times 60; an edge of length zero adds zero
    to both; and with lengths that are not negative, neither the distance nor
    the time is negative. *)
Theorem route_metrics_formula (G : MultiDiGraph) (route : list node) :
  linked G route = true →
  ∃ (es : list Edge) (distance time : Q),
    Forall2 (λ uv e, select_edge G uv.1 uv.2 = Ok e ∧ min_length_edge G uv.1 uv.2 e)
            (consecutive route) es ∧
    calculate_route_metrics G route = Ok (distance, time) ∧
    distance == Qsum (edge_metres <$> es) / 1000 ∧
    time == Qsum (edge_hours <$> es) * 60 ∧
    Forall (λ e,
      (∀ l, attr_length (e_data e) = Some l → edge_metres e = l) ∧
      (fast_class (e_data e) → edge_hours e == edge_metres e / 1000 / 80) ∧
      (¬ fast_class (e_data e) → edge_hours e == edge_metres e / 1000 / 60) ∧
      (edge_metres e == 0 → edge_hours e == 0)) es ∧
    (nonneg_lengths G → (0 <= distance)%Q ∧ (0 <= time)%Q).
Proof.
  intros Hl. destruct (selected_exist G route Hl) as (es & Hes).
  destruct (metrics_loop_sum G route es (0%Q, 0%Q) Hes) as (d & tm & Hrun & Hd & Htm).
  simpl in Hd, Htm.
  assert (Hmin : Forall2 (λ uv e, select_edge G uv.1 uv.2 = Ok e ∧
                                  min_length_edge G uv.1 uv.2 e)
                         (consecutive route) es).
  { eapply Forall2_impl; [exact Hes|]. intros uv e He. split; [done|].
    by apply select_edge_min. }
  assert (Hin : Forall (λ e, e ∈ edges G) es).
  { clear -Hmin. induction Hmin as [|uv e l es [_ (He & _)] _ IH]; by constructor. }
  exists es, (d / 1000)%Q, (tm * 60)%Q. split; [done|].
  split; [unfold calculate_route_metrics; by rewrite Hrun|].
  split; [rewrite Hd; field|].
  split; [rewrite Htm; ring|].
  split.
  - apply Forall_forall. intros e _. unfold edge_hours, edge_metres.
    destruct (speed_cases (e_data e)) as [Hfast Hslow]. repeat split.
    + intros l Hlen. unfold length_or_zero. by rewrite Hlen.
    + intros Hf. by rewrite (Hfast Hf).
    + intros Hf. by rewrite (Hslow Hf).
    + intros Hz. rewrite Hz. unfold Qdiv. ring.
  - intros Hnn.
    assert (Hm : (0 <= Qsum (edge_metres <$> es))%Q).
    { apply Qsum_nonneg, Forall_fmap. eapply Forall_impl; [exact Hin|].
      intros e He. by apply (edge_metres_nonneg G). }
    assert (Hh : (0 <= Qsum (edge_hours <$> es))%Q).
    { apply Qsum_nonneg, Forall_fmap. eapply Forall_impl; [exact Hin|].
      intros e He. by apply (edge_hours_nonneg G). }
    split.
    + rewrite Hd. unfold Qdiv. apply Qmult_le_0_compat; [lra | done].
    + rewrite Htm. apply Qmult_le_0_compat; [lra | done].
Qed.

Lemma route_metrics_formula_witness :
  linked square [1; 2; 3] = true ∧
  ∃ (es : list Edge) (distance time : Q),
    Forall2 (λ uv e, select_edge square uv.1 uv.2 = Ok e ∧
                     min_length_edge square uv.1 uv.2 e)
            (consecutive [1; 2; 3]) es ∧
    calculate_route_metrics square [1; 2; 3] = Ok (distance, time) ∧
    distance == Qsum (edge_metres <$> es) / 1000 ∧
    time == Qsum (edge_hours <$> es) * 60 ∧
    Forall (λ e,
      (∀ l, attr_length (e_data e) = Some l → edge_metres e = l) ∧
      (fast_class (e_data e) → edge_hours e == edge_metres e / 1000 / 80) ∧
      (¬ fast_class (e_data e) → edge_hours e == edge_metres e / 1000 / 60) ∧
      (edge_metres e == 0 → edge_hours e == 0)) es ∧
    (nonneg_lengths square → (0 <= distance)%Q ∧ (0 <= time)%Q).
Proof.
  split; [reflexivity|]. apply (route_metrics_formula square [1; 2; 3]). reflexivity.
Defined.

(** The metrics of the square scenario: two sides of 1000 m at 60 km/h. *)
Example square_metrics :
  calculate_route_metrics square [1; 2; 3]
  = Ok ((0 + 1000 + 1000) / 1000, (0 + 1000 / 1000 / 60 + 1000 / 1000 / 60) * 60)%Q
  ∧ ((0 + 1000 + 1000) / 1000 == 2)%Q
  ∧ ((0 + 1000 / 1000 / 60 + 1000 / 1000 / 60) * 60 == 2)%Q.
Proof. split; [reflexivity|]. split; reflexivity. Qed.

(** C10. When the edge selected for a consecutive pair records no length it
    adds 0 to the distance and 0 to the time.  The selection itself reads a
    missing length as infinite, so as soon as one parallel edge records a
    length the selected edge records one, no larger.  In no case do the
    metrics of a route whose consecutive nodes are joined fail. *)
Theorem missing_length_adds_nothing (G : MultiDiGraph) (u v : node) (e : Edge)
    (acc : Q * Q) :
  select_edge G u v = Ok e →
  (attr_length (e_data e) = None →
     ∃ acc', metrics_step G acc u v = Ok acc' ∧ acc'.1 == acc.1 ∧ acc'.2 == acc.2) ∧
  (∀ e' l', e' ∈ edges G → e_u e' = u → e_v e' = v →
            attr_length (e_data e') = Some l' →
            ∃ l, attr_length (e_data e) = Some l ∧ (l <= l')%Q) ∧
  (∀ route, linked G route = true →
            ∃ d tm, calculate_route_metrics G route = Ok (d, tm)).
Proof.
  intros Hsel. split; [|split].
  - intros Hnone. unfold metrics_step. rewrite Hsel. eexists. split; [done|].
    unfold length_or_zero. rewrite Hnone. simpl. split; [ring|].
    unfold Qdiv. ring.
  - intros e' l' He' Hu Hv Hl'.
    destruct (select_edge_min G u v e Hsel) as (_ & _ & _ & Hleast).
    specialize (Hleast e' He' Hu Hv). unfold length_key in Hleast.
    rewrite Hl' in Hleast. destruct (attr_length (e_data e)) as [l|]; [|done].
    by exists l.
  - apply metrics_total.
Qed.

Lemma missing_length_adds_nothing_witness :
  select_edge unmeasured 1 2 = Ok unmeasured_edge ∧
  (∃ acc', metrics_step unmeasured (0%Q, 0%Q) 1 2 = Ok acc' ∧
           acc'.1 == 0%Q ∧ acc'.2 == 0%Q) ∧
  (∃ l, attr_length (e_data (plain_edge 2 1 1 30 "residential")) = Some l ∧
        (l <= 30)%Q).
Proof.
  split; [reflexivity|]. split.
  - apply (missing_length_adds_nothing unmeasured 1 2 unmeasured_edge (0%Q, 0%Q));
      reflexivity.
  - apply (missing_length_adds_nothing unmeasured 2 1
             (plain_edge 2 1 1 30 "residential") (0%Q, 0%Q))
      with (e' := plain_edge 2 1 1 30 "residential"); try reflexivity.
    unfold unmeasured. simpl. do 2 right. left.
Defined.

(** ** The working graph of [find_routes] *)

Lemma filter_agree {A : Type} (P R : A → Prop) `{∀ x, Decision (P x)}
    `{∀ x, Decision (R x)} (l : list A) :
  (∀ x, x ∈ l → (P x ↔ R x)) → filter P l = filter R l.
Proof.
  induction l as [|a l IH]; intros Hall; [done|].
  rewrite !filter_cons.
  assert (Ha : P a ↔ R a) by (apply Hall; left).
  assert (Hl : filter P l = filter R l).
  { apply IH. intros x Hx. apply Hall. by right. }
  destruct (decide (P a)), (decide (R a)); rewrite ?Hl; tauto.
Qed.

Lemma working_graph_has_edge (G : MultiDiGraph) (blocked : list edge_id)
    (u v : node) (key : edge_key) :
  Graph.has_edge (working_graph G blocked) u v key = true ↔
  Graph.has_edge G u v key = true ∧ ((u, v, key) ∉ blocked) ∧ ((v, u, key) ∉ blocked).
Proof.
  rewrite !has_edge_spec. split.
  - intros (e & He & Hid). apply working_graph_edge in He as (He & Hf & Hr).
    rewrite Hid in Hf, Hr. simpl in Hr. split; [by exists e | done].
  - intros ((e & He & Hid) & Hf & Hr). exists e. split; [|done].
    apply working_graph_edge. rewrite Hid. done.
Qed.

(** An identifier that names no edge of the network, in either direction,
    changes nothing in the working graph. *)
Lemma working_graph_stale (G : MultiDiGraph) (l1 l2 : list edge_id)
    (u v : node) (key : edge_key) :
  Graph.has_edge G u v key = false → Graph.has_edge G v u key = false →
  working_graph G (l1 ++ (u, v, key) :: l2) = working_graph G (l1 ++ l2).
Proof.
  intros Hf Hr. apply graph_eq; [done|]. simpl.
  apply filter_agree. intros e He.
  rewrite has_edge_false in Hf, Hr. specialize (Hf e He). specialize (Hr e He).
  rewrite !elem_of_app, !elem_of_cons.
  destruct e as [a b c d]. unfold id_of, reverse_id in *. simpl in *.
  split.
  - intros [H1 H2]. split; intros [?|?]; [apply H1|apply H1|apply H2|apply H2]; auto.
  - intros [H1 H2]. split.
    + intros [?|[?|?]]; [apply H1; auto | done | apply H1; auto].
    + intros [?|[E|?]]; [apply H2; auto | | apply H2; auto].
      apply Hr. congruence.
Qed.

Section FindRoutesClaims.

Variable nearest_nodes : MultiDiGraph → Q → Q → result node exn.
Variable shortest_path : MultiDiGraph → node → node → result (list node) exn.

(** What the proofs take from the library searches:
    - a node returned by [nearest_nodes] is a node of the graph;
    - a path returned by [shortest_path] starts at the source, ends at the
      target and follows edges of the graph;
    - on a graph without negative lengths and between two of its nodes,
      [shortest_path] raises nothing but [NetworkXNoPath]. *)
Hypothesis nearest_nodes_member : ∀ G X Y n,
  nearest_nodes G X Y = Ok n → Graph.has_node G n = true.
Hypothesis shortest_path_walk : ∀ G s t p,
  shortest_path G s t = Ok p → is_walk G s t p = true.
Hypothesis shortest_path_raises : ∀ G s t e,
  nonneg_lengths G → Graph.has_node G s = true → Graph.has_node G t = true →
  shortest_path G s t = Error e → e = NetworkXNoPath.

Lemma working_graph_allocated (h : store) (g : ref)
    (G : MultiDiGraph) (start_lat start_lon end_lat end_lon : Q)
    (blocked : list edge_id) (s t : node) :
  h !! g = Some G →
  nearest_nodes G start_lon start_lat = Ok s →
  nearest_nodes G end_lon end_lat = Ok t →
  (find_routes nearest_nodes shortest_path g start_lat start_lon
       end_lat end_lon blocked h).1 !! length h
  = Some (working_graph G blocked).
Proof.
  intros Hg Hs Ht.
  destruct (find_routes_store nearest_nodes shortest_path h g G _ _ _ _
              blocked s t Hg Hs Ht) as [->|(A & _ & ->)];
    by rewrite lookup_app_r, Nat.sub_diag.
Qed.

(** C1, as the program has it. [find_routes] leaves in its working graph
    (the object it allocates first) the network without every edge whose
    identifier or whose reverse identifier is in the blocked set: an edge
    [(v, u, key)] of the network remains exactly when neither [(v, u, key)]
    nor [(u, v, key)] is blocked. *)
Theorem working_graph_drops_both_directions (h : store) (g : ref)
    (G : MultiDiGraph) (start_lat start_lon end_lat end_lon : Q)
    (blocked : list edge_id) (s t : node) :
  h !! g = Some G →
  nearest_nodes G start_lon start_lat = Ok s →
  nearest_nodes G end_lon end_lat = Ok t →
  ∃ W, (find_routes nearest_nodes shortest_path g start_lat start_lon
            end_lat end_lon blocked h).1
         !! length h = Some W ∧
       nodes W = nodes G ∧
       (∀ e, e ∈ edges W ↔
             e ∈ edges G ∧ (id_of e ∉ blocked) ∧ (reverse_id (id_of e) ∉ blocked)) ∧
       (∀ u v key, Graph.has_edge W v u key = true ↔
             Graph.has_edge G v u key = true ∧
             ((v, u, key) ∉ blocked) ∧ ((u, v, key) ∉ blocked)).
Proof.
  intros Hg Hs Ht. exists (working_graph G blocked).
  split; [|split; [done|split]].
  - by apply (working_graph_allocated h g G _ _ _ _ blocked s t).
  - apply working_graph_edge.
  - intros u v key. apply working_graph_has_edge.
Qed.

(** C9. [find_routes] leaves every object that was in the store before the
    call as it was, the network among them: its nodes, its edges and their
    attributes are the same after the call.  The removals are made on the
    objects that the call allocates. *)
Theorem find_routes_preserves_network (h : store) (g : ref)
    (start_lat start_lon end_lat end_lon : Q) (blocked : list edge_id) :
  let after := (find_routes nearest_nodes shortest_path g start_lat start_lon
                    end_lat end_lon blocked h).1 in
  take (length h) after = h ∧ after !! g = h !! g.
Proof.
  simpl. destruct (h !! g) as [G|] eqn:Hg.
  - assert (Hpre : ∃ l, (find_routes nearest_nodes shortest_path g start_lat start_lon
                             end_lat end_lon
                                      blocked h).1 = h ++ l).
    { destruct (nearest_nodes G start_lon start_lat) as [s|e] eqn:Hs.
      - destruct (nearest_nodes G end_lon end_lat) as [t|e] eqn:Ht.
        + destruct (find_routes_store nearest_nodes shortest_path h g G _ _ _ _
                      blocked s t Hg Hs Ht) as [->|(A & _ & ->)]; eauto.
        + exists []. rewrite (find_routes_unresolved_end _ _ h g G _ _ _ _ _ s e);
            try done. by rewrite app_nil_r.
      - exists []. rewrite (find_routes_unresolved_start _ _ h g G _ _ _ _ _ e);
          try done. by rewrite app_nil_r. }
    destruct Hpre as [l ->]. split.
    + by rewrite take_app_length.
    + by apply lookup_app_l_Some.
  - rewrite find_routes_dangling by done. simpl. split; [|done].
    by rewrite firstn_all.
Qed.

Lemma linked_consecutive (W : MultiDiGraph) (p : list node) (u v : node) :
  linked W p = true → (u, v) ∈ consecutive p → Graph.has_edge_uv W u v = true.
Proof.
  induction p as [|a [|b tl] IH]; simpl; intros Hl Hin.
  - by apply not_elem_of_nil in Hin.
  - by apply not_elem_of_nil in Hin.
  - apply andb_true_iff in Hl as [Hab Htl].
    apply elem_of_cons in Hin as [[= -> ->]|Hin]; [done|]. by apply IH.
Qed.

Lemma is_walk_linked (W : MultiDiGraph) (s t : node) (p : list node) :
  is_walk W s t p = true → linked W p = true.
Proof. unfold is_walk. rewrite !andb_true_iff. tauto. Qed.

(** The routes that [find_routes] can return: none; the fastest route; or
    the fastest route followed by an alternative found in a subgraph [A] of
    the working graph, different from the fastest path, with metrics read
    from the working graph. *)
Lemma find_routes_returns (h : store) (g : ref) (G : MultiDiGraph)
    (start_lat start_lon end_lat end_lon : Q) (blocked : list edge_id)
    (routes : list Route) :
  h !! g = Some G →
  (find_routes nearest_nodes shortest_path g start_lat start_lon
       end_lat end_lon blocked h).2 = Ok routes →
  let W := working_graph G blocked in
  ∃ s t,
    nearest_nodes G start_lon start_lat = Ok s ∧
    nearest_nodes G end_lon end_lat = Ok t ∧
    (routes = [] ∨
     ∃ path d tm,
       shortest_path W s t = Ok path ∧
       calculate_route_metrics W path = Ok (d, tm) ∧
       (routes = [fastest_route path d tm] ∨
        ∃ A alt_path d' tm',
          subgraph A W ∧ (10 < length path)%nat ∧
          shortest_path A s t = Ok alt_path ∧ alt_path ≠ path ∧
          calculate_route_metrics W alt_path = Ok (d', tm') ∧
          routes = [fastest_route path d tm; alternative_route alt_path d' tm'])).
Proof.
  intros Hg Hres. simpl.
  destruct (nearest_nodes G start_lon start_lat) as [s|e] eqn:Hs;
    [|by rewrite (find_routes_unresolved_start _ _ h g G _ _ _ _ _ e) in Hres].
  destruct (nearest_nodes G end_lon end_lat) as [t|e] eqn:Ht;
    [|by rewrite (find_routes_unresolved_end _ _ h g G _ _ _ _ _ s e) in Hres].
  exists s, t. split; [done|]. split; [done|].
  rewrite (find_routes_run _ _ h g G _ _ _ _ blocked s t Hg Hs Ht) in Hres.
  simpl in Hres. unfold fastest_result, on_no_path in Hres.
  set (W := working_graph G blocked) in *.
  destruct (shortest_path W s t) as [path|e] eqn:Hsp.
  - destruct (calculate_route_metrics W path) as [[d tm]|e] eqn:Hm.
    + right. exists path, d, tm. split; [done|]. split; [done|].
      destruct (decide (10 < length path)%nat) as [Hlen|Hlen].
      * destruct (alternative_phase_long shortest_path (h ++ [W]) (length h) W s t
                    path [fastest_route path d tm]) as (A & rm & Hsub & Hrun);
          [by rewrite lookup_app_r, Nat.sub_diag | done |].
        rewrite Hrun in Hres. simpl in Hres.
        destruct rm as [[]|e]; [|done].
        unfold alternative_result, on_no_path in Hres.
        destruct (shortest_path A s t) as [alt_path|e] eqn:Hsp'.
        -- case_bool_decide as Hne.
           ++ destruct (calculate_route_metrics W alt_path) as [[d' tm']|e]
                eqn:Hm'.
              ** injection Hres as <-. right.
                 exists A, alt_path, d', tm'. done.
              ** destruct e; try done. injection Hres as <-. by left.
           ++ injection Hres as <-. by left.
        -- destruct e; try done. injection Hres as <-. by left.
      * rewrite alternative_phase_short in Hres by lia.
        injection Hres as <-. by left.
    + destruct e; try done. injection Hres as <-. by left.
  - destruct e; try done. injection Hres as <-. by left.
Qed.

(** C2. No route returned by [find_routes] goes through a blocked edge:
    every consecutive pair of nodes of a returned path is joined in the
    working graph, the edge chosen for the pair is an edge of the network
    whose identifier is not in the blocked set, and so is every other edge
    of the working graph that joins the pair. *)
Theorem routes_avoid_blocked (h : store) (g : ref) (G : MultiDiGraph)
    (start_lat start_lon end_lat end_lon : Q) (blocked : list edge_id)
    (routes : list Route) :
  h !! g = Some G →
  (find_routes nearest_nodes shortest_path g start_lat start_lon
       end_lat end_lon blocked h).2 = Ok routes →
  ∃ W,
    (find_routes nearest_nodes shortest_path g start_lat start_lon
         end_lat end_lon blocked h).1
      !! length h = Some W ∧
    ∀ route u v, route ∈ routes → (u, v) ∈ consecutive (route_path route) →
      (∃ e, select_edge W u v = Ok e ∧ e ∈ edges G ∧ id_of e ∉ blocked) ∧
      (∀ e, e ∈ edges W → e_u e = u → e_v e = v →
            e ∈ edges G ∧ id_of e ∉ blocked).
Proof.
  intros Hg Hres.
  destruct (find_routes_returns h g G _ _ _ _ blocked routes Hg Hres)
    as (s & t & Hs & Ht & Hroutes).
  pose proof (working_graph_allocated h g G start_lat start_lon
                end_lat end_lon blocked s t Hg Hs Ht) as Hstore.
  exists (working_graph G blocked). split; [done|].
  assert (Hedge : ∀ e, e ∈ edges (working_graph G blocked) →
                       e ∈ edges G ∧ id_of e ∉ blocked).
  { intros e He. apply working_graph_edge in He. tauto. }
  assert (Hlinked : ∀ route, route ∈ routes →
                             linked (working_graph G blocked) (route_path route) = true).
  { intros route Hin.
    destruct Hroutes as [->|(path & d & tm & Hsp & _ & Hroutes)];
      [by apply not_elem_of_nil in Hin|].
    apply shortest_path_walk, is_walk_linked in Hsp.
    destruct Hroutes as [->|(A & alt & d' & tm' & Hsub & _ & Hsp' & _ & _ & ->)].
    - apply list_elem_of_singleton in Hin as ->. done.
    - apply elem_of_cons in Hin as [->|Hin]; [done|].
      apply list_elem_of_singleton in Hin as ->. simpl.
      apply (subgraph_linked A); [done|].
      by apply shortest_path_walk, is_walk_linked in Hsp'. }
  intros route u v Hin Huv. split.
  - pose proof (linked_consecutive _ _ u v (Hlinked route Hin) Huv) as Hjoin.
    destruct (select_edge_joined _ u v Hjoin) as (e & Hsel & He & _).
    exists e. split; [done|]. by apply Hedge.
  - intros e He _ _. by apply Hedge.
Qed.

(** C3. When no path exists from the resolved start node to the resolved end
    node, [find_routes] returns the empty list of routes and raises nothing.
    It is enough that some graph [N] that contains the working graph has no
    walk between the two nodes: [N] may be the working graph itself, or the
    network without the blocked edges. *)
Theorem no_path_returns_empty (h : store) (g : ref) (G N : MultiDiGraph)
    (start_lat start_lon end_lat end_lon : Q) (blocked : list edge_id) (s t : node) :
  h !! g = Some G →
  nonneg_lengths G →
  nearest_nodes G start_lon start_lat = Ok s →
  nearest_nodes G end_lon end_lat = Ok t →
  subgraph (working_graph G blocked) N →
  (∀ p, is_walk N s t p = false) →
  find_routes nearest_nodes shortest_path g start_lat start_lon end_lat end_lon
              blocked h
  = (h ++ [working_graph G blocked], Ok []).
Proof.
  intros Hg Hnn Hs Ht Hsub Hno.
  rewrite (find_routes_run _ _ h g G _ _ _ _ blocked s t Hg Hs Ht). simpl.
  unfold fastest_result.
  destruct (shortest_path (working_graph G blocked) s t) as [path|e] eqn:Hsp.
  - apply shortest_path_walk in Hsp.
    apply (subgraph_is_walk _ N) in Hsp; [|done]. by rewrite Hno in Hsp.
  - apply shortest_path_raises in Hsp as ->; [done| | |].
    + by apply (nonneg_lengths_subgraph _ G); [apply working_graph_subgraph|].
    + by apply (nearest_nodes_member G start_lon start_lat).
    + by apply (nearest_nodes_member G end_lon end_lat).
Qed.

(** C4. A route labelled alternative is returned only after a fastest path
    of more than ten nodes, its path differs from the fastest path, and its
    distance and time are the metrics of its path over the working graph,
    the graph from which only the blocked edges were removed.  The graph of
    the alternative search is another object and the working graph is not
    changed by the removals made on it. *)
Theorem alternative_uses_working_graph (h : store) (g : ref) (G : MultiDiGraph)
    (start_lat start_lon end_lat end_lon : Q) (blocked : list edge_id)
    (routes : list Route) (route : Route) :
  h !! g = Some G →
  (find_routes nearest_nodes shortest_path g start_lat start_lon
       end_lat end_lon blocked h).2 = Ok routes →
  route ∈ routes → route_type route = "alternative"%string →
  ∃ fastest W A,
    routes = [fastest; route] ∧
    route_type fastest = "fastest"%string ∧
    (10 < length (route_path fastest))%nat ∧
    route_path route ≠ route_path fastest ∧
    (find_routes nearest_nodes shortest_path g start_lat start_lon
         end_lat end_lon blocked h).1
    = h ++ [W; A] ∧
    W = working_graph G blocked ∧
    calculate_route_metrics W (route_path route)
    = Ok (route_distance_km route, route_time_min route).
Proof.
  intros Hg Hres Hin Htype.
  destruct (find_routes_returns h g G _ _ _ _ blocked routes Hg Hres)
    as (s & t & Hs & Ht & Hroutes).
  destruct Hroutes as [->|(path & d & tm & Hsp & Hm & Hroutes)];
    [by apply not_elem_of_nil in Hin|].
  destruct Hroutes as [->|(A0 & alt & d' & tm' & Hsub & Hlen & Hsp' & Hne & Hm' & ->)].
  - apply list_elem_of_singleton in Hin as ->. done.
  - apply elem_of_cons in Hin as [->|Hin]; [done|].
    apply list_elem_of_singleton in Hin as ->.
    rewrite (find_routes_run _ _ h g G _ _ _ _ blocked s t Hg Hs Ht). simpl.
    unfold fastest_result. rewrite Hsp, Hm. simpl.
    destruct (alternative_phase_long shortest_path
                (h ++ [working_graph G blocked]) (length h)
                (working_graph G blocked) s t path [fastest_route path d tm])
      as (A & rm & _ & Hrun);
      [by rewrite lookup_app_r, Nat.sub_diag | done |].
    exists (fastest_route path d tm), (working_graph G blocked), A.
    rewrite Hrun. simpl. rewrite <- app_assoc. done.
Qed.

(** C5. When the fastest path has at most ten nodes, [find_routes] returns
    exactly one route, labelled fastest, and allocates the working graph
    only: no alternative is attempted.  With more than ten nodes it
    allocates the graph of the alternative search as well. *)
Theorem short_path_single_route (h : store) (g : ref) (G : MultiDiGraph)
    (start_lat start_lon end_lat end_lon : Q) (blocked : list edge_id)
    (s t : node) (path : list node) :
  h !! g = Some G →
  nearest_nodes G start_lon start_lat = Ok s →
  nearest_nodes G end_lon end_lat = Ok t →
  shortest_path (working_graph G blocked) s t = Ok path →
  let W := working_graph G blocked in
  ∃ d tm,
    calculate_route_metrics W path = Ok (d, tm) ∧
    route_type (fastest_route path d tm) = "fastest"%string ∧
    ((length path ≤ 10)%nat →
       find_routes nearest_nodes shortest_path g start_lat start_lon
           end_lat end_lon blocked h
       = (h ++ [W], Ok [fastest_route path d tm])) ∧
    ((10 < length path)%nat →
       ∃ A, (find_routes nearest_nodes shortest_path g start_lat start_lon
                 end_lat end_lon blocked h).1
            = h ++ [W; A]).
Proof.
  intros Hg Hs Ht Hsp. simpl.
  destruct (metrics_total (working_graph G blocked) path) as (d & tm & Hm).
  { by apply shortest_path_walk, is_walk_linked in Hsp. }
  exists d, tm. split; [done|]. split; [done|].
  rewrite (find_routes_run _ _ h g G _ _ _ _ blocked s t Hg Hs Ht). simpl.
  unfold fastest_result. rewrite Hsp, Hm. simpl. split.
  - intros Hlen. by apply alternative_phase_short.
  - intros Hlen.
    destruct (alternative_phase_long shortest_path
                (h ++ [working_graph G blocked]) (length h)
                (working_graph G blocked) s t path [fastest_route path d tm])
      as (A & rm & _ & Hrun);
      [by rewrite lookup_app_r, Nat.sub_diag | done |].
    exists A. rewrite Hrun. simpl. by rewrite <- app_assoc.
Qed.

(** C8. A blocked identifier [(u, v, key)] such that the network has neither
    the edge [(u, v, key)] nor the edge [(v, u, key)] has no effect: the
    loop over the blocked set raises nothing, and [find_routes] returns the
    same result and allocates the same graphs as without that entry. *)
Theorem stale_blocked_entry_ignored (h : store) (g : ref) (G : MultiDiGraph)
    (start_lat start_lon end_lat end_lon : Q) (l1 l2 : list edge_id)
    (u v : node) (key : edge_key) :
  h !! g = Some G →
  Graph.has_edge G u v key = false →
  Graph.has_edge G v u key = false →
  remove_blocked (length h) (l1 ++ (u, v, key) :: l2) (h ++ [G])
  = (h ++ [working_graph G (l1 ++ l2)], Ok ()) ∧
  find_routes nearest_nodes shortest_path g start_lat start_lon
      end_lat end_lon (l1 ++ (u, v, key) :: l2) h
  = find_routes nearest_nodes shortest_path g start_lat start_lon
        end_lat end_lon (l1 ++ l2) h.
Proof.
  intros Hg Hf Hr. split.
  - rewrite (remove_blocked_run _ _ _ G) by (by rewrite lookup_app_r, Nat.sub_diag).
    rewrite insert_app_r_alt, Nat.sub_diag by lia. simpl.
    by rewrite working_graph_stale.
  - destruct (nearest_nodes G start_lon start_lat) as [s|e] eqn:Hs.
    + destruct (nearest_nodes G end_lon end_lat) as [t|e] eqn:Ht.
      * rewrite !(find_routes_run _ _ h g G _ _ _ _ _ s t Hg Hs Ht).
        by rewrite working_graph_stale.
      * by rewrite !(find_routes_unresolved_end _ _ h g G _ _ _ _ _ s e).
    + by rewrite !(find_routes_unresolved_start _ _ h g G _ _ _ _ _ e).
Qed.

End FindRoutesClaims.

(** ** [find_routes] on the example networks *)

Lemma working_graph_drops_both_directions_witness :
  ∃ W, (find_routes nearest_nodes_scan shortest_path_bf 0%nat 0 1 0 11 [(20, 4, 0)]
                    [long_road]).1 !! 1%nat = Some W ∧
       nodes W = nodes long_road ∧
       (∀ e, e ∈ edges W ↔
             e ∈ edges long_road ∧ (id_of e ∉ [(20, 4, 0)]) ∧
             (reverse_id (id_of e) ∉ [(20, 4, 0)])) ∧
       (∀ u v key, Graph.has_edge W v u key = true ↔
             Graph.has_edge long_road v u key = true ∧
             ((v, u, key) ∉ [(20, 4, 0)]) ∧ ((u, v, key) ∉ [(20, 4, 0)])).
Proof.
  apply (working_graph_drops_both_directions nearest_nodes_scan shortest_path_bf
           [long_road] 0%nat long_road 0 1 0 11 [(20, 4, 0)] 1 11); reflexivity.
Defined.

(** C1, as stated, fails.  On the two-way street between nodes 1 and 2 with
    only [(1, 2, 0)] blocked, the edge [(2, 1, 0)] is in the network and not in
    the blocked set, and yet the working graph that [find_routes] builds does
    not have it. *)
Lemma reverse_edge_kept_counterexample :
  let blocked := [(1, 2, 0)] in
  let after :=
    (find_routes nearest_nodes_scan shortest_path_bf 0%nat 0 1 0 0 blocked [street]).1 in
  (1, 2, 0) ∈ blocked ∧
  ((2, 1, 0) ∉ blocked) ∧
  Graph.has_edge street 2 1 0 = true ∧
  ∃ W, after !! 1%nat = Some W ∧ Graph.has_edge W 2 1 0 = false.
Proof.
  simpl. split; [left|]. split.
  - apply (bool_decide_unpack _). vm_compute. exact I.
  - split; [reflexivity|].
    exists {| nodes := nodes street; edges := [] |}. split; reflexivity.
Qed.

(** Hence no statement of directed removal holds of [find_routes]. *)
Lemma directed_removal_refuted :
  ¬ (∀ (G : MultiDiGraph) (blocked : list edge_id) (u v : node) (key : edge_key)
       (W : MultiDiGraph),
       (find_routes nearest_nodes_scan shortest_path_bf 0%nat 0 1 0 0 blocked [G]).1
         !! 1%nat = Some W →
       (u, v, key) ∈ blocked → (v, u, key) ∉ blocked →
       Graph.has_edge G v u key = true →
       Graph.has_edge W v u key = true).
Proof.
  intros Hclaim.
  specialize (Hclaim street [(1, 2, 0)] 1 2 0 {| nodes := nodes street; edges := [] |}).
  assert (Hfalse : Graph.has_edge {| nodes := nodes street; edges := [] |} 2 1 0 = true).
  { apply Hclaim.
    - reflexivity.
    - left.
    - apply (bool_decide_unpack _). vm_compute. exact I.
    - reflexivity. }
  discriminate Hfalse.
Qed.

(** The route from node 2 to node 1 is lost although its only edge is not
    blocked. *)
Example street_reverse_direction_lost :
  (find_routes nearest_nodes_scan shortest_path_bf 0%nat 0 1 0 0 [(1, 2, 0)] [street]).2
  = Ok [] ∧
  routes_of (find_routes nearest_nodes_scan shortest_path_bf 0%nat 0 1 0 0 []
                         [street])
  = [fastest_route [2; 1] ((0 + 500) / 1000) ((0 + 500 / 1000 / 80) * 60)].
Proof. split; reflexivity. Qed.

(** Removals update the object they are called on: had the loop been run on
    the network itself, the network would have lost its edges. *)
Example remove_blocked_in_place :
  remove_blocked 0%nat [(1, 2, 0)] [street]
  = ([{| nodes := nodes street; edges := [] |}], Ok ()).
Proof. reflexivity. Qed.

(** The square with the street between N1 and N2 blocked in both directions:
    the route from N1 to N3 goes through N4. *)
Lemma routes_avoid_blocked_witness :
  let r := find_routes nearest_nodes_scan shortest_path_bf 0%nat 0 0 1 1
                       [(1, 2, 0); (2, 1, 0)] [square] in
  (route_path <$> routes_of r) = [[1; 4; 3]] ∧
  ∃ W, r.1 !! 1%nat = Some W ∧
    ∀ route u v, route ∈ routes_of r → (u, v) ∈ consecutive (route_path route) →
      (∃ e, select_edge W u v = Ok e ∧ e ∈ edges square ∧
            id_of e ∉ [(1, 2, 0); (2, 1, 0)]) ∧
      (∀ e, e ∈ edges W → e_u e = u → e_v e = v →
            e ∈ edges square ∧ id_of e ∉ [(1, 2, 0); (2, 1, 0)]).
Proof.
  split; [reflexivity|].
  apply (routes_avoid_blocked nearest_nodes_scan shortest_path_bf shortest_path_bf_walk
           [square] 0%nat square 0 0 1 1 [(1, 2, 0); (2, 1, 0)]); reflexivity.
Defined.

(** The square with every edge incident to N3 blocked: no route from N1 to
    N3. *)
Lemma no_path_returns_empty_witness :
  find_routes nearest_nodes_scan shortest_path_bf 0%nat 0 0 1 1
              [(2, 3, 0); (3, 2, 0); (3, 4, 0); (4, 3, 0)] [square]
  = ([square] ++ [working_graph square [(2, 3, 0); (3, 2, 0); (3, 4, 0); (4, 3, 0)]],
     Ok []).
Proof.
  apply (no_path_returns_empty nearest_nodes_scan shortest_path_bf
           nearest_nodes_scan_member shortest_path_bf_walk shortest_path_bf_raises
           [square] 0%nat square
           (minus_blocked square [(2, 3, 0); (3, 2, 0); (3, 4, 0); (4, 3, 0)])
           0 0 1 1 [(2, 3, 0); (3, 2, 0); (3, 4, 0); (4, 3, 0)] 1 3).
  - reflexivity.
  - apply nonneg_lengths_check. reflexivity.
  - reflexivity.
  - reflexivity.
  - apply working_graph_in_minus_blocked.
  - apply no_walk_into_isolated; [done|].
    apply (bool_decide_unpack _). vm_compute. exact I.
Defined.

(** The long road: the fastest path has eleven nodes and the alternative
    takes the detour. *)
Lemma alternative_uses_working_graph_witness :
  route_path long_road_alternative = [1; 2; 3; 4; 20; 8; 9; 10; 11] ∧
  ∃ fastest W A,
    routes_of long_road_run = [fastest; long_road_alternative] ∧
    route_type fastest = "fastest"%string ∧
    (10 < length (route_path fastest))%nat ∧
    route_path long_road_alternative ≠ route_path fastest ∧
    long_road_run.1 = [long_road] ++ [W; A] ∧
    W = working_graph long_road [] ∧
    calculate_route_metrics W (route_path long_road_alternative)
    = Ok (route_distance_km long_road_alternative,
          route_time_min long_road_alternative).
Proof.
  split; [by vm_compute|].
  assert (Hres : (find_routes nearest_nodes_scan shortest_path_bf 0%nat 0 1 0 11 []
                              [long_road]).2 = Ok (routes_of long_road_run))
    by (by vm_compute).
  assert (Hin : long_road_alternative ∈ routes_of long_road_run)
    by (vm_compute; apply list_elem_of_further, list_elem_of_here).
  assert (Htype : route_type long_road_alternative = "alternative"%string)
    by (by vm_compute).
  exact (alternative_uses_working_graph nearest_nodes_scan shortest_path_bf
           [long_road] 0%nat long_road 0 1 0 11 []
           (routes_of long_road_run) long_road_alternative eq_refl Hres Hin Htype).
Defined.

(** The square without damage: a fastest path of three nodes, one route. *)
Lemma short_path_single_route_witness :
  ∃ d tm,
    calculate_route_metrics (working_graph square []) [1; 2; 3] = Ok (d, tm) ∧
    route_type (fastest_route [1; 2; 3] d tm) = "fastest"%string ∧
    ((length [1; 2; 3] ≤ 10)%nat →
       find_routes nearest_nodes_scan shortest_path_bf 0%nat 0 0 1 1 [] [square]
       = ([square] ++ [working_graph square []],
          Ok [fastest_route [1; 2; 3] d tm])) ∧
    ((10 < length [1; 2; 3])%nat →
       ∃ A, (find_routes nearest_nodes_scan shortest_path_bf 0%nat 0 0 1 1 []
                         [square]).1
            = [square] ++ [working_graph square []; A]).
Proof.
  apply (short_path_single_route nearest_nodes_scan shortest_path_bf
           shortest_path_bf_walk [square] 0%nat square 0 0 1 1 [] 1 3 [1; 2; 3]);
    reflexivity.
Defined.

(** After the call on the long road, which removes edges from two graphs,
    the network is the object it was. *)
Example long_road_network_kept :
  long_road_run.1 !! 0%nat = Some long_road ∧ length long_road_run.1 = 3%nat.
Proof. split; reflexivity. Qed.

(** Start and end at the same node: the path is that node, at distance 0. *)
Example square_same_node :
  routes_of (find_routes nearest_nodes_scan shortest_path_bf 0%nat 0 0 0 0 [] [square])
  = [fastest_route [1] (0 / 1000) (0 * 60)].
Proof. reflexivity. Qed.

(** On the long road the alternative search is run, and allocates its graph. *)
Example long_road_allocates_two :
  length (find_routes nearest_nodes_scan shortest_path_bf 0%nat 0 1 0 11 []
                      [long_road]).1 = 3%nat ∧
  length (find_routes nearest_nodes_scan shortest_path_bf 0%nat 0 0 1 1 []
                      [square]).1 = 2%nat.
Proof. split; reflexivity. Qed.

(** The street with a blocked identifier that names no edge. *)
Lemma stale_blocked_entry_ignored_witness :
  remove_blocked 1%nat ([(1, 2, 0)] ++ (7, 8, 0) :: []) ([street] ++ [street])
  = ([street] ++ [working_graph street ([(1, 2, 0)] ++ [])], Ok ()) ∧
  find_routes nearest_nodes_scan shortest_path_bf 0%nat 0 0 0 1
              ([(1, 2, 0)] ++ (7, 8, 0) :: []) [street]
  = find_routes nearest_nodes_scan shortest_path_bf 0%nat 0 0 0 1
                ([(1, 2, 0)] ++ []) [street].
Proof.
  apply (stale_blocked_entry_ignored nearest_nodes_scan shortest_path_bf
           [street] 0%nat street 0 0 0 1 [(1, 2, 0)] [] 7 8 0); reflexivity.
Defined.

(** ** Damage simulation *)

Lemma reverse_id_involutive (i : edge_id) : reverse_id (reverse_id i) = i.
Proof. by destruct i as [[u v] key]. Qed.

Lemma newly_blocked_elem (G : MultiDiGraph) (blocked : list edge_id)
    (edge e : edge_id) :
  e ∈ newly_blocked G blocked edge ↔
  (e ∉ blocked) ∧ (e = edge ∨ (e = reverse_id edge ∧ has_edge_id G e = true)).
Proof.
  unfold newly_blocked.
  destruct (decide (edge ∈ blocked)) as [Hf|Hf];
    [rewrite (bool_decide_eq_true_2 (edge ∈ blocked)) by done
    |rewrite (bool_decide_eq_false_2 (edge ∈ blocked)) by done];
    (destruct (has_edge_id G (reverse_id edge)) eqn:Erev; simpl;
     [case_bool_decide as Hr|]);
    rewrite ?app_nil_r, ?elem_of_app, ?elem_of_cons, ?elem_of_nil in *;
    split; intros Hyp; intuition (subst; try congruence).
Qed.

Lemma newly_blocked_NoDup (G : MultiDiGraph) (blocked : list edge_id)
    (edge : edge_id) :
  NoDup blocked → NoDup (blocked ++ newly_blocked G blocked edge).
Proof.
  intros Hnd. apply NoDup_app. split; [done|]. split.
  - intros e Hb Hnew. apply newly_blocked_elem in Hnew. tauto.
  - unfold newly_blocked.
    destruct (bool_decide (edge ∈ blocked)); simpl.
    + destruct (_ && _); [apply NoDup_singleton | apply NoDup_nil_2].
    + destruct (has_edge_id G (reverse_id edge)); simpl;
        [|apply NoDup_singleton].
      case_bool_decide as Hr; [|apply NoDup_singleton].
      apply NoDup_cons. split; [|apply NoDup_singleton].
      rewrite list_elem_of_singleton. intros Heq. apply Hr.
      apply elem_of_app. right. by apply list_elem_of_singleton.
Qed.

Lemma newly_blocked_all_elem (G : MultiDiGraph) (selected blocked : list edge_id)
    (e : edge_id) :
  e ∈ newly_blocked_all G blocked selected ↔
  (e ∉ blocked) ∧
  (e ∈ selected ∨ (reverse_id e ∈ selected ∧ has_edge_id G e = true)).
Proof.
  revert blocked. induction selected as [|x rest IH]; intros blocked; simpl.
  - split; [intros Hn; by apply not_elem_of_nil in Hn|].
    intros [_ [Hn|[Hn _]]]; by apply not_elem_of_nil in Hn.
  - rewrite elem_of_app, IH, newly_blocked_elem, !elem_of_cons, elem_of_app,
      newly_blocked_elem.
    assert (Hrev : reverse_id e = x ↔ e = reverse_id x).
    { split; intros Heq; [rewrite <- Heq | rewrite Heq];
        by rewrite reverse_id_involutive. }
    rewrite Hrev.
    destruct (decide (e ∈ blocked)), (decide (e = x)), (decide (e = reverse_id x)),
      (decide (has_edge_id G e = true)); tauto.
Qed.

Lemma newly_blocked_all_NoDup (G : MultiDiGraph) (selected blocked : list edge_id) :
  NoDup blocked → NoDup (blocked ++ newly_blocked_all G blocked selected).
Proof.
  revert blocked. induction selected as [|x rest IH]; intros blocked Hnd; simpl.
  - by rewrite app_nil_r.
  - rewrite app_assoc. apply IH. by apply newly_blocked_NoDup.
Qed.

(** The loop body, as a result: it appends the newly blocked directions and
    adds their number to the count. *)
Lemma block_edge_run (G : MultiDiGraph) (blocked : list edge_id)
    (coords : list (list (Q * Q))) (count : nat) (edge : edge_id)
    (st' : list edge_id * list (list (Q * Q)) * nat) :
  block_edge G (blocked, coords, count) edge = Ok st' →
  st'.1.1 = blocked ++ newly_blocked G blocked edge ∧
  st'.2 = (count + length (newly_blocked G blocked edge))%nat.
Proof.
  destruct edge as [[u v] key]. unfold block_edge, newly_blocked, has_edge_id.
  cbn [reverse_id fst snd].
  destruct (decide ((u, v, key) ∈ blocked)) as [Hfwd|Hfwd].
  - rewrite (bool_decide_eq_true_2 ((u, v, key) ∈ blocked)) by done.
    rewrite (bool_decide_eq_false_2 ((u, v, key) ∉ blocked)) by tauto.
    rewrite !app_nil_r.
    destruct (Graph.has_edge G v u key); cbn [andb];
      repeat case_bool_decide; try tauto;
      intros [= <-]; cbn [fst snd length app]; rewrite ?app_nil_r;
      (split; [done | lia]).
  - rewrite (bool_decide_eq_false_2 ((u, v, key) ∈ blocked)) by done.
    rewrite (bool_decide_eq_true_2 ((u, v, key) ∉ blocked)) by done.
    destruct (get_edge_geometry G (u, v, key)) as [geometry|e]; [|done].
    destruct (Graph.has_edge G v u key); cbn [andb];
      repeat case_bool_decide; try tauto;
      intros [= <-]; cbn [fst snd length app]; rewrite <- ?app_assoc;
      (split; [done | lia]).
Qed.

Lemma block_selected_run (G : MultiDiGraph) (selected blocked : list edge_id)
    (coords : list (list (Q * Q))) (count : nat)
    (st' : list edge_id * list (list (Q * Q)) * nat) :
  block_selected G selected (blocked, coords, count) = Ok st' →
  st'.1.1 = blocked ++ newly_blocked_all G blocked selected ∧
  st'.2 = (count + length (newly_blocked_all G blocked selected))%nat.
Proof.
  revert blocked coords count.
  induction selected as [|x rest IH]; intros blocked coords count;
    cbn [block_selected newly_blocked_all].
  - intros [= <-]. simpl. rewrite app_nil_r. split; [done | lia].
  - destruct (block_edge G (blocked, coords, count) x) as [[[b1 c1] n1]|e] eqn:E;
      [|done].
    apply block_edge_run in E as [Hb Hn]. simpl in Hb, Hn. subst b1 n1.
    intros Hrest. apply IH in Hrest as [-> ->].
    rewrite length_app, app_assoc. split; [done | lia].
Qed.

Lemma nearby_edges_elem (G : MultiDiGraph) (major blocked : list edge_id)
    (impact : Q * Q) (nearby : list (edge_id * Q)) :
  nearby_edges G major blocked impact = Ok nearby →
  ∀ x, x ∈ nearby → x.1 ∈ major ∧ x.1 ∉ blocked.
Proof.
  revert nearby. induction major as [|edge rest IH]; intros nearby; simpl.
  - intros [= <-] x Hx. by apply not_elem_of_nil in Hx.
  - case_bool_decide as Hb.
    + intros Hrest x Hx. destruct (IH _ Hrest x Hx). split; [by right | done].
    + destruct (midpoint G edge) as [mid|e]; [|done].
      destruct (nearby_edges G rest blocked impact) as [tl|e]; [|done].
      assert (Htl : ∀ x, x ∈ tl → x.1 ∈ edge :: rest ∧ x.1 ∉ blocked).
      { intros x Hx. destruct (IH tl eq_refl x Hx). split; [by right | done]. }
      destruct (Qle_bool _ _); intros [= <-] x Hx; [|by apply Htl].
      apply elem_of_cons in Hx as [-> | Hx]; [|by apply Htl].
      simpl. split; [left | done].
Qed.

Lemma insert_by_dist_elem (x y : edge_id * Q) (l : list (edge_id * Q)) :
  y ∈ insert_by_dist x l ↔ y = x ∨ y ∈ l.
Proof.
  induction l as [|z l IH]; simpl.
  - rewrite list_elem_of_singleton, elem_of_nil. tauto.
  - destruct (Qltb z.2 x.2); rewrite !elem_of_cons, ?IH; tauto.
Qed.

Lemma sort_by_dist_elem (y : edge_id * Q) (l : list (edge_id * Q)) :
  y ∈ sort_by_dist l ↔ y ∈ l.
Proof.
  unfold sort_by_dist. induction l as [|x l IH]; simpl; [done|].
  rewrite insert_by_dist_elem, elem_of_cons, IH. tauto.
Qed.

(** The selected edges are major roads that were not blocked when the impact
    was processed, and there are at most [n] of them. *)
Lemma selected_edges_elem (G : MultiDiGraph) (major blocked : list edge_id)
    (impact : Q * Q) (n : nat) (selected : list edge_id) :
  selected_edges G major blocked impact n = Ok selected →
  (length selected ≤ n)%nat ∧
  ∀ e, e ∈ selected → e ∈ major ∧ e ∉ blocked.
Proof.
  unfold selected_edges.
  destruct (nearby_edges G major blocked impact) as [nearby|err] eqn:E; [|done].
  intros [= <-]. split.
  - rewrite length_fmap, length_take. lia.
  - intros e He. apply list_elem_of_fmap in He as (x & -> & Hx).
    apply elem_of_take in Hx as (i & Hx & _).
    apply list_elem_of_lookup_2 in Hx. rewrite sort_by_dist_elem in Hx.
    by apply (nearby_edges_elem G major blocked impact nearby).
Qed.

(** One impact appends to the blocked list the directions it newly blocks
    and records their number. *)
Lemma impact_step_run (G : MultiDiGraph) (major : list edge_id)
    (st st' : DamageState) (impact : Q * Q * nat) :
  impact_step G major st impact = Ok st' →
  ∃ selected,
    selected_edges G major (blocked_edges st) (impact.1.1, impact.1.2) impact.2
    = Ok selected ∧
    blocked_edges st'
    = blocked_edges st ++ newly_blocked_all G (blocked_edges st) selected ∧
    impact_zones st'
    = impact_zones st ++
      [{| zone_lat := impact.1.1; zone_lon := impact.1.2;
          roads_damaged := length (newly_blocked_all G (blocked_edges st) selected) |}].
Proof.
  destruct impact as [[lat lon] n]. unfold impact_step. cbn [fst snd].
  destruct (selected_edges G major (blocked_edges st) (lat, lon) n)
    as [selected|e]; [|done].
  destruct (block_selected G selected _) as [[[b c] k]|e] eqn:E; [|done].
  apply block_selected_run in E as [Hb Hk]. simpl in Hb, Hk. subst b k.
  intros [= <-]. exists selected. done.
Qed.

Lemma impact_loop_app (G : MultiDiGraph) (major : list edge_id)
    (l1 l2 : list (Q * Q * nat)) (st : DamageState) :
  impact_loop G major (l1 ++ l2) st
  = let? st1 := impact_loop G major l1 st in impact_loop G major l2 st1.
Proof.
  revert st. induction l1 as [|imp l1 IH]; intros st; simpl; [done|].
  destruct (impact_step G major st imp); [apply IH | done].
Qed.

(** Over a run of the loop the blocked list only grows and stays free of
    duplicates, and one zone is recorded per impact. *)
Lemma impact_loop_grows (G : MultiDiGraph) (major : list edge_id)
    (impacts : list (Q * Q * nat)) (st st' : DamageState) :
  impact_loop G major impacts st = Ok st' →
  NoDup (blocked_edges st) →
  NoDup (blocked_edges st') ∧
  (∃ later, blocked_edges st' = blocked_edges st ++ later) ∧
  (∃ zones, impact_zones st' = impact_zones st ++ zones ∧
            length zones = length impacts).
Proof.
  revert st. induction impacts as [|imp rest IH]; intros st; simpl.
  - intros [= <-] Hnd. split; [done|]. split; exists []; by rewrite app_nil_r.
  - destruct (impact_step G major st imp) as [st1|e] eqn:E; [|done].
    intros Hrest Hnd.
    destruct (impact_step_run G major st st1 imp E) as (sel & _ & Hb & Hz).
    destruct (IH st1 Hrest) as (Hnd' & (later & Hl) & (zones & Hzs & Hlen)).
    { rewrite Hb. by apply newly_blocked_all_NoDup. }
    split; [done|]. split.
    + eexists. rewrite Hl, Hb, <- app_assoc. done.
    + eexists. rewrite Hzs, Hz, <- app_assoc. split; [done|]. simpl. by rewrite Hlen.
Qed.

(** The damage loop raises nothing when the major roads are known. *)
Lemma nearby_edges_total (G : MultiDiGraph) (major all blocked : list edge_id)
    (impact : Q * Q) :
  major_roads_known G all → major ⊆ all →
  ∃ nearby, nearby_edges G major blocked impact = Ok nearby.
Proof.
  intros Hknown. induction major as [|edge rest IH]; intros Hsub; simpl; [eauto|].
  destruct IH as [tl Htl]; [intros x Hx; apply Hsub; by right|]. rewrite Htl.
  case_bool_decide; [eauto|].
  destruct (Hknown edge) as [[mid Hmid] _]; [apply Hsub; left|].
  rewrite Hmid. eauto.
Qed.

Lemma block_selected_total (G : MultiDiGraph) (major selected : list edge_id)
    (st : list edge_id * list (list (Q * Q)) * nat) :
  major_roads_known G major → selected ⊆ major →
  ∃ st', block_selected G selected st = Ok st'.
Proof.
  intros Hknown. revert st.
  induction selected as [|edge rest IH]; intros st Hsub; simpl; [eauto|].
  destruct (Hknown edge) as [_ [geometry Hgeo]]; [apply Hsub; left|].
  assert (Hstep : ∃ st1, block_edge G st edge = Ok st1).
  { destruct st as [[b c] k], edge as [[u v] key]. unfold block_edge.
    rewrite Hgeo. case_bool_decide; destruct (_ && _); eauto. }
  destruct Hstep as [st1 ->]. apply IH. intros x Hx. apply Hsub. by right.
Qed.

Lemma impact_loop_total (G : MultiDiGraph) (major : list edge_id)
    (impacts : list (Q * Q * nat)) (st : DamageState) :
  major_roads_known G major →
  ∃ st', impact_loop G major impacts st = Ok st'.
Proof.
  intros Hknown. revert st.
  induction impacts as [|[[lat lon] n] rest IH]; intros st; cbn [impact_loop];
    [eauto|].
  assert (Hstep : ∃ st1, impact_step G major st (lat, lon, n) = Ok st1).
  { unfold impact_step.
    destruct (nearby_edges_total G major major (blocked_edges st) (lat, lon))
      as [nearby Hnear]; [done..|].
    assert (Hsel : selected_edges G major (blocked_edges st) (lat, lon) n
                   = Ok (take n (sort_by_dist nearby)).*1).
    { unfold selected_edges. by rewrite Hnear. }
    rewrite Hsel.
    destruct (block_selected_total G major (take n (sort_by_dist nearby)).*1
                (blocked_edges st, blocked_edges_coords st, 0%nat))
      as [[[b c] k] Hrun]; [done| |].
    - intros e He. by apply (selected_edges_elem _ _ _ _ _ _ Hsel).
    - rewrite Hrun. eauto. }
  destruct Hstep as [st1 ->]. apply IH.
Qed.

(** C6. In a damage event, for every impact processed the zone recorded for
    it carries the number of directions that this impact newly blocked, where
    the newly blocked directions are the selected edges (none of which was
    blocked before the impact) and the reverses of selected edges that the
    network has and that were not blocked before.  The edges selected by the
    impact are major roads that no earlier impact of the event had blocked,
    and the blocked list never holds a direction twice. *)
Theorem impact_damage_count (G : MultiDiGraph) (major : list edge_id)
    (pre post : list (Q * Q * nat)) (impact : Q * Q * nat)
    (before final : DamageState) :
  major ≠ [] →
  block_roads G major (pre ++ impact :: post) before = Ok final →
  ∃ (st : DamageState) (selected new : list edge_id),
    impact_loop G major pre no_damage = Ok st ∧
    selected_edges G major (blocked_edges st) (impact.1.1, impact.1.2) impact.2
    = Ok selected ∧
    (∀ e, e ∈ selected → e ∈ major ∧ e ∉ blocked_edges st) ∧
    (∀ e, e ∈ new ↔
          (e ∉ blocked_edges st) ∧
          (e ∈ selected ∨ (reverse_id e ∈ selected ∧ has_edge_id G e = true))) ∧
    NoDup new ∧
    (∃ later, blocked_edges final = blocked_edges st ++ new ++ later) ∧
    NoDup (blocked_edges final) ∧
    impact_zones final !! length pre
    = Some {| zone_lat := impact.1.1; zone_lon := impact.1.2;
              roads_damaged := length new |}.
Proof.
  intros Hmajor Hrun. unfold block_roads in Hrun.
  destruct major as [|m0 major']; [done|]. set (major := m0 :: major') in *.
  rewrite impact_loop_app in Hrun.
  destruct (impact_loop G major pre no_damage) as [st|e] eqn:Hpre; [|done].
  simpl in Hrun.
  destruct (impact_step G major st impact) as [st1|e] eqn:Hstep; [|done].
  destruct (impact_loop_grows G major pre no_damage st Hpre)
    as (Hnd & _ & (zones & Hzones & Hlen)); [apply NoDup_nil_2|].
  destruct (impact_step_run G major st st1 impact Hstep) as (selected & Hsel & Hb & Hz).
  pose proof (newly_blocked_all_NoDup G selected (blocked_edges st) Hnd) as Hnd1.
  destruct (impact_loop_grows G major post st1 final Hrun)
    as (Hnd' & (later & Hlater) & (zones' & Hzones' & _)); [by rewrite Hb|].
  exists st, selected, (newly_blocked_all G (blocked_edges st) selected).
  split; [done|]. split; [done|].
  split; [apply (selected_edges_elem _ _ _ _ _ _ Hsel)|].
  split; [intros e; apply newly_blocked_all_elem|].
  split; [by apply NoDup_app in Hnd1 as (_ & _ & ?)|].
  split; [exists later; by rewrite Hlater, Hb, <- app_assoc|].
  split; [done|].
  rewrite Hzones', Hz, Hzones. simpl. rewrite <- Hlen, <- !app_assoc.
  rewrite lookup_app_r by lia. by rewrite Nat.sub_diag.
Qed.

(** The street hit twice at its midpoint.  The first impact selects one edge
    and blocks it together with its reverse; the second finds no candidate. *)
Lemma impact_damage_count_witness :
  ∃ final,
    block_roads street [(1, 2, 0); (2, 1, 0)]
                ([] ++ (0%Q, (1 # 2)%Q, 1%nat) :: [(0%Q, (1 # 2)%Q, 3%nat)]) no_damage
    = Ok final ∧
    roads_damaged <$> impact_zones final = [2%nat; 0%nat] ∧
    ∃ (st : DamageState) (selected new : list edge_id),
      impact_loop street [(1, 2, 0); (2, 1, 0)] [] no_damage = Ok st ∧
      selected_edges street [(1, 2, 0); (2, 1, 0)] (blocked_edges st)
                     (0%Q, (1 # 2)%Q) 1%nat = Ok selected ∧
      (∀ e, e ∈ selected → e ∈ [(1, 2, 0); (2, 1, 0)] ∧ e ∉ blocked_edges st) ∧
      (∀ e, e ∈ new ↔
            (e ∉ blocked_edges st) ∧
            (e ∈ selected ∨ (reverse_id e ∈ selected ∧ has_edge_id street e = true))) ∧
      NoDup new ∧
      (∃ later, blocked_edges final = blocked_edges st ++ new ++ later) ∧
      NoDup (blocked_edges final) ∧
      impact_zones final !! length ([] : list (Q * Q * nat))
      = Some {| zone_lat := 0%Q; zone_lon := (1 # 2)%Q; roads_damaged := length new |}.
Proof.
  eexists. split; [vm_compute; reflexivity|]. split; [reflexivity|].
  apply (impact_damage_count street [(1, 2, 0); (2, 1, 0)] []
           [(0%Q, (1 # 2)%Q, 3%nat)] (0%Q, (1 # 2)%Q, 1%nat) no_damage).
  - done.
  - vm_compute. reflexivity.
Defined.

(** On the example networks every major road is known, so the damage loop
    returns. *)
Example street_damage_returns (impacts : list (Q * Q * nat)) :
  ∃ final, block_roads street [(1, 2, 0); (2, 1, 0)] impacts no_damage = Ok final.
Proof.
  apply impact_loop_total. intros edge Hedge.
  apply elem_of_cons in Hedge as [-> | Hedge];
    [|apply list_elem_of_singleton in Hedge as ->];
    (split; eexists; vm_compute; reflexivity).
Qed.

(** * Further properties *)

(** ** Route metrics: errors, composition, bounds *)

Lemma metrics_loop_unlinked (G : MultiDiGraph) (route : list node) (acc : Q * Q) :
  linked G route = false → metrics_loop G route acc = Error KeyError.
Proof.
  revert acc. induction route as [|u [|v tl] IH]; intros acc Hl; [done..|].
  change (metrics_loop G (u :: v :: tl) acc)
    with (match metrics_step G acc u v with
          | Error e => Error e
          | Ok acc' => metrics_loop G (v :: tl) acc'
          end).
  simpl in Hl. destruct (Graph.has_edge_uv G u v) eqn:Huv.
  - destruct (select_edge_joined G u v Huv) as (e & He & _).
    unfold metrics_step. rewrite He. by apply IH.
  - unfold metrics_step, select_edge, Graph.adj.
    unfold Graph.has_edge_uv in Huv. apply bool_decide_eq_false in Huv.
    apply dec_stable in Huv. by rewrite Huv.
Qed.

(** The metrics raise [KeyError], and nothing else, exactly when two
    consecutive nodes of the route are joined by no edge; an empty or
    one-node route always has metrics. *)
Theorem metrics_raise_key_error (G : MultiDiGraph) (route : list node) :
  (linked G route = true ↔ ∃ d tm, calculate_route_metrics G route = Ok (d, tm)) ∧
  (linked G route = false ↔ calculate_route_metrics G route = Error KeyError) ∧
  (∀ e, calculate_route_metrics G route = Error e → e = KeyError).
Proof.
  assert (Hbad : linked G route = false →
                 calculate_route_metrics G route = Error KeyError).
  { intros Hl. unfold calculate_route_metrics.
    by rewrite metrics_loop_unlinked. }
  destruct (linked G route) eqn:Hl.
  - destruct (metrics_total G route Hl) as (d & tm & Hm).
    split; [split; eauto|]. split; [|intros e; by rewrite Hm].
    rewrite Hm. split; done.
  - specialize (Hbad eq_refl). rewrite Hbad.
    split; [split; [done | by intros (d & tm & ?)]|].
    split; [done | by intros e [= <-]].
Qed.










(** ** The choice among parallel edges *)

Lemma key_lt_false (a b : option Q) : key_lt a b = false ↔ key_le b a.
Proof.
  rewrite <- not_true_iff_false, key_lt_spec.
  destruct (key_le_dec b a); tauto.
Qed.

Lemma key_lt_le_trans (a b c : option Q) :
  key_lt a b = true → key_le b c → key_lt a c = true.
Proof.
  rewrite !key_lt_spec. intros Hab Hbc Hca. apply Hab.
  by apply (key_le_trans _ c).
Qed.

Lemma key_lt_trans (a b c : option Q) :
  key_lt a b = true → key_lt b c = true → key_lt a c = true.
Proof.
  intros Hab Hbc. apply (key_lt_le_trans a b c); [done|].
  apply key_lt_spec in Hbc. destruct (key_le_total b c); tauto.
Qed.

(** Python's [min] keeps the first of the elements whose key is least: the
    elements before it have a strictly larger key. *)
Lemma py_min_first {A : Type} (f : A → option Q) (xs : list A) (x : A) :
  py_min f xs = Ok x →
  ∃ before after, xs = before ++ x :: after ∧
    Forall (λ y, key_lt (f x) (f y) = true) before ∧
    Forall (λ y, key_le (f x) (f y)) after.
Proof.
  destruct xs as [|x0 rest]; simpl; [done|]. intros [= <-].
  assert (Hgen : ∀ l before b after,
    Forall (λ y, key_lt (f b) (f y) = true) before →
    Forall (λ y, key_le (f b) (f y)) after →
    ∃ before' after',
      before ++ b :: after ++ l
      = before' ++ fold_left (λ best c, if key_lt (f c) (f best) then c else best) l b
                :: after' ∧
      Forall (λ y, key_lt
                     (f (fold_left (λ best c, if key_lt (f c) (f best) then c else best)
                                   l b)) (f y) = true) before' ∧
      Forall (λ y, key_le
                     (f (fold_left (λ best c, if key_lt (f c) (f best) then c else best)
                                   l b)) (f y)) after').
  { induction l as [|c l IH]; intros before b after Hb Ha.
    - exists before, after. by rewrite app_nil_r.
    - cbn [fold_left]. destruct (key_lt (f c) (f b)) eqn:E.
      + destruct (IH (before ++ b :: after) c []) as (b' & a' & Heq & ? & ?).
        * apply Forall_app. split; [|apply Forall_cons; split].
          -- eapply Forall_impl; [exact Hb|]. intros y Hy. simpl in Hy.
             by apply (key_lt_trans _ (f b)).
          -- done.
          -- eapply Forall_impl; [exact Ha|]. intros y Hy. simpl in Hy.
             by apply (key_lt_le_trans _ (f b)).
        * constructor.
        * exists b', a'. split; [|done].
          rewrite <- Heq. by rewrite <- !app_assoc.
      + destruct (IH before b (after ++ [c])) as (b' & a' & Heq & ? & ?).
        * done.
        * apply Forall_app. split; [done|]. apply Forall_singleton.
          by apply key_lt_false.
        * exists b', a'. split; [|done].
          rewrite <- Heq. by rewrite <- !app_assoc. }
  destruct (Hgen rest [] x0 []) as (b' & a' & Heq & ? & ?); [constructor..|].
  exists b', a'. done.
Qed.

(** Among the parallel edges that join a pair, the metrics take the first,
    in the order of the edge table, of those of least length: every parallel
    edge before it is strictly longer, none after it is shorter.  The class of
    that edge decides the speed. *)
Theorem select_edge_first_of_least (G : MultiDiGraph) (u v : node) (e : Edge) :
  select_edge G u v = Ok e →
  ∃ before after,
    Graph.between G u v = before ++ e :: after ∧
    Forall (λ e', key_lt (length_key (e_data e)) (length_key (e_data e')) = true)
           before ∧
    Forall (λ e', key_le (length_key (e_data e)) (length_key (e_data e'))) after.
Proof.
  unfold select_edge, Graph.adj.
  destruct (Graph.between G u v) as [|e0 es] eqn:E; [done|].
  intros Hmin. by apply py_min_first in Hmin.
Qed.

Lemma select_edge_first_of_least_witness :
  ∃ before after,
    Graph.between parallel_roads 1 2
    = before ++ plain_edge 1 2 1 400 "primary" :: after ∧
    Forall (λ e', key_lt (length_key (e_data (plain_edge 1 2 1 400 "primary")))
                         (length_key (e_data e')) = true) before ∧
    Forall (λ e', key_le (length_key (e_data (plain_edge 1 2 1 400 "primary")))
                         (length_key (e_data e'))) after.
Proof.
  apply (select_edge_first_of_least parallel_roads 1 2). reflexivity.
Defined.

(** ** The graph of the alternative search *)

Lemma foldl_drop_id_edges (ids : list edge_id) (W : MultiDiGraph) :
  foldl drop_id W ids
  = {| nodes := nodes W; edges := filter (λ e, id_of e ∉ ids) (edges W) |}.
Proof.
  revert W. induction ids as [|i ids IH]; intros W; simpl.
  - apply graph_eq; [done|]. simpl. symmetry. apply filter_all.
    intros e _. apply not_elem_of_nil.
  - rewrite IH. apply graph_eq; [done|]. simpl. rewrite list_filter_filter.
    apply list_filter_iff. intros e. rewrite not_elem_of_cons. tauto.
Qed.

Lemma foldl_drop_pair_edges (pairs : list (node * node)) (W : MultiDiGraph) :
  foldl drop_pair W pairs
  = {| nodes := nodes W;
       edges := filter (λ e, (e_u e, e_v e) ∉ pairs) (edges W) |}.
Proof.
  revert W. induction pairs as [|uv pairs IH]; intros W; simpl.
  - apply graph_eq; [done|]. simpl. symmetry. apply filter_all.
    intros e _. apply not_elem_of_nil.
  - rewrite IH. apply graph_eq; [done|]. simpl. rewrite list_filter_filter.
    apply list_filter_iff. intros e. rewrite not_elem_of_cons. tauto.
Qed.

(** Removing every key of [graph[u][v]] leaves no edge from [u] to [v]. *)
Lemma drop_keys_between (W : MultiDiGraph) (u v : node) :
  foldl drop_id W ((λ key, (u, v, key)) <$> (e_key <$> Graph.between W u v))
  = drop_pair W (u, v).
Proof.
  rewrite foldl_drop_id_edges. apply graph_eq; [done|]. simpl.
  apply filter_agree. intros e He. split.
  - intros Hnot [= Hu Hv]. apply Hnot.
    apply list_elem_of_fmap. exists (e_key e). split.
    + unfold id_of. by rewrite Hu, Hv.
    + apply list_elem_of_fmap. exists e. split; [done|]. by apply between_elem.
  - intros Hne Hin. apply list_elem_of_fmap in Hin as (key & Hid & _).
    apply Hne. unfold id_of in Hid. by injection Hid as -> -> _.
Qed.

Lemma run_remove_keys (g : ref) (u v : node) (keys : list edge_key)
    (h h' : store) (W : MultiDiGraph) :
  h !! g = Some W →
  for_each keys (λ key, remove_edge g u v key) h = (h', Ok ()) →
  h' = <[g := foldl drop_id W ((λ key, (u, v, key)) <$> keys)]> h.
Proof.
  revert h W. induction keys as [|key keys IH]; intros h W Hg; simpl.
  - intros [= <-]. by rewrite list_insert_id.
  - unfold bind at 1. unfold remove_edge at 1.
    rewrite (run_deref h g W) by done. unfold bind at 1, lift, Graph.remove_edge.
    destruct (Graph.has_edge W u v key); [|done].
    unfold assign. intros Hrest.
    apply (IH _ (drop_id W (u, v, key))) in Hrest.
    + by rewrite list_insert_insert_eq in Hrest.
    + apply list_lookup_insert_eq. by eapply lookup_lt_Some.
Qed.

(** One turn of the loop of lines 69-73, when it raises nothing. *)
Lemma run_remove_middle_step (g : ref) (path : list node) (i : nat)
    (h h' : store) (W : MultiDiGraph) :
  h !! g = Some W →
  (let* u := index path i in
   let* v := index path (i + 1) in
   let* b := has_edge_uv g u v in
   if b
   then let* keys := adj_keys g u v in
        for_each keys (λ key, remove_edge g u v key)
   else ret ()) h = (h', Ok ()) →
  ∃ uv, pair_at path i = Some uv ∧ h' = <[g := drop_pair W uv]> h.
Proof.
  intros Hg. unfold pair_at, index.
  destruct (path !! i) as [u|]; [|done].
  destruct (path !! (i + 1)%nat) as [v|]; [|done].
  unfold bind at 1, ret at 1. unfold bind at 1, ret at 1.
  unfold bind at 1, has_edge_uv. rewrite (run_deref h g W) by done.
  unfold ret at 1.
  destruct (Graph.has_edge_uv W u v) eqn:Huv.
  - unfold bind at 1, adj_keys. rewrite (run_deref h g W) by done.
    unfold bind at 1, lift, Graph.adj.
    destruct (Graph.between W u v) as [|e0 es] eqn:E; [done|].
    unfold ret at 1. intros Hrun. exists (u, v). split; [done|].
    apply (run_remove_keys g u v _ h h' W Hg) in Hrun.
    by rewrite Hrun, <- E, drop_keys_between.
  - intros [= <-]. exists (u, v). split; [done|].
    rewrite list_insert_id; [done|]. rewrite Hg. f_equal.
    apply graph_eq; [done|]. simpl. symmetry. apply filter_all.
    intros e He [= Hu Hv]. apply not_true_iff_false in Huv. apply Huv.
    apply has_edge_uv_spec. by exists e.
Qed.

(** When the loop of lines 69-73 raises nothing, it leaves in [graph_alt]
    the graph without any edge along the middle of the path. *)
Lemma run_remove_middle (g : ref) (path : list node) (h h' : store)
    (W : MultiDiGraph) :
  h !! g = Some W →
  remove_middle g path h = (h', Ok ()) →
  h' = <[g := cut_middle W path]> h.
Proof.
  unfold remove_middle, cut_middle, middle_pairs.
  generalize (seq (length path / 3)
                  (Nat.min (2 * length path / 3) (length path - 1) - length path / 3)).
  intros indices. rewrite <- foldl_drop_pair_edges.
  revert h W. induction indices as [|i indices IH]; intros h W Hg.
  - simpl. intros [= <-]. by rewrite list_insert_id.
  - cbn [for_each]. unfold bind at 1.
    destruct ((let* u := index path i in
               let* v := index path (i + 1) in
               let* b := has_edge_uv g u v in
               if b
               then let* keys := adj_keys g u v in
                    for_each keys (λ key, remove_edge g u v key)
               else ret ()) h) as [h1 [[]|e]] eqn:Hstep; [|done].
    destruct (run_remove_middle_step g path i h h1 W Hg Hstep) as (uv & Hpair & ->).
    intros Hrest. apply (IH _ (drop_pair W uv)) in Hrest.
    + rewrite list_insert_insert_eq in Hrest. cbn [omap list_omap]. rewrite Hpair.
      done.
    + apply list_lookup_insert_eq. by eapply lookup_lt_Some.
Qed.

(** A path of more than ten nodes has a pair in its middle, and every middle
    pair is a consecutive pair of the path. *)
Lemma pair_at_consecutive (path : list node) (i : nat) (uv : node * node) :
  pair_at path i = Some uv → uv ∈ consecutive path.
Proof.
  revert i. induction path as [|a [|b tl] IH]; intros i; unfold pair_at.
  - done.
  - destruct i; simpl; done.
  - destruct i as [|i].
    + simpl. intros [= <-]. left.
    + intros Hp. right. apply (IH i). exact Hp.
Qed.

Lemma middle_pairs_consecutive (path : list node) (uv : node * node) :
  uv ∈ middle_pairs path → uv ∈ consecutive path.
Proof.
  unfold middle_pairs. intros Hin.
  apply list_elem_of_omap in Hin as (i & _ & Hp). by apply (pair_at_consecutive _ i).
Qed.

Lemma middle_pairs_nonempty (path : list node) :
  (10 < length path)%nat → ∃ uv, uv ∈ middle_pairs path.
Proof.
  intros Hlen. unfold middle_pairs.
  assert (Hms : (length path / 3 + 1 < length path)%nat).
  { pose proof (Nat.div_mod_eq (length path) 3) as Hd.
    pose proof (Nat.mod_upper_bound (length path) 3). lia. }
  assert (Hcount : (0 < Nat.min (2 * length path / 3) (length path - 1)
                        - length path / 3)%nat).
  { pose proof (Nat.div_mod_eq (length path) 3) as Hd.
    pose proof (Nat.mod_upper_bound (length path) 3).
    pose proof (Nat.div_mod_eq (2 * length path) 3) as Hd2.
    pose proof (Nat.mod_upper_bound (2 * length path) 3). lia. }
  destruct (lookup_lt_is_Some_2 path (length path / 3)) as [u Hu]; [lia|].
  destruct (lookup_lt_is_Some_2 path (length path / 3 + 1)) as [v Hv]; [lia|].
  exists (u, v). apply list_elem_of_omap. exists (length path / 3)%nat. split.
  - apply elem_of_seq. lia.
  - unfold pair_at. by rewrite Hu, Hv.
Qed.

Lemma cut_middle_subgraph (W : MultiDiGraph) (path : list node) :
  subgraph (cut_middle W path) W.
Proof.
  split; [done|]. simpl. intros e He.
  by apply (list_elem_of_filter (λ e, (e_u e, e_v e) ∉ middle_pairs path)) in He
    as [_ ?].
Qed.

(** No walk of the cut graph goes through a middle pair. *)
Lemma cut_middle_linked (W : MultiDiGraph) (path p : list node) (uv : node * node) :
  linked (cut_middle W path) p = true → uv ∈ middle_pairs path →
  uv ∉ consecutive p.
Proof.
  intros Hl Hmid Hin. destruct uv as [u v].
  assert (Hjoin : Graph.has_edge_uv (cut_middle W path) u v = true).
  { clear Hmid. induction p as [|a [|b tl] IH]; simpl in *.
    - by apply not_elem_of_nil in Hin.
    - by apply not_elem_of_nil in Hin.
    - apply andb_true_iff in Hl as [Hab Htl].
      apply elem_of_cons in Hin as [[= -> ->] | Hin]; [done | by apply IH]. }
  apply has_edge_uv_spec in Hjoin as (e & He & <- & <-).
  by apply (list_elem_of_filter (λ e, (e_u e, e_v e) ∉ middle_pairs path)) in He
    as [? _].
Qed.

(** ** More on [find_routes] *)

(** The blocked list matters only through the edges of the network that it
    names, in one direction or the other. *)
Lemma working_graph_same_edges (G : MultiDiGraph) (b1 b2 : list edge_id) :
  (∀ e, e ∈ edges G →
        (id_of e ∈ b1 ∨ reverse_id (id_of e) ∈ b1) ↔
        (id_of e ∈ b2 ∨ reverse_id (id_of e) ∈ b2)) →
  working_graph G b1 = working_graph G b2.
Proof.
  intros Hsame. apply graph_eq; [done|]. simpl. apply filter_agree.
  intros e He. specialize (Hsame e He).
  destruct (decide (id_of e ∈ b1)), (decide (reverse_id (id_of e) ∈ b1)),
    (decide (id_of e ∈ b2)), (decide (reverse_id (id_of e) ∈ b2)); tauto.
Qed.

Section FindRoutesMore.

Variable nearest_nodes : MultiDiGraph → Q → Q → result node exn.
Variable shortest_path : MultiDiGraph → node → node → result (list node) exn.

Hypothesis shortest_path_walk : ∀ G s t p,
  shortest_path G s t = Ok p → is_walk G s t p = true.

(** The order of the blocked list, its repetitions, the direction in which an
    entry names a two-way street and the entries that name no edge of the
    network are all immaterial: two blocked lists that name the same edges of
    the network, in either direction, give the same result and the same
    graphs. *)
Theorem find_routes_blocked_as_set (h : store) (g : ref) (G : MultiDiGraph)
    (start_lat start_lon end_lat end_lon : Q) (b1 b2 : list edge_id) :
  h !! g = Some G →
  (∀ e, e ∈ edges G →
        (id_of e ∈ b1 ∨ reverse_id (id_of e) ∈ b1) ↔
        (id_of e ∈ b2 ∨ reverse_id (id_of e) ∈ b2)) →
  find_routes nearest_nodes shortest_path g start_lat start_lon end_lat end_lon b1 h
  = find_routes nearest_nodes shortest_path g start_lat start_lon end_lat end_lon b2 h.
Proof.
  intros Hg Hsame.
  destruct (nearest_nodes G start_lon start_lat) as [s|e] eqn:Hs.
  - destruct (nearest_nodes G end_lon end_lat) as [t|e] eqn:Ht.
    + rewrite !(find_routes_run _ _ h g G _ _ _ _ _ s t Hg Hs Ht).
      by rewrite (working_graph_same_edges G b1 b2).
    + by rewrite !(find_routes_unresolved_end _ _ h g G _ _ _ _ _ s e).
  - by rewrite !(find_routes_unresolved_start _ _ h g G _ _ _ _ _ e).
Qed.

(** The alternative phase on a path of more than ten nodes, when it raises
    nothing: the graph it allocates is the working graph without the middle
    of the path. *)
Lemma alternative_phase_exact (h h' : store) (g : ref) (W : MultiDiGraph)
    (s t : node) (path : list node) (routes routes' : list Route) :
  h !! g = Some W → (10 < length path)%nat →
  alternative_phase shortest_path g s t path routes h = (h', Ok routes') →
  h' = h ++ [cut_middle W path] ∧
  alternative_result shortest_path W (cut_middle W path) s t path routes = Ok routes'.
Proof.
  intros Hg Hlen. unfold alternative_phase.
  rewrite bool_decide_eq_true_2 by lia.
  rewrite (run_bind _ _ h (h ++ [W]) (length h)) by (by apply run_copy).
  assert (Hlast : (h ++ [W]) !! length h = Some W)
    by (by rewrite lookup_app_r, Nat.sub_diag).
  unfold bind at 1.
  destruct (remove_middle (length h) path (h ++ [W])) as [h2 [[]|e]] eqn:Hrm;
    [|done].
  apply (run_remove_middle _ _ _ _ W Hlast) in Hrm.
  rewrite insert_app_r_alt, Nat.sub_diag in Hrm by lia. simpl in Hrm. subst h2.
  set (A := cut_middle W path).
  assert (Hrun : try_except
            (let* alt_path := shortest_path_in shortest_path (length h) s t in
             if bool_decide (alt_path ≠ path)
             then let* (distance, time) := route_metrics g alt_path in
                  ret (routes ++ [alternative_route alt_path distance time])
             else ret routes)
            NetworkXNoPath (ret routes) (h ++ [A])
          = (h ++ [A], alternative_result shortest_path W A s t path routes)).
  { unfold alternative_result. apply run_try_except. unfold bind.
    rewrite (run_shortest_path_in _ _ (length h) A)
      by (by rewrite lookup_app_r, Nat.sub_diag).
    destruct (shortest_path A s t) as [alt_path|e]; [|done].
    destruct (bool_decide (alt_path ≠ path)); [|done].
    rewrite (run_route_metrics _ g W) by (by apply lookup_app_l_Some).
    by destruct (calculate_route_metrics W alt_path) as [[d tm]|e]. }
  rewrite Hrun. by intros [= <- <-].
Qed.

(** What [find_routes] returns, case by case. *)
Lemma find_routes_cases (h : store) (g : ref) (G : MultiDiGraph)
    (start_lat start_lon end_lat end_lon : Q) (blocked : list edge_id)
    (routes : list Route) :
  h !! g = Some G →
  (find_routes nearest_nodes shortest_path g start_lat start_lon end_lat end_lon
               blocked h).2 = Ok routes →
  let W := working_graph G blocked in
  ∃ s t,
    nearest_nodes G start_lon start_lat = Ok s ∧
    nearest_nodes G end_lon end_lat = Ok t ∧
    ((routes = [] ∧ shortest_path W s t = Error NetworkXNoPath) ∨
     ∃ path d tm,
       shortest_path W s t = Ok path ∧
       calculate_route_metrics W path = Ok (d, tm) ∧
       ((routes = [fastest_route path d tm] ∧
         ((length path ≤ 10)%nat ∨
          shortest_path (cut_middle W path) s t = Error NetworkXNoPath)) ∨
        ∃ alt_path d' tm',
          (10 < length path)%nat ∧
          shortest_path (cut_middle W path) s t = Ok alt_path ∧
          calculate_route_metrics W alt_path = Ok (d', tm') ∧
          routes = [fastest_route path d tm; alternative_route alt_path d' tm'])).
Proof.
  intros Hg Hres. simpl.
  destruct (nearest_nodes G start_lon start_lat) as [s|e] eqn:Hs;
    [|by rewrite (find_routes_unresolved_start _ _ h g G _ _ _ _ _ e) in Hres].
  destruct (nearest_nodes G end_lon end_lat) as [t|e] eqn:Ht;
    [|by rewrite (find_routes_unresolved_end _ _ h g G _ _ _ _ _ s e) in Hres].
  exists s, t. split; [done|]. split; [done|].
  rewrite (find_routes_run _ _ h g G _ _ _ _ blocked s t Hg Hs Ht) in Hres.
  simpl in Hres. unfold fastest_result, on_no_path in Hres.
  set (W := working_graph G blocked) in *.
  destruct (shortest_path W s t) as [path|e] eqn:Hsp;
    [|destruct e; try done; injection Hres as <-; by left].
  pose proof (is_walk_linked _ _ _ _ (shortest_path_walk _ _ _ _ Hsp)) as Hl.
  destruct (metrics_total W path Hl) as (d & tm & Hm). rewrite Hm in Hres.
  right. exists path, d, tm. split; [done|]. split; [done|].
  destruct (decide (10 < length path)%nat) as [Hlen|Hlen].
  - destruct (alternative_phase shortest_path (length h) s t path
                [fastest_route path d tm] (h ++ [W])) as [h' r] eqn:Halt.
    simpl in Hres. subst r.
    apply (alternative_phase_exact _ _ _ W) in Halt as [_ Halt];
      [|by rewrite lookup_app_r, Nat.sub_diag | done].
    unfold alternative_result, on_no_path in Halt.
    destruct (shortest_path (cut_middle W path) s t) as [alt|e] eqn:Hsp';
      [|destruct e; try done; injection Halt as <-; left; split; [done | by right]].
    pose proof (is_walk_linked _ _ _ _ (shortest_path_walk _ _ _ _ Hsp')) as Hl'.
    assert (Hne : alt ≠ path).
    { intros ->. destruct (middle_pairs_nonempty path Hlen) as [uv Huv].
      apply (cut_middle_linked W path path uv Hl' Huv).
      by apply middle_pairs_consecutive. }
    rewrite bool_decide_eq_true_2 in Halt by done.
    destruct (metrics_total W alt) as (d' & tm' & Hm').
    { by apply (subgraph_linked (cut_middle W path)); [apply cut_middle_subgraph|]. }
    rewrite Hm' in Halt. injection Halt as <-.
    right. exists alt, d', tm'. done.
  - rewrite alternative_phase_short in Hres by lia. injection Hres as <-.
    left. split; [done|]. left. lia.
Qed.

(** [find_routes] returns at most two routes: the fastest first, then the
    alternative.  The path of each of them is a walk of the road network that
    starts at the node nearest to the start coordinates and ends at the node
    nearest to the end coordinates. *)
Theorem find_routes_shape (h : store) (g : ref) (G : MultiDiGraph)
    (start_lat start_lon end_lat end_lon : Q) (blocked : list edge_id)
    (routes : list Route) :
  h !! g = Some G →
  (find_routes nearest_nodes shortest_path g start_lat start_lon end_lat end_lon
               blocked h).2 = Ok routes →
  ∃ s t,
    nearest_nodes G start_lon start_lat = Ok s ∧
    nearest_nodes G end_lon end_lat = Ok t ∧
    (route_type <$> routes = [] ∨
     route_type <$> routes = ["fastest"%string] ∨
     route_type <$> routes = ["fastest"%string; "alternative"%string]) ∧
    ∀ route, route ∈ routes → is_walk G s t (route_path route) = true.
Proof.
  intros Hg Hres.
  destruct (find_routes_cases h g G _ _ _ _ blocked routes Hg Hres)
    as (s & t & Hs & Ht & Hcases).
  exists s, t. split; [done|]. split; [done|].
  assert (Hw : ∀ W p, subgraph W (working_graph G blocked) →
                      shortest_path W s t = Ok p → is_walk G s t p = true).
  { intros W p Hsub Hsp. apply (subgraph_is_walk W); [|by apply shortest_path_walk].
    apply (subgraph_trans _ (working_graph G blocked)); [done|].
    apply working_graph_subgraph. }
  destruct Hcases as [[-> _]|(path & d & tm & Hsp & _ & Hcases)].
  - split; [by left|]. intros route Hin. by apply not_elem_of_nil in Hin.
  - destruct Hcases as [[-> _]|(alt & d' & tm' & _ & Hsp' & _ & ->)].
    + split; [right; by left|]. intros route Hin.
      apply list_elem_of_singleton in Hin as ->.
      apply (Hw (working_graph G blocked)); [apply subgraph_refl | done].
    + split; [right; by right|]. intros route Hin.
      apply elem_of_cons in Hin as [-> | Hin].
      * apply (Hw (working_graph G blocked)); [apply subgraph_refl | done].
      * apply list_elem_of_singleton in Hin as ->.
        apply (Hw (cut_middle (working_graph G blocked) path));
          [apply cut_middle_subgraph | done].
Qed.

(** The alternative route leaves the middle of the fastest route: no pair of
    consecutive nodes that the fastest path has between its indices
    [len // 3] and [2 * len // 3] is a pair of consecutive nodes of the
    alternative path. *)
Theorem alternative_avoids_middle (h : store) (g : ref) (G : MultiDiGraph)
    (start_lat start_lon end_lat end_lon : Q) (blocked : list edge_id)
    (fastest alternative : Route) (uv : node * node) :
  h !! g = Some G →
  (find_routes nearest_nodes shortest_path g start_lat start_lon end_lat end_lon
               blocked h).2 = Ok [fastest; alternative] →
  uv ∈ middle_pairs (route_path fastest) →
  uv ∈ consecutive (route_path fastest) ∧ uv ∉ consecutive (route_path alternative).
Proof.
  intros Hg Hres Hmid. split; [by apply middle_pairs_consecutive|].
  destruct (find_routes_cases h g G _ _ _ _ blocked _ Hg Hres)
    as (s & t & _ & _ & Hcases).
  destruct Hcases as [[? _]|(path & d & tm & _ & _ & Hcases)]; [done|].
  destruct Hcases as [[? _]|(alt & d' & tm' & _ & Hsp' & _ & Heq)]; [done|].
  injection Heq as -> ->. simpl in *.
  apply (cut_middle_linked (working_graph G blocked) path alt uv); [|done].
  by apply shortest_path_walk, is_walk_linked in Hsp'.
Qed.

(** The test [alt_path != path] never discards anything: when [find_routes]
    returns a single route whose path has more than ten nodes, the search
    without the middle of that path found no path at all. *)
Theorem single_long_route_has_no_detour (h : store) (g : ref) (G : MultiDiGraph)
    (start_lat start_lon end_lat end_lon : Q) (blocked : list edge_id)
    (fastest : Route) :
  h !! g = Some G →
  (find_routes nearest_nodes shortest_path g start_lat start_lon end_lat end_lon
               blocked h).2 = Ok [fastest] →
  (10 < length (route_path fastest))%nat →
  ∃ s t,
    nearest_nodes G start_lon start_lat = Ok s ∧
    nearest_nodes G end_lon end_lat = Ok t ∧
    shortest_path (cut_middle (working_graph G blocked) (route_path fastest)) s t
    = Error NetworkXNoPath.
Proof.
  intros Hg Hres Hlen.
  destruct (find_routes_cases h g G _ _ _ _ blocked _ Hg Hres)
    as (s & t & Hs & Ht & Hcases).
  exists s, t. split; [done|]. split; [done|].
  destruct Hcases as [[? _]|(path & d & tm & _ & _ & Hcases)]; [done|].
  destruct Hcases as [[Heq Hwhy]|(alt & d' & tm' & _ & _ & _ & ?)]; [|done].
  injection Heq as ->. simpl in *. destruct Hwhy as [?|?]; [lia | done].
Qed.

End FindRoutesMore.

Lemma find_routes_blocked_as_set_witness :
  find_routes nearest_nodes_scan shortest_path_bf 0%nat 0 0 1 1
              [(1, 2, 0); (4, 3, 0)] [square]
  = find_routes nearest_nodes_scan shortest_path_bf 0%nat 0 0 1 1
                [(3, 4, 0); (9, 9, 9); (2, 1, 0); (3, 4, 0)] [square].
Proof.
  apply (find_routes_blocked_as_set nearest_nodes_scan shortest_path_bf
           [square] 0%nat square); [reflexivity|].
  intros e He. apply (bool_decide_unpack _).
  revert e He. apply Forall_forall. apply (bool_decide_unpack _).
  vm_compute. exact I.
Defined.

Lemma find_routes_shape_witness :
  ∃ s t,
    nearest_nodes_scan long_road 1 0 = Ok s ∧
    nearest_nodes_scan long_road 11 0 = Ok t ∧
    (route_type <$> routes_of long_road_run = [] ∨
     route_type <$> routes_of long_road_run = ["fastest"%string] ∨
     route_type <$> routes_of long_road_run
     = ["fastest"%string; "alternative"%string]) ∧
    ∀ route, route ∈ routes_of long_road_run →
             is_walk long_road s t (route_path route) = true.
Proof.
  assert (Hres : (find_routes nearest_nodes_scan shortest_path_bf 0%nat 0 1 0 11 []
                              [long_road]).2 = Ok (routes_of long_road_run))
    by (by vm_compute).
  exact (find_routes_shape nearest_nodes_scan shortest_path_bf shortest_path_bf_walk
           [long_road] 0%nat long_road 0 1 0 11 [] (routes_of long_road_run)
           eq_refl Hres).
Defined.

Lemma alternative_avoids_middle_witness :
  route_path long_road_fastest = [1; 2; 3; 4; 5; 6; 7; 8; 9; 10; 11] ∧
  route_path long_road_alternative = [1; 2; 3; 4; 20; 8; 9; 10; 11] ∧
  (5, 6) ∈ consecutive (route_path long_road_fastest) ∧
  ((5, 6) ∉ consecutive (route_path long_road_alternative)).
Proof.
  split; [by vm_compute|]. split; [by vm_compute|].
  assert (Hres : (find_routes nearest_nodes_scan shortest_path_bf 0%nat 0 1 0 11 []
                              [long_road]).2
                 = Ok [long_road_fastest; long_road_alternative])
    by (by vm_compute).
  assert (Hmid : (5, 6) ∈ middle_pairs (route_path long_road_fastest)).
  { apply (bool_decide_unpack _). vm_compute. exact I. }
  exact (alternative_avoids_middle nearest_nodes_scan shortest_path_bf
           shortest_path_bf_walk [long_road] 0%nat long_road 0 1 0 11 []
           long_road_fastest long_road_alternative (5, 6) eq_refl Hres Hmid).
Defined.

Lemma single_long_route_has_no_detour_witness :
  ∃ s t,
    nearest_nodes_scan long_road 1 0 = Ok s ∧
    nearest_nodes_scan long_road 11 0 = Ok t ∧
    shortest_path_bf
      (cut_middle (working_graph long_road [(4, 20, 0)])
                  (route_path blocked_detour_fastest)) s t
    = Error NetworkXNoPath.
Proof.
  assert (Hres : (find_routes nearest_nodes_scan shortest_path_bf 0%nat 0 1 0 11
                              [(4, 20, 0)] [long_road]).2
                 = Ok [blocked_detour_fastest])
    by (by vm_compute).
  assert (Hlen : (10 < length (route_path blocked_detour_fastest))%nat)
    by (vm_compute; lia).
  exact (single_long_route_has_no_detour nearest_nodes_scan shortest_path_bf
           shortest_path_bf_walk [long_road] 0%nat long_road 0 1 0 11 [(4, 20, 0)]
           blocked_detour_fastest eq_refl Hres Hlen).
Defined.

(** ** The exceptions of [find_routes] *)






Section FindRoutesErrors.

Variable nearest_nodes : MultiDiGraph → Q → Q → result node exn.
Variable shortest_path : MultiDiGraph → node → node → result (list node) exn.

Hypothesis shortest_path_walk : ∀ G s t p,
  shortest_path G s t = Ok p → is_walk G s t p = true.


End FindRoutesErrors.


(** ** More on the damage loop *)

Lemma newly_blocked_length (G : MultiDiGraph) (blocked : list edge_id)
    (edge : edge_id) :
  (length (newly_blocked G blocked edge) ≤ 2)%nat.
Proof.
  unfold newly_blocked. rewrite length_app.
  destruct (bool_decide (edge ∈ blocked)), (_ && _); simpl; lia.
Qed.

Lemma newly_blocked_all_length (G : MultiDiGraph) (selected blocked : list edge_id) :
  (length (newly_blocked_all G blocked selected) ≤ 2 * length selected)%nat.
Proof.
  revert blocked. induction selected as [|x rest IH]; intros blocked; simpl; [lia|].
  rewrite length_app.
  pose proof (newly_blocked_length G blocked x).
  pose proof (IH (blocked ++ newly_blocked G blocked x)). lia.
Qed.

(** An edge whose geometry can be read is an edge of the network. *)
Lemma get_edge_geometry_has_edge (G : MultiDiGraph) (edge : edge_id)
    (c : list (Q * Q)) :
  get_edge_geometry G edge = Ok c → has_edge_id G edge = true.
Proof.
  destruct edge as [[u v] key]. unfold get_edge_geometry, edge_data.
  destruct (list_find _ (edges G)) as [[i e]|] eqn:E; [|done].
  intros _. apply list_find_Some in E as (Hi & He & _).
  unfold has_edge_id. apply has_edge_spec. exists e. split; [|done].
  by apply list_elem_of_lookup_2 in Hi.
Qed.

(** The loop body in full: what it does to the blocked list, the stored
    geometries and the count. *)
Lemma block_edge_full (G : MultiDiGraph) (blocked : list edge_id)
    (coords : list (list (Q * Q))) (count : nat) (edge : edge_id)
    (st' : list edge_id * list (list (Q * Q)) * nat) :
  block_edge G (blocked, coords, count) edge = Ok st' →
  st'.1.1 = blocked ++ newly_blocked G blocked edge ∧
  (edge ∈ blocked ∧ st'.1.2 = coords ∨
   (edge ∉ blocked) ∧ ∃ c, get_edge_geometry G edge = Ok c ∧ st'.1.2 = coords ++ [c]).
Proof.
  intros Hrun. split; [by apply (block_edge_run G blocked coords count edge)|].
  revert Hrun. destruct edge as [[u v] key]. unfold block_edge.
  destruct (decide ((u, v, key) ∈ blocked)) as [Hfwd|Hfwd].
  - rewrite (bool_decide_eq_false_2 ((u, v, key) ∉ blocked)) by tauto.
    destruct (_ && _); intros [= <-]; left; done.
  - rewrite (bool_decide_eq_true_2 ((u, v, key) ∉ blocked)) by done.
    destruct (get_edge_geometry G (u, v, key)) as [c|e]; [|done].
    cbn -[Graph.has_edge].
    destruct (_ && _); intros [= <-]; right; (split; [done|]); exists c; done.
Qed.

(** What the loop over the selected edges keeps true. *)
Lemma block_edge_invariant (G : MultiDiGraph) (major blocked : list edge_id)
    (coords : list (list (Q * Q))) (count : nat) (edge : edge_id)
    (st' : list edge_id * list (list (Q * Q)) * nat) (drawn : list edge_id) :
  block_edge G (blocked, coords, count) edge = Ok st' →
  edge ∈ major →
  (∀ e, e ∈ blocked → has_edge_id G e = true) →
  drawn_as G major blocked coords drawn →
  (∀ e, e ∈ st'.1.1 → has_edge_id G e = true) ∧
  ∃ drawn', drawn_as G major st'.1.1 st'.1.2 drawn'.
Proof.
  intros Hrun Hmajor Hedges (Hgeo & Hsub & Hdm & Hcov).
  destruct (block_edge_full G blocked coords count edge st' Hrun) as [Hb Hc].
  rewrite Hb.
  assert (Hnew : ∀ e, e ∈ newly_blocked G blocked edge →
            e = edge ∧ edge ∉ blocked ∨ e = reverse_id edge ∧ has_edge_id G e = true).
  { intros e He. apply newly_blocked_elem in He as [Hnot [-> | ?]]; [left | right]; done. }
  split.
  - intros e He. apply elem_of_app in He as [He|He]; [by apply Hedges|].
    apply Hnew in He as [[-> Hnot] | [_ ?]]; [|done].
    destruct Hc as [[? _] | [_ (c & Hc & _)]]; [done|].
    by apply (get_edge_geometry_has_edge G edge c).
  - destruct Hc as [[Hin ->] | [Hnot (c & Hc & ->)]].
    + exists drawn. split; [done|]. split; [by apply sublist_inserts_r|].
      split; [done|].
      intros e He. apply elem_of_app in He as [He|He]; [by apply Hcov|].
      apply Hnew in He as [[_ ?] | [-> _]]; [done|].
      rewrite reverse_id_involutive. destruct (Hcov edge Hin); [right | left]; done.
    + exists (drawn ++ [edge]). split; [|split; [|split]].
      * apply Forall2_app; [done|]. by apply Forall2_cons.
      * apply sublist_app; [done|]. unfold newly_blocked.
        rewrite (bool_decide_eq_false_2 (edge ∈ blocked)) by done.
        by apply sublist_inserts_r.
      * intros e He. apply elem_of_app in He as [He|He]; [by apply Hdm|].
        by apply list_elem_of_singleton in He as ->.
      * intros e He. rewrite !elem_of_app, !list_elem_of_singleton.
        apply elem_of_app in He as [He|He]; [destruct (Hcov e He); tauto|].
        apply Hnew in He as [[-> _] | [-> _]]; [tauto|].
        rewrite reverse_id_involutive. tauto.
Qed.

Lemma block_selected_invariant (G : MultiDiGraph) (major selected : list edge_id)
    (blocked : list edge_id) (coords : list (list (Q * Q))) (count : nat)
    (st' : list edge_id * list (list (Q * Q)) * nat) (drawn : list edge_id) :
  block_selected G selected (blocked, coords, count) = Ok st' →
  (∀ e, e ∈ selected → e ∈ major) →
  (∀ e, e ∈ blocked → has_edge_id G e = true) →
  drawn_as G major blocked coords drawn →
  (∀ e, e ∈ st'.1.1 → has_edge_id G e = true) ∧
  ∃ drawn', drawn_as G major st'.1.1 st'.1.2 drawn'.
Proof.
  revert blocked coords count drawn.
  induction selected as [|x rest IH]; intros blocked coords count drawn;
    cbn [block_selected].
  - intros [= <-] _ Hedges Hdrawn. split; [done|]. by exists drawn.
  - destruct (block_edge G (blocked, coords, count) x) as [[[b1 c1] n1]|e] eqn:E;
      [|done].
    intros Hrest Hsel Hedges Hdrawn.
    destruct (block_edge_invariant G major blocked coords count x _ drawn E)
      as [Hedges1 [drawn1 Hdrawn1]]; [apply Hsel; left | done..|].
    apply (IH b1 c1 n1 drawn1 Hrest); [|done..].
    intros e He. apply Hsel. by right.
Qed.

Lemma impact_step_invariant (G : MultiDiGraph) (major : list edge_id)
    (st st' : DamageState) (impact : Q * Q * nat) (drawn : list edge_id) :
  impact_step G major st impact = Ok st' →
  (∀ e, e ∈ blocked_edges st → has_edge_id G e = true) →
  drawn_as G major (blocked_edges st) (blocked_edges_coords st) drawn →
  (∀ e, e ∈ blocked_edges st' → has_edge_id G e = true) ∧
  ∃ drawn', drawn_as G major (blocked_edges st') (blocked_edges_coords st') drawn'.
Proof.
  destruct impact as [[lat lon] n]. unfold impact_step.
  destruct (selected_edges G major (blocked_edges st) (lat, lon) n)
    as [selected|e] eqn:Hsel; [|done].
  destruct (block_selected G selected _) as [[[b c] k]|e] eqn:E; [|done].
  intros [= <-] Hedges Hdrawn. cbn [blocked_edges blocked_edges_coords].
  apply (block_selected_invariant G major selected _ _ _ (b, c, k) drawn E);
    [|done..].
  intros e He. by apply (selected_edges_elem _ _ _ _ _ _ Hsel).
Qed.

Lemma impact_loop_invariant (G : MultiDiGraph) (major : list edge_id)
    (impacts : list (Q * Q * nat)) (st st' : DamageState) (drawn : list edge_id) :
  impact_loop G major impacts st = Ok st' →
  (∀ e, e ∈ blocked_edges st → has_edge_id G e = true) →
  drawn_as G major (blocked_edges st) (blocked_edges_coords st) drawn →
  (∀ e, e ∈ blocked_edges st' → has_edge_id G e = true) ∧
  ∃ drawn', drawn_as G major (blocked_edges st') (blocked_edges_coords st') drawn'.
Proof.
  revert st drawn.
  induction impacts as [|imp rest IH]; intros st drawn; cbn [impact_loop].
  - intros [= <-] Hedges Hdrawn. split; [done|]. by exists drawn.
  - destruct (impact_step G major st imp) as [st1|e] eqn:E; [|done].
    intros Hrest Hedges Hdrawn.
    destruct (impact_step_invariant G major st st1 imp drawn E Hedges Hdrawn)
      as [Hedges1 [drawn1 Hdrawn1]].
    by apply (IH st1 drawn1).
Qed.

Lemma drawn_as_nil (G : MultiDiGraph) (major : list edge_id) :
  drawn_as G major [] [] [].
Proof.
  split; [apply Forall2_nil_2 | split; [done | split]];
    intros e He; by apply not_elem_of_nil in He.
Qed.

Lemma impact_step_closed (G : MultiDiGraph) (major : list edge_id)
    (st st' : DamageState) (impact : Q * Q * nat) :
  impact_step G major st impact = Ok st' →
  closed_under_reverse G (blocked_edges st) →
  closed_under_reverse G (blocked_edges st').
Proof.
  intros Hstep Hclosed.
  destruct (impact_step_run G major st st' impact Hstep) as (selected & _ & Hb & _).
  rewrite Hb. intros e He Hrev. rewrite elem_of_app, newly_blocked_all_elem.
  destruct (decide (reverse_id e ∈ blocked_edges st)) as [?|Hnot]; [by left|].
  right. split; [done|]. rewrite reverse_id_involutive.
  apply elem_of_app in He as [He|He]; [by destruct Hnot; apply Hclosed|].
  apply newly_blocked_all_elem in He as [_ [He|[He _]]]; [right | left]; done.
Qed.

Lemma impact_loop_closed (G : MultiDiGraph) (major : list edge_id)
    (impacts : list (Q * Q * nat)) (st st' : DamageState) :
  impact_loop G major impacts st = Ok st' →
  closed_under_reverse G (blocked_edges st) →
  closed_under_reverse G (blocked_edges st').
Proof.
  revert st. induction impacts as [|imp rest IH]; intros st; cbn [impact_loop].
  - by intros [= <-].
  - destruct (impact_step G major st imp) as [st1|e] eqn:E; [|done].
    intros Hrest Hclosed. apply (IH st1 Hrest).
    by apply (impact_step_closed G major st st1 imp).
Qed.

Lemma closed_under_reverse_nil (G : MultiDiGraph) : closed_under_reverse G [].
Proof. intros e He. by apply not_elem_of_nil in He. Qed.

(** After a damage event every blocked identifier names an edge of the
    network, and with a blocked direction its reverse is blocked too whenever
    the network has it: the blocked list describes whole roads. *)
Theorem blocked_edges_are_closed (G : MultiDiGraph) (major : list edge_id)
    (impacts : list (Q * Q * nat)) (before final : DamageState) :
  major ≠ [] →
  block_roads G major impacts before = Ok final →
  (∀ e, e ∈ blocked_edges final → has_edge_id G e = true) ∧
  closed_under_reverse G (blocked_edges final).
Proof.
  intros Hne Hrun. unfold block_roads in Hrun.
  destruct major as [|m0 major']; [done|]. split.
  - apply (impact_loop_invariant G _ impacts no_damage final [] Hrun).
    + intros e He. by apply not_elem_of_nil in He.
    + apply drawn_as_nil.
  - apply (impact_loop_closed G _ impacts no_damage final Hrun).
    apply closed_under_reverse_nil.
Qed.

Lemma blocked_edges_are_closed_witness :
  ∃ final,
    block_roads square [(1, 2, 0); (2, 1, 0); (2, 3, 0)]
                [(0%Q, (1 # 2)%Q, 2%nat); ((1 # 2)%Q, 1%Q, 4%nat)] no_damage
    = Ok final ∧
    (∀ e, e ∈ blocked_edges final → has_edge_id square e = true) ∧
    closed_under_reverse square (blocked_edges final).
Proof.
  eexists. split; [vm_compute; reflexivity|].
  apply (blocked_edges_are_closed square [(1, 2, 0); (2, 1, 0); (2, 3, 0)]
           [(0%Q, (1 # 2)%Q, 2%nat); ((1 # 2)%Q, 1%Q, 4%nat)] no_damage).
  - done.
  - vm_compute. reflexivity.
Defined.

(** The map shows every blocked road: the stored geometries are those of
    blocked major roads, one for each, in the order of blocking, and every
    blocked direction is among them or is the reverse of one of them. *)
Theorem blocked_roads_are_drawn (G : MultiDiGraph) (major : list edge_id)
    (impacts : list (Q * Q * nat)) (before final : DamageState) :
  major ≠ [] →
  block_roads G major impacts before = Ok final →
  ∃ drawn,
    Forall2 (λ e c, get_edge_geometry G e = Ok c) drawn (blocked_edges_coords final) ∧
    drawn `sublist_of` blocked_edges final ∧
    (∀ e, e ∈ drawn → e ∈ major) ∧
    (∀ e, e ∈ blocked_edges final → e ∈ drawn ∨ reverse_id e ∈ drawn).
Proof.
  intros Hne Hrun. unfold block_roads in Hrun.
  destruct major as [|m0 major']; [done|].
  destruct (impact_loop_invariant G _ impacts no_damage final [] Hrun)
    as [_ [drawn Hdrawn]].
  - intros e He. by apply not_elem_of_nil in He.
  - apply drawn_as_nil.
  - by exists drawn.
Qed.

Lemma blocked_roads_are_drawn_witness :
  ∃ final,
    block_roads street [(1, 2, 0); (2, 1, 0)] [(0%Q, (1 # 2)%Q, 1%nat)] no_damage
    = Ok final ∧
    blocked_edges final = [(1, 2, 0); (2, 1, 0)] ∧
    length (blocked_edges_coords final) = 1%nat ∧
    ∃ drawn,
      Forall2 (λ e c, get_edge_geometry street e = Ok c) drawn
              (blocked_edges_coords final) ∧
      drawn `sublist_of` blocked_edges final ∧
      (∀ e, e ∈ drawn → e ∈ [(1, 2, 0); (2, 1, 0)]) ∧
      (∀ e, e ∈ blocked_edges final → e ∈ drawn ∨ reverse_id e ∈ drawn).
Proof.
  eexists. split; [vm_compute; reflexivity|]. split; [reflexivity|].
  split; [reflexivity|].
  apply (blocked_roads_are_drawn street [(1, 2, 0); (2, 1, 0)]
           [(0%Q, (1 # 2)%Q, 1%nat)] no_damage).
  - done.
  - vm_compute. reflexivity.
Defined.

(** For a blocked list that is closed under reversal, removing the blocked
    edges in both directions removes exactly the blocked edges. *)
Lemma closed_working_graph (G : MultiDiGraph) (blocked : list edge_id) :
  closed_under_reverse G blocked →
  working_graph G blocked = minus_blocked G blocked.
Proof.
  intros Hclosed. apply graph_eq; [done|]. simpl. apply filter_agree.
  intros e He. split; [tauto|]. intros Hnot. split; [done|]. intros Hrev.
  apply Hnot. rewrite <- (reverse_id_involutive (id_of e)).
  apply Hclosed; [done|]. rewrite reverse_id_involutive.
  unfold has_edge_id. apply has_edge_spec. exists e. split; [done|].
  by destruct e.
Qed.

Section FindRoutesAfterDamage.

Variable nearest_nodes : MultiDiGraph → Q → Q → result node exn.
Variable shortest_path : MultiDiGraph → node → node → result (list node) exn.

(** With the blocked list of a damage event, the working graph of
    [find_routes] is the network without exactly the blocked edges: the
    removal of reverse directions removes nothing more, because the damage
    loop has blocked every reverse direction that exists. *)
Theorem find_routes_after_damage (G : MultiDiGraph) (major : list edge_id)
    (impacts : list (Q * Q * nat)) (before final : DamageState)
    (h : store) (g : ref) (start_lat start_lon end_lat end_lon : Q) (s t : node) :
  major ≠ [] →
  block_roads G major impacts before = Ok final →
  h !! g = Some G →
  nearest_nodes G start_lon start_lat = Ok s →
  nearest_nodes G end_lon end_lat = Ok t →
  working_graph G (blocked_edges final) = minus_blocked G (blocked_edges final) ∧
  (find_routes nearest_nodes shortest_path g start_lat start_lon end_lat end_lon
               (blocked_edges final) h).1 !! length h
  = Some (minus_blocked G (blocked_edges final)).
Proof.
  intros Hne Hrun Hg Hs Ht.
  assert (Hclosed : closed_under_reverse G (blocked_edges final)).
  { unfold block_roads in Hrun. destruct major as [|m0 major']; [done|].
    apply (impact_loop_closed G _ impacts no_damage final Hrun).
    apply closed_under_reverse_nil. }
  rewrite <- (closed_working_graph G _ Hclosed). split; [done|].
  by apply (working_graph_allocated nearest_nodes shortest_path h g G _ _ _ _ _ s t).
Qed.

End FindRoutesAfterDamage.

Lemma find_routes_after_damage_witness :
  ∃ final,
    block_roads street [(1, 2, 0); (2, 1, 0)] [(0%Q, (1 # 2)%Q, 1%nat)] no_damage
    = Ok final ∧
    working_graph street (blocked_edges final)
    = minus_blocked street (blocked_edges final) ∧
    (find_routes nearest_nodes_scan shortest_path_bf 0%nat 0 0 0 1
                 (blocked_edges final) [street]).1 !! length [street]
    = Some (minus_blocked street (blocked_edges final)).
Proof.
  eexists. split; [vm_compute; reflexivity|].
  apply (find_routes_after_damage nearest_nodes_scan shortest_path_bf street
           [(1, 2, 0); (2, 1, 0)] [(0%Q, (1 # 2)%Q, 1%nat)] no_damage _
           [street] 0%nat 0 0 0 1 1 2).
  - done.
  - vm_compute. reflexivity.
  - reflexivity.
  - reflexivity.
  - reflexivity.
Defined.

(** *** The counts of an event *)

Lemma impact_loop_counts (G : MultiDiGraph) (major : list edge_id)
    (impacts : list (Q * Q * nat)) (st st' : DamageState) :
  impact_loop G major impacts st = Ok st' →
  (sum_list_with roads_damaged (impact_zones st') + length (blocked_edges st)
   = sum_list_with roads_damaged (impact_zones st) + length (blocked_edges st'))%nat ∧
  ∃ zones,
    impact_zones st' = impact_zones st ++ zones ∧
    Forall2 (λ imp z, zone_lat z = imp.1.1 ∧ zone_lon z = imp.1.2 ∧
                      (roads_damaged z ≤ 2 * imp.2)%nat) impacts zones.
Proof.
  revert st. induction impacts as [|imp rest IH]; intros st; cbn [impact_loop].
  - intros [= <-]. split; [done|]. exists []. by rewrite app_nil_r.
  - destruct (impact_step G major st imp) as [st1|e] eqn:E; [|done].
    intros Hrest.
    destruct (impact_step_run G major st st1 imp E) as (sel & Hsel & Hb & Hz).
    destruct (IH st1 Hrest) as (Hsum & zones & Hzs & Hall).
    rewrite Hb, Hz in Hsum. rewrite sum_list_with_app, length_app in Hsum.
    cbn [sum_list_with roads_damaged] in Hsum.
    split; [lia|].
    eexists. rewrite Hzs, Hz, <- app_assoc. split; [done|].
    apply Forall2_cons. split; [|done]. cbn [zone_lat zone_lon roads_damaged].
    split; [done|]. split; [done|].
    pose proof (newly_blocked_all_length G sel (blocked_edges st)).
    destruct (selected_edges_elem _ _ _ _ _ _ Hsel) as [Hlen _]. lia.
Qed.

(** The numbers of roads damaged that the zones of an event report add up to
    the number of blocked directions, and there is one zone for every impact,
    at the point of the impact, reporting at most twice as many directions as
    the number of edges drawn for the impact. *)
Theorem damage_counts_add_up (G : MultiDiGraph) (major : list edge_id)
    (impacts : list (Q * Q * nat)) (before final : DamageState) :
  major ≠ [] →
  block_roads G major impacts before = Ok final →
  sum_list_with roads_damaged (impact_zones final) = length (blocked_edges final) ∧
  Forall2 (λ imp z, zone_lat z = imp.1.1 ∧ zone_lon z = imp.1.2 ∧
                    (roads_damaged z ≤ 2 * imp.2)%nat)
          impacts (impact_zones final).
Proof.
  intros Hne Hrun. unfold block_roads in Hrun.
  destruct major as [|m0 major']; [done|].
  destruct (impact_loop_counts G _ impacts no_damage final Hrun)
    as (Hsum & zones & Hzs & Hall).
  simpl in Hsum, Hzs. subst zones. split; [lia | done].
Qed.

Lemma damage_counts_add_up_witness :
  ∃ final,
    block_roads square [(1, 2, 0); (2, 1, 0); (2, 3, 0)]
                [(0%Q, (1 # 2)%Q, 2%nat); ((1 # 2)%Q, 1%Q, 4%nat)] no_damage
    = Ok final ∧
    sum_list_with roads_damaged (impact_zones final) = length (blocked_edges final) ∧
    Forall2 (λ imp z, zone_lat z = imp.1.1 ∧ zone_lon z = imp.1.2 ∧
                      (roads_damaged z ≤ 2 * imp.2)%nat)
            [(0%Q, (1 # 2)%Q, 2%nat); ((1 # 2)%Q, 1%Q, 4%nat)] (impact_zones final).
Proof.
  eexists. split; [vm_compute; reflexivity|].
  apply (damage_counts_add_up square [(1, 2, 0); (2, 1, 0); (2, 3, 0)]
           [(0%Q, (1 # 2)%Q, 2%nat); ((1 # 2)%Q, 1%Q, 4%nat)] no_damage).
  - done.
  - vm_compute. reflexivity.
Defined.

(** *** The edges that an impact selects *)


Lemma insert_by_dist_perm (x : edge_id * Q) (l : list (edge_id * Q)) :
  insert_by_dist x l ≡ₚ x :: l.
Proof.
  induction l as [|y l IH]; cbn [insert_by_dist]; [done|].
  destruct (Qltb y.2 x.2); [|done]. rewrite IH. apply Permutation_swap.
Qed.

Lemma sort_by_dist_perm (l : list (edge_id * Q)) : sort_by_dist l ≡ₚ l.
Proof.
  unfold sort_by_dist. induction l as [|x l IH]; cbn [foldr]; [done|].
  by rewrite insert_by_dist_perm, IH.
Qed.








(** ** Major roads *)

Lemma node_data_error (G : MultiDiGraph) (n : node) (err : exn) :
  Graph.node_data G n = Error err → err = KeyError ∧ Graph.has_node G n = false.
Proof.
  unfold Graph.node_data, Graph.has_node.
  destruct (list_find _ (nodes G)) as [[i p]|] eqn:E; [done|].
  intros [= <-]. split; [done|]. apply bool_decide_eq_false.
  intros Hin. apply list_elem_of_fmap in Hin as (p & Hp & Hin).
  apply list_find_None in E.
  by apply (proj1 (Forall_forall _ _) E p Hin).
Qed.

Lemma midpoint_error (G : MultiDiGraph) (edge : edge_id) (err : exn) :
  midpoint G edge = Error err →
  err = KeyError ∧
  (Graph.has_node G edge.1.1 = false ∨ Graph.has_node G edge.1.2 = false).
Proof.
  destruct edge as [[u v] key]. unfold midpoint. cbn [fst snd].
  destruct (Graph.node_data G u) as [nu|e1] eqn:Eu.
  - destruct (Graph.node_data G v) as [nv|e2] eqn:Ev; [done|].
    intros [= <-]. destruct (node_data_error G v e2 Ev). split; [done | by right].
  - intros [= <-]. destruct (node_data_error G u e1 Eu). split; [done | by left].
Qed.

Lemma midpoint_ok_nodes (G : MultiDiGraph) (u v : node) (key : edge_key)
    (mid : Q * Q) :
  midpoint G (u, v, key) = Ok mid →
  ∃ nu nv, Graph.node_data G u = Ok nu ∧ Graph.node_data G v = Ok nv.
Proof.
  unfold midpoint.
  destruct (Graph.node_data G u) as [nu|]; [|done].
  destruct (Graph.node_data G v) as [nv|]; [|done]. eauto.
Qed.

Lemma within_dist_spec (d2 max_dist : Q) :
  within_dist d2 max_dist = true ↔ (0 <= max_dist)%Q ∧ (d2 <= max_dist * max_dist)%Q.
Proof.
  unfold within_dist. by rewrite andb_true_iff, !Qle_bool_iff.
Qed.

Lemma major_edges_loop_spec (G : MultiDiGraph) (es : list Edge) (center : Q * Q)
    (max_dist : Q) (major : list edge_id) :
  major_edges_loop G es center max_dist = Ok major →
  major `sublist_of` (id_of <$> es) ∧
  ∀ i, i ∈ major ↔
       ∃ e tag mid,
         e ∈ es ∧ id_of e = i ∧ first_tag (e_data e) = Ok tag ∧ tag ∈ major_types ∧
         midpoint G i = Ok mid ∧
         (0 <= max_dist)%Q ∧ (dist_sq mid center <= max_dist * max_dist)%Q.
Proof.
  revert major. induction es as [|e rest IH]; intros major; cbn [major_edges_loop].
  - intros [= <-]. split; [done|]. intros i. split.
    + intros Hi. by apply not_elem_of_nil in Hi.
    + intros (e & _ & _ & He & _). by apply not_elem_of_nil in He.
  - destruct (first_tag (e_data e)) as [tag|] eqn:Etag; [|done].
    cbv beta iota.
    destruct (decide (tag ∈ major_types)) as [Hmaj|Hmaj].
    + rewrite (bool_decide_eq_true_2 _ Hmaj).
      destruct (midpoint G (id_of e)) as [mid|] eqn:Emid; [|done].
      cbv beta iota.
      destruct (major_edges_loop G rest center max_dist) as [tl|]; [|done].
      destruct (IH tl eq_refl) as [Hsub Hiff].
      cbv beta iota.
      destruct (within_dist (dist_sq mid center) max_dist) eqn:Enear;
        intros [= <-]; cbn [fmap list_fmap].
      * split; [by apply sublist_skip|]. intros i.
        rewrite elem_of_cons, Hiff. apply within_dist_spec in Enear as [H0 Hle].
        split.
        -- intros [-> | (e' & tag' & mid' & He' & Hrest)].
           ++ exists e, tag, mid. split; [left|]; done.
           ++ exists e', tag', mid'. split; [by right | done].
        -- intros (e' & tag' & mid' & He' & Hid & Hrest).
           apply elem_of_cons in He' as [-> | He']; [left; done|].
           right. exists e', tag', mid'. done.
      * split; [by apply sublist_cons|]. intros i. rewrite Hiff. split.
        -- intros (e' & tag' & mid' & He' & Hrest).
           exists e', tag', mid'. split; [by right | done].
        -- intros (e' & tag' & mid' & He' & Hid & Htag & Hm & Hmid & H0 & Hle).
           apply elem_of_cons in He' as [-> | He'];
             [|exists e', tag', mid'; done].
           rewrite <- Hid, Emid in Hmid. injection Hmid as <-.
           assert (within_dist (dist_sq mid center) max_dist = true)
             by (by apply within_dist_spec).
           congruence.
    + rewrite (bool_decide_eq_false_2 _ Hmaj).
      cbv beta iota.
      destruct (major_edges_loop G rest center max_dist) as [tl|]; [|done].
      destruct (IH tl eq_refl) as [Hsub Hiff].
      intros [= <-]; cbn [fmap list_fmap].
      split; [by apply sublist_cons|]. intros i. rewrite Hiff. split.
      * intros (e' & tag' & mid' & He' & Hrest).
        exists e', tag', mid'. split; [by right | done].
      * intros (e' & tag' & mid' & He' & Hid & Htag & Hm & Hrest).
        apply elem_of_cons in He' as [-> | He'];
          [|exists e', tag', mid'; done].
        rewrite Etag in Htag. injection Htag as <-. done.
Qed.



Lemma major_edges_loop_error (G : MultiDiGraph) (es : list Edge) (center : Q * Q)
    (max_dist : Q) (err : exn) :
  major_edges_loop G es center max_dist = Error err →
  (err = IndexError ∧
   ∃ e, e ∈ es ∧ attr_highway (e_data e) = Some (HwList [])) ∨
  (err = KeyError ∧
   ∃ e tag, e ∈ es ∧ first_tag (e_data e) = Ok tag ∧ tag ∈ major_types ∧
            (Graph.has_node G (e_u e) = false ∨ Graph.has_node G (e_v e) = false)).
Proof.
  induction es as [|e rest IH]; cbn [major_edges_loop]; [done|].
  assert (Hrest :
    major_edges_loop G rest center max_dist = Error err →
    (err = IndexError ∧
     ∃ e', e' ∈ e :: rest ∧ attr_highway (e_data e') = Some (HwList [])) ∨
    (err = KeyError ∧
     ∃ e' tag, e' ∈ e :: rest ∧ first_tag (e_data e') = Ok tag ∧ tag ∈ major_types ∧
       (Graph.has_node G (e_u e') = false ∨ Graph.has_node G (e_v e') = false))).
  { intros Hr. destruct (IH Hr) as [[-> (e' & He' & Hh)] | [-> (e' & tag & He' & Hh)]].
    - left. split; [done|]. exists e'. split; [by right | done].
    - right. split; [done|]. exists e', tag. split; [by right | done]. }
  destruct (first_tag (e_data e)) as [tag|err0] eqn:Etag.
  - cbv beta iota.
    destruct (decide (tag ∈ major_types)) as [Hmaj|Hmaj].
    + rewrite (bool_decide_eq_true_2 _ Hmaj).
      destruct (midpoint G (id_of e)) as [mid|err1] eqn:Emid.
      * cbv beta iota.
        destruct (major_edges_loop G rest center max_dist) as [tl|err2]; [done|].
        intros [= <-]. by apply Hrest.
      * intros [= <-]. apply midpoint_error in Emid as [-> Hnodes].
        right. split; [done|]. exists e, tag. split; [left|].
        destruct e as [u v k d]. done.
    + rewrite (bool_decide_eq_false_2 _ Hmaj). cbv beta iota.
      destruct (major_edges_loop G rest center max_dist) as [tl|err2]; [done|].
      intros [= <-]. by apply Hrest.
  - intros [= <-]. left. unfold first_tag in Etag.
    destruct (attr_highway (e_data e)) as [[s|[|s l]]|] eqn:Eh; try done.
    injection Etag as <-. split; [done|]. exists e. split; [left | done].
Qed.

(** [get_major_road_edges] returns a list unless some edge has an empty list
    of highway tags, for which it raises [IndexError], or some edge of a
    major class has an end that is not a node of the graph, for which it
    raises [KeyError].  A missing highway tag raises nothing. *)
Theorem major_roads_failures (G : MultiDiGraph) (center_lat center_lon max_dist : Q) :
  (∃ major, get_major_road_edges G center_lat center_lon max_dist = Ok major) ∨
  (get_major_road_edges G center_lat center_lon max_dist = Error IndexError ∧
   ∃ e, e ∈ edges G ∧ attr_highway (e_data e) = Some (HwList [])) ∨
  (get_major_road_edges G center_lat center_lon max_dist = Error KeyError ∧
   ∃ e tag, e ∈ edges G ∧ first_tag (e_data e) = Ok tag ∧ tag ∈ major_types ∧
            (Graph.has_node G (e_u e) = false ∨ Graph.has_node G (e_v e) = false)).
Proof.
  unfold get_major_road_edges.
  destruct (major_edges_loop G (edges G) (center_lat, center_lon) max_dist)
    as [major|err] eqn:E; [left; by exists major|].
  right. destruct (major_edges_loop_error _ _ _ _ _ E) as [[-> H] | [-> H]];
    [left | right]; done.
Qed.

Lemma edge_data_ok (G : MultiDiGraph) (e : Edge) :
  e ∈ edges G → ∃ d, edge_data G (id_of e) = Ok d.
Proof.
  intros He. unfold edge_data.
  destruct (list_find (λ e', id_of e' = id_of e) (edges G)) as [[i e']|] eqn:E;
    [eauto|].
  apply list_find_None in E.
  by destruct (proj1 (Forall_forall _ _) E e He).
Qed.

Lemma major_roads_are_known (G : MultiDiGraph) (center_lat center_lon max_dist : Q)
    (major : list edge_id) :
  get_major_road_edges G center_lat center_lon max_dist = Ok major →
  major_roads_known G major.
Proof.
  intros Hget edge Hedge.
  destruct (major_edges_loop_spec G (edges G) (center_lat, center_lon) max_dist
              major Hget) as [_ Hiff].
  apply Hiff in Hedge as (e & tag & mid & He & Hid & _ & _ & Hmid & _).
  split; [by exists mid|].
  destruct (edge_data_ok G e He) as [d Hd]. rewrite Hid in Hd.
  destruct edge as [[u v] key]. unfold get_edge_geometry. rewrite Hd.
  destruct (attr_geometry d) as [coords|]; [eauto|].
  destruct (midpoint_ok_nodes G u v key mid Hmid) as (nu & nv & -> & ->). eauto.
Qed.

(** The damage loop raises nothing on the major roads that
    [get_major_road_edges] has returned for the network, whatever the impacts
    are. *)
Theorem damage_returns_on_major_roads (G : MultiDiGraph)
    (center_lat center_lon max_dist : Q) (major : list edge_id)
    (impacts : list (Q * Q * nat)) (before : DamageState) :
  get_major_road_edges G center_lat center_lon max_dist = Ok major →
  ∃ final, block_roads G major impacts before = Ok final.
Proof.
  intros Hget. unfold block_roads. destruct major as [|m0 major']; [eauto|].
  apply impact_loop_total.
  by apply (major_roads_are_known G center_lat center_lon max_dist).
Qed.

Lemma damage_returns_on_major_roads_witness :
  ∃ final,
    block_roads square [(1, 2, 0); (2, 1, 0)] [(0%Q, (1 # 2)%Q, 2%nat)] no_damage
    = Ok final.
Proof.
  apply (damage_returns_on_major_roads square 0 (1 # 2) (1 # 2)). reflexivity.
Defined.

(** ** The polyline of a route *)

Lemma node_data_ok (G : MultiDiGraph) (n : node) :
  Graph.has_node G n = true → ∃ d, Graph.node_data G n = Ok d.
Proof.
  intros Hn. destruct (Graph.node_data G n) as [d|err] eqn:E; [eauto|].
  apply node_data_error in E as [_ E]. congruence.
Qed.

Lemma adj_joined (G : MultiDiGraph) (u v : node) :
  Graph.has_edge_uv G u v = true →
  ∃ e es, Graph.between G u v = e :: es ∧ Graph.adj G u v = Ok (e :: es) ∧
          e ∈ edges G ∧ e_u e = u ∧ e_v e = v.
Proof.
  unfold Graph.has_edge_uv, Graph.adj. intros Hne. apply bool_decide_eq_true in Hne.
  destruct (Graph.between G u v) as [|e es] eqn:E; [done|].
  exists e, es. split; [done|]. split; [done|].
  apply between_elem. rewrite E. left.
Qed.

Lemma needs_point_last (coords : list point) (y x : Q) :
  needs_point (coords ++ [PList y x]) y x = false.
Proof.
  unfold needs_point. rewrite last_snoc.
  assert (Hy : Qeq_bool y y = true) by (apply Qeq_bool_iff; reflexivity).
  assert (Hx : Qeq_bool x x = true) by (apply Qeq_bool_iff; reflexivity).
  by rewrite Hy, Hx.
Qed.

Lemma node_point_data (G : MultiDiGraph) (n : node) (pt : point) :
  node_point G n = Some pt →
  ∃ d, Graph.node_data G n = Ok d ∧ pt = PList (node_y d) (node_x d).
Proof.
  unfold node_point. destruct (Graph.node_data G n) as [d|]; [|done].
  intros [= <-]. by exists d.
Qed.

Lemma route_coords_loop_cons (G : MultiDiGraph) (u v : node) (tl : list node)
    (coords : list point) :
  route_coords_loop G (u :: v :: tl) coords
  = let? coords' := route_coords_step G coords u v in
    route_coords_loop G (v :: tl) coords'.
Proof. done. Qed.

(** The loop along a path without edge geometries, entered with the position
    of the first node at the end of [coords]: no position is added twice. *)
Lemma route_coords_loop_plain (G : MultiDiGraph) (tl : list node) (u : node)
    (acc : list point) (pu : point) (pts : list point) :
  linked G (u :: tl) = true →
  (∀ a b e es, (a, b) ∈ consecutive (u :: tl) → Graph.between G a b = e :: es →
               attr_geometry (e_data e) = None) →
  node_point G u = Some pu →
  Forall2 (λ n pt, node_point G n = Some pt) tl pts →
  route_coords_loop G (u :: tl) (acc ++ [pu]) = Ok (acc ++ [pu] ++ pts).
Proof.
  revert u acc pu pts.
  induction tl as [|v tl IH]; intros u acc pu pts Hlinked Hplain Hu Hpts.
  - apply Forall2_nil_inv_l in Hpts as ->. done.
  - apply Forall2_cons_inv_l in Hpts as (pv & pts' & Hv & Hpts' & ->).
    cbn [linked] in Hlinked. apply andb_true_iff in Hlinked as [Huv Hlinked].
    rewrite route_coords_loop_cons. unfold route_coords_step. rewrite Huv.
    destruct (adj_joined G u v Huv) as (e & es & Hbetween & -> & _).
    rewrite (Hplain u v e es); [|left|done].
    destruct (node_point_data G u pu Hu) as (nu & -> & ->).
    destruct (node_point_data G v pv Hv) as (nv & Hnv & ->).
    rewrite needs_point_last, Hnv.
    rewrite (IH v (acc ++ [PList (node_y nu) (node_x nu)])
                (PList (node_y nv) (node_x nv)) pts' Hlinked); [|
      |by unfold node_point; rewrite Hnv|done].
    + by rewrite <- !app_assoc.
    + intros a b e' es' Hab. apply Hplain. by right.
Qed.

(** A route of two or more nodes whose consecutive nodes are joined, drawn
    on a network whose edges carry no geometry, is the line through the
    positions of its nodes, each taken once and in the order of the path. *)
Theorem route_drawn_through_nodes (G : MultiDiGraph) (route_path : list node)
    (pts : list point) :
  (2 ≤ length route_path)%nat →
  linked G route_path = true →
  (∀ u v e es, (u, v) ∈ consecutive route_path → Graph.between G u v = e :: es →
               attr_geometry (e_data e) = None) →
  Forall2 (λ n pt, node_point G n = Some pt) route_path pts →
  route_polyline G route_path = Ok (Some pts).
Proof.
  intros Hlen Hlinked Hplain Hpts.
  destruct route_path as [|u [|v tl]]; [simpl in Hlen; lia..|].
  apply Forall2_cons_inv_l in Hpts as (pu & pts1 & Hu & Hpts1 & ->).
  apply Forall2_cons_inv_l in Hpts1 as (pv & pts' & Hv & Hpts' & ->).
  assert (Hloop : route_coords G (u :: v :: tl) = Ok (pu :: pv :: pts')).
  { unfold route_coords.
    cbn [linked] in Hlinked. apply andb_true_iff in Hlinked as [Huv Hlinked].
    rewrite route_coords_loop_cons. unfold route_coords_step. rewrite Huv.
    destruct (adj_joined G u v Huv) as (e & es & Hbetween & -> & _).
    rewrite (Hplain u v e es); [|left|done].
    destruct (node_point_data G u pu Hu) as (nu & -> & ->).
    destruct (node_point_data G v pv Hv) as (nv & Hnv & ->).
    rewrite Hnv. cbn [needs_point last app].
    apply (route_coords_loop_plain G tl v [PList (node_y nu) (node_x nu)]
             (PList (node_y nv) (node_x nv)) pts' Hlinked); [|
      by unfold node_point; rewrite Hnv|done].
    intros a b e' es' Hab. apply Hplain. by right. }
  unfold route_polyline. by rewrite Hloop.
Qed.

Lemma route_drawn_through_nodes_witness :
  route_polyline square [1; 2; 3; 4]
  = Ok (Some [PList 0 0; PList 0 1; PList 1 1; PList 1 0]).
Proof.
  apply (route_drawn_through_nodes square [1; 2; 3; 4]).
  - simpl. lia.
  - reflexivity.
  - intros u v e es Huv. revert u v Huv e es.
    assert (Hall : Forall (λ uv, ∀ e es, Graph.between square uv.1 uv.2 = e :: es →
                                attr_geometry (e_data e) = None)
                     (consecutive [1; 2; 3; 4])).
    { repeat apply Forall_cons_2; [| | |apply Forall_nil_2];
        intros e es [= <- _]; reflexivity. }
    intros u v Huv. apply (proj1 (Forall_forall _ _) Hall (u, v) Huv).
  - repeat apply Forall2_cons_2; [reflexivity..|apply Forall2_nil_2].
Defined.

Lemma route_coords_step_returns (G : MultiDiGraph) (coords : list point) (u v : node) :
  (∀ e, e ∈ edges G →
        Graph.has_node G (e_u e) = true ∧ Graph.has_node G (e_v e) = true) →
  ∃ coords', route_coords_step G coords u v = Ok coords' ∧
             (Graph.has_edge_uv G u v = false → coords' = coords).
Proof.
  intros Hnodes. unfold route_coords_step.
  destruct (Graph.has_edge_uv G u v) eqn:Huv; [|by exists coords].
  destruct (adj_joined G u v Huv) as (e & es & _ & -> & He & <- & <-).
  destruct (attr_geometry (e_data e)) as [geometry|];
    [eexists; split; [done | done]|].
  destruct (Hnodes e He) as [Hu Hv].
  destruct (node_data_ok G _ Hu) as [nu ->].
  destruct (node_data_ok G _ Hv) as [nv ->].
  eexists. split; [done | done].
Qed.

(** Drawing a route raises nothing on a graph whose edges join nodes of the
    graph, whatever the node sequence is: a pair of consecutive nodes that no
    edge joins is skipped, and when no pair is joined (as for an empty route
    or a route of one node) no line is drawn. *)
Theorem route_drawing_returns (G : MultiDiGraph) (route_path : list node) :
  (∀ e, e ∈ edges G →
        Graph.has_node G (e_u e) = true ∧ Graph.has_node G (e_v e) = true) →
  ∃ line, route_polyline G route_path = Ok line ∧
          ((∀ u v, (u, v) ∈ consecutive route_path →
                   Graph.has_edge_uv G u v = false) → line = None).
Proof.
  intros Hnodes.
  assert (Hloop : ∀ p acc, ∃ coords, route_coords_loop G p acc = Ok coords ∧
            ((∀ u v, (u, v) ∈ consecutive p → Graph.has_edge_uv G u v = false) →
             coords = acc)).
  { induction p as [|u tl IH]; intros acc; [by exists acc|].
    destruct tl as [|v tl]; [by exists acc|].
    rewrite route_coords_loop_cons.
    destruct (route_coords_step_returns G acc u v Hnodes) as (acc' & -> & Hskip).
    destruct (IH acc') as (coords & Hc & Hsame). exists coords. split; [done|].
    intros Hno. rewrite Hsame, Hskip; [done| |].
    - apply Hno. left.
    - intros a b Hab. apply Hno. by right. }
  unfold route_polyline, route_coords.
  destruct (Hloop route_path []) as (coords & -> & Hsame).
  eexists. split; [done|]. intros Hno. by rewrite (Hsame Hno).
Qed.

Lemma route_drawing_returns_witness :
  ∃ line, route_polyline square [1; 3; 7] = Ok line ∧
          ((∀ u v, (u, v) ∈ consecutive [1; 3; 7] →
                   Graph.has_edge_uv square u v = false) → line = None).
Proof.
  apply (route_drawing_returns square [1; 3; 7]).
  apply Forall_forall. apply (bool_decide_unpack _). vm_compute. exact I.
Defined.

Lemma linked_nodes (G : MultiDiGraph) (p : list node) :
  (∀ e, e ∈ edges G →
        Graph.has_node G (e_u e) = true ∧ Graph.has_node G (e_v e) = true) →
  (2 ≤ length p)%nat → linked G p = true →
  ∀ n, n ∈ p → Graph.has_node G n = true.
Proof.
  intros Hnodes. induction p as [|u tl IH]; [simpl; lia|].
  destruct tl as [|v tl]; [simpl; lia|].
  intros _ Hlinked. cbn [linked] in Hlinked.
  apply andb_true_iff in Hlinked as [Huv Hlinked].
  apply has_edge_uv_spec in Huv as (e & He & <- & <-).
  destruct (Hnodes e He) as [Hu Hv].
  intros n Hn. apply elem_of_cons in Hn as [-> | Hn]; [done|].
  destruct tl as [|w tl].
  - by apply list_elem_of_singleton in Hn as ->.
  - apply IH; [simpl; lia | done | done].
Qed.

Lemma node_points_exist (G : MultiDiGraph) (p : list node) :
  (∀ n, n ∈ p → Graph.has_node G n = true) →
  ∃ pts, Forall2 (λ n pt, node_point G n = Some pt) p pts.
Proof.
  induction p as [|n p IH]; intros Hall; [exists []; apply Forall2_nil_2|].
  destruct IH as [pts Hpts]; [intros m Hm; apply Hall; by right|].
  destruct (node_data_ok G n) as [d Hd]; [apply Hall; left|].
  exists (PList (node_y d) (node_x d) :: pts).
  apply Forall2_cons_2; [|done]. unfold node_point. by rewrite Hd.
Qed.

Lemma walk_polyline (G : MultiDiGraph) (p : list node) :
  (∀ e, e ∈ edges G →
        Graph.has_node G (e_u e) = true ∧ Graph.has_node G (e_v e) = true) →
  (∀ e, e ∈ edges G → attr_geometry (e_data e) = None) →
  (2 ≤ length p)%nat → linked G p = true →
  ∃ pts, route_polyline G p = Ok (Some pts) ∧
         Forall2 (λ n pt, node_point G n = Some pt) p pts.
Proof.
  intros Hnodes Hplain Hlen Hlinked.
  destruct (node_points_exist G p (linked_nodes G p Hnodes Hlen Hlinked))
    as [pts Hpts].
  exists pts. split; [|done].
  destruct p as [|u [|v tl]]; [simpl in Hlen; lia..|].
  apply Forall2_cons_inv_l in Hpts as (pu & pts1 & Hu & Hpts1 & ->).
  apply Forall2_cons_inv_l in Hpts1 as (pv & pts' & Hv & Hpts' & ->).
  assert (Hgeo : ∀ a b e es, Graph.between G a b = e :: es →
                             attr_geometry (e_data e) = None).
  { intros a b e es Hb. apply Hplain.
    apply (proj1 (between_elem G a b e)). rewrite Hb. left. }
  assert (Hloop : route_coords G (u :: v :: tl) = Ok (pu :: pv :: pts')).
  { unfold route_coords.
    cbn [linked] in Hlinked. apply andb_true_iff in Hlinked as [Huv Hlinked].
    rewrite route_coords_loop_cons. unfold route_coords_step. rewrite Huv.
    destruct (adj_joined G u v Huv) as (e & es & Hbetween & -> & _).
    rewrite (Hgeo u v e es Hbetween).
    destruct (node_point_data G u pu Hu) as (nu & -> & ->).
    destruct (node_point_data G v pv Hv) as (nv & Hnv & ->).
    rewrite Hnv. cbn [needs_point last app].
    apply (route_coords_loop_plain G tl v [PList (node_y nu) (node_x nu)]
             (PList (node_y nv) (node_x nv)) pts' Hlinked); [|
      by unfold node_point; rewrite Hnv|done].
    intros a b e' es' _. apply Hgeo. }
  unfold route_polyline. by rewrite Hloop.
Qed.

Section FindRoutesDrawn.

Variable nearest_nodes : MultiDiGraph → Q → Q → result node exn.
Variable shortest_path : MultiDiGraph → node → node → result (list node) exn.

Hypothesis shortest_path_walk : ∀ G s t p,
  shortest_path G s t = Ok p → is_walk G s t p = true.

(** Every route that [find_routes] returns can be drawn on the road network
    itself, blocked roads included: on a network without edge geometries
    whose edges join its nodes, the line of a route of two or more nodes
    passes through the position of every node of the route, in order, and no
    pair of consecutive nodes is skipped. *)
Theorem returned_routes_are_drawn (h : store) (g : ref) (G : MultiDiGraph)
    (start_lat start_lon end_lat end_lon : Q) (blocked : list edge_id)
    (routes : list Route) (route : Route) :
  h !! g = Some G →
  (∀ e, e ∈ edges G →
        Graph.has_node G (e_u e) = true ∧ Graph.has_node G (e_v e) = true) →
  (∀ e, e ∈ edges G → attr_geometry (e_data e) = None) →
  (find_routes nearest_nodes shortest_path g start_lat start_lon end_lat end_lon
               blocked h).2 = Ok routes →
  route ∈ routes →
  (2 ≤ length (route_path route))%nat →
  ∃ pts, route_polyline G (route_path route) = Ok (Some pts) ∧
         Forall2 (λ n pt, node_point G n = Some pt) (route_path route) pts.
Proof.
  intros Hg Hnodes Hplain Hres Hin Hlen.
  apply walk_polyline; [done..|].
  destruct (find_routes_cases nearest_nodes shortest_path shortest_path_walk
              h g G _ _ _ _ blocked routes Hg Hres) as (s & t & Hs & Ht & Hcases).
  assert (Hw : ∀ W p, subgraph W (working_graph G blocked) →
                      shortest_path W s t = Ok p → linked G p = true).
  { intros W p Hsub Hsp. apply (subgraph_linked W).
    - apply (subgraph_trans _ (working_graph G blocked)); [done|].
      apply working_graph_subgraph.
    - apply (is_walk_linked W s t). by apply shortest_path_walk. }
  destruct Hcases as [[-> _]|(path & d & tm & Hsp & _ & Hcases)];
    [by apply not_elem_of_nil in Hin|].
  destruct Hcases as [[-> _]|(alt & d' & tm' & _ & Hsp' & _ & ->)].
  - apply list_elem_of_singleton in Hin as ->.
    apply (Hw (working_graph G blocked)); [apply subgraph_refl | done].
  - apply elem_of_cons in Hin as [-> | Hin].
    + apply (Hw (working_graph G blocked)); [apply subgraph_refl | done].
    + apply list_elem_of_singleton in Hin as ->.
      apply (Hw (cut_middle (working_graph G blocked) path));
        [apply cut_middle_subgraph | done].
Qed.

End FindRoutesDrawn.

Lemma returned_routes_are_drawn_witness :
  route_path long_road_alternative = [1; 2; 3; 4; 20; 8; 9; 10; 11] ∧
  ∃ pts,
    route_polyline long_road (route_path long_road_alternative) = Ok (Some pts) ∧
    Forall2 (λ n pt, node_point long_road n = Some pt)
            (route_path long_road_alternative) pts.
Proof.
  split; [by vm_compute|].
  assert (Hres : (find_routes nearest_nodes_scan shortest_path_bf 0%nat 0 1 0 11 []
                              [long_road]).2
                 = Ok [long_road_fastest; long_road_alternative])
    by (by vm_compute).
  assert (Hnodes : ∀ e, e ∈ edges long_road →
            Graph.has_node long_road (e_u e) = true ∧
            Graph.has_node long_road (e_v e) = true).
  { apply Forall_forall. apply (bool_decide_unpack _). vm_compute. exact I. }
  assert (Hplain : ∀ e, e ∈ edges long_road → attr_geometry (e_data e) = None).
  { apply Forall_forall. unfold long_road. cbn [edges fmap list_fmap app].
    repeat (apply Forall_cons_2; [reflexivity|]). apply Forall_nil_2. }
  assert (Hin : long_road_alternative ∈ [long_road_fastest; long_road_alternative])
    by (right; left).
  assert (Hlen : (2 ≤ length (route_path long_road_alternative))%nat)
    by (vm_compute; lia).
  exact (returned_routes_are_drawn nearest_nodes_scan shortest_path_bf
           shortest_path_bf_walk [long_road] 0%nat long_road 0 1 0 11 []
           [long_road_fastest; long_road_alternative] long_road_alternative
           eq_refl Hnodes Hplain Hres Hin Hlen).
Defined.

(** ** The geometry of an edge *)

Lemma edge_data_missing (G : MultiDiGraph) (edge : edge_id) :
  has_edge_id G edge = false → edge_data G edge = Error KeyError.
Proof.
  intros Hno. unfold edge_data.
  destruct (list_find (λ e, id_of e = edge) (edges G)) as [[i e]|] eqn:E; [|done].
  apply list_find_Some in E as (Hi & He & _).
  assert (Hhas : has_edge_id G edge = true).
  { destruct edge as [[u v] key]. unfold has_edge_id. apply has_edge_spec.
    exists e. split; [by apply list_elem_of_lookup_2 in Hi | done]. }
  congruence.
Qed.

(** On a graph whose edges join nodes of the graph, [get_edge_geometry]
    returns coordinates exactly for the identifiers of edges of the graph,
    and raises [KeyError] for every other identifier. *)
Theorem edge_geometry_defined_on_edges (G : MultiDiGraph) (edge : edge_id) :
  (∀ e, e ∈ edges G →
        Graph.has_node G (e_u e) = true ∧ Graph.has_node G (e_v e) = true) →
  (has_edge_id G edge = true ↔ ∃ coords, get_edge_geometry G edge = Ok coords) ∧
  (has_edge_id G edge = false ↔ get_edge_geometry G edge = Error KeyError).
Proof.
  intros Hnodes.
  destruct (has_edge_id G edge) eqn:Hhas.
  - assert (Hok : ∃ coords, get_edge_geometry G edge = Ok coords).
    { destruct edge as [[u v] key]. unfold has_edge_id in Hhas. cbn [fst snd] in Hhas.
      apply has_edge_spec in Hhas as (e & He & Hid).
      destruct (edge_data_ok G e He) as [d Hd]. rewrite Hid in Hd.
      unfold get_edge_geometry. rewrite Hd.
      destruct (attr_geometry d) as [coords|]; [eauto|].
      destruct (Hnodes e He) as [Hu Hv]. destruct e as [a b k x].
      injection Hid as -> -> ->. cbn [e_u e_v] in Hu, Hv.
      destruct (node_data_ok G u Hu) as [nu ->].
      destruct (node_data_ok G v Hv) as [nv ->]. eauto. }
    split; [split; [by intros _ | done]|].
    destruct Hok as [coords ->]. split; done.
  - assert (Herr : get_edge_geometry G edge = Error KeyError).
    { destruct edge as [[u v] key]. unfold get_edge_geometry.
      by rewrite (edge_data_missing G (u, v, key) Hhas). }
    rewrite Herr. split; [split; [done | by intros [coords ?]]|]. split; done.
Qed.

Lemma edge_geometry_defined_on_edges_witness :
  (has_edge_id street (1, 2, 0) = true
   ↔ ∃ coords, get_edge_geometry street (1, 2, 0) = Ok coords) ∧
  (has_edge_id street (1, 2, 0) = false
   ↔ get_edge_geometry street (1, 2, 0) = Error KeyError).
Proof.
  apply (edge_geometry_defined_on_edges street (1, 2, 0)).
  apply Forall_forall. apply (bool_decide_unpack _). vm_compute. exact I.
Defined.
